(** * Demand paging on a two-level x86 page table: [page_table.C]

    A shallow embedding of [PageTable] (construction, [load],
    [enable_paging]) and of the page-fault handler [handle_fault], over an
    explicit machine state: physical memory, the control registers, the
    console, the static members of the class and the two frame pools.

    Every pointer dereference of the source is a word access at a virtual
    address; with the paging bit of [cr0] set it goes through the
    two-level walk rooted at [cr3], otherwise the address is physical.
    [unsigned long] is the 32-bit word of the i386 target. *)

From stdpp Require Import gmap strings list.

Local Open Scope string_scope.
Local Open Scope Z_scope.

(** ** Machine words and constants *)

Definition wrap32 (x : Z) : Z := x mod 2 ^ 32.

(** Modelled from the spec: [PAGE_SIZE] and [ENTRIES_PER_PAGE] are declared
    in [page_table.H], which is not part of the sources; the spec fixes a
    4 KiB frame and 1024 entries per directory or table. *)
Definition PAGE_SIZE : Z := 4096.
Definition ENTRIES_PER_PAGE : Z := 1024.

(** ** Observable traces *)

(** What [Console::puts] and [Console::putui] were called with. *)
Inductive output : Type :=
| Puts (msg : string)
| Putui (n : Z).

(** One executed word store: the virtual address the code used, the
    physical word it reached, the value. The list of stores is a ghost
    trace; the memory itself is [phys]. *)
Record access : Type := Access { acc_va : Z; acc_pa : Z; acc_val : Z }.

(** ** The class and its collaborators *)

Record PageTable : Type := { page_directory : Z }.

(** Modelled from the spec: the frame pool is an external collaborator
    ([cont_frame_pool.C] is not part of the sources). A pool is the sequence
    of answers it will give to successive [get_frames] requests; the answer
    0 is the failure sentinel, and a pool with nothing left to give answers
    0 forever. *)
Definition ContFramePool : Type := list Z.

Definition get_frames (p : ContFramePool) (_n_frames : Z) : Z * ContFramePool :=
  match p with
  | [] => (0, [])
  | f :: p' => (wrap32 f, p')
  end.

Record machine : Type := Machine {
  phys : gmap Z Z;
  cr0 : Z;
  cr2 : Z;
  cr3 : Z;
  console : list output;
  stores : list access;
  current_page_table : option PageTable;
  paging_enabled : Z;
  kernel_mem_pool : option ContFramePool;
  process_mem_pool : option ContFramePool;
  shared_size : Z
}.

Definition with_store (a : access) (s : machine) : machine :=
  Machine (<[acc_pa a := acc_val a]> (phys s)) (cr0 s) (cr2 s) (cr3 s)
    (console s) (stores s ++ [a]) (current_page_table s) (paging_enabled s)
    (kernel_mem_pool s) (process_mem_pool s) (shared_size s).

Definition with_cr0 (v : Z) (s : machine) : machine :=
  Machine (phys s) v (cr2 s) (cr3 s) (console s) (stores s)
    (current_page_table s) (paging_enabled s) (kernel_mem_pool s)
    (process_mem_pool s) (shared_size s).

Definition with_cr2 (v : Z) (s : machine) : machine :=
  Machine (phys s) (cr0 s) v (cr3 s) (console s) (stores s)
    (current_page_table s) (paging_enabled s) (kernel_mem_pool s)
    (process_mem_pool s) (shared_size s).

Definition with_cr3 (v : Z) (s : machine) : machine :=
  Machine (phys s) (cr0 s) (cr2 s) v (console s) (stores s)
    (current_page_table s) (paging_enabled s) (kernel_mem_pool s)
    (process_mem_pool s) (shared_size s).

Definition with_output (o : output) (s : machine) : machine :=
  Machine (phys s) (cr0 s) (cr2 s) (cr3 s) (console s ++ [o]) (stores s)
    (current_page_table s) (paging_enabled s) (kernel_mem_pool s)
    (process_mem_pool s) (shared_size s).

Definition with_current (p : option PageTable) (s : machine) : machine :=
  Machine (phys s) (cr0 s) (cr2 s) (cr3 s) (console s) (stores s)
    p (paging_enabled s) (kernel_mem_pool s) (process_mem_pool s)
    (shared_size s).

Definition with_enabled (v : Z) (s : machine) : machine :=
  Machine (phys s) (cr0 s) (cr2 s) (cr3 s) (console s) (stores s)
    (current_page_table s) v (kernel_mem_pool s) (process_mem_pool s)
    (shared_size s).

Definition with_kernel_pool (p : option ContFramePool) (s : machine) : machine :=
  Machine (phys s) (cr0 s) (cr2 s) (cr3 s) (console s) (stores s)
    (current_page_table s) (paging_enabled s) p (process_mem_pool s)
    (shared_size s).

Definition with_process_pool (p : option ContFramePool) (s : machine) : machine :=
  Machine (phys s) (cr0 s) (cr2 s) (cr3 s) (console s) (stores s)
    (current_page_table s) (paging_enabled s) (kernel_mem_pool s) p
    (shared_size s).

Definition with_shared_size (v : Z) (s : machine) : machine :=
  Machine (phys s) (cr0 s) (cr2 s) (cr3 s) (console s) (stores s)
    (current_page_table s) (paging_enabled s) (kernel_mem_pool s)
    (process_mem_pool s) v.

(** The machine at reset, before [init_paging]: the static members hold
    their initialisers of lines 7-11, paging is off, and memory holds
    whatever [m] says (an address absent from [m] reads as 0). *)
Definition reset (m : gmap Z Z) : machine :=
  Machine m 0 0 0 [] [] None 0 None None 0.

(** ** Running code: a state monad with two ways to stop early *)

(** [Ret]: the code ran to its end (or to a [return]). [PageFault va]: a
    word access at [va] found no translation, that is, the code faulted
    again while it ran. [NullDeref]: a frame pool was used before
    [init_paging] set it. *)
Inductive outcome (A : Type) : Type :=
| Ret (a : A) (s : machine)
| PageFault (va : Z) (s : machine)
| NullDeref (s : machine).
Arguments Ret {A} a s.
Arguments PageFault {A} va s.
Arguments NullDeref {A} s.

Definition M (A : Type) : Type := machine → outcome A.

Definition ret {A} (a : A) : M A := fun s => Ret a s.

Definition bind {A B} (c : M A) (k : A → M B) : M B :=
  fun s =>
    match c s with
    | Ret a s' => k a s'
    | PageFault va s' => PageFault va s'
    | NullDeref s' => NullDeref s'
    end.

#[export] Instance M_ret : MRet M := @ret.
#[export] Instance M_bind : MBind M := fun A B k c => bind c k.

(** The machine an outcome stopped in, whatever the way it stopped. *)
Definition final {A} (o : outcome A) : machine :=
  match o with
  | Ret _ s => s
  | PageFault _ s => s
  | NullDeref s => s
  end.

Definition returns {A} (o : outcome A) : Prop :=
  match o with Ret _ _ => True | _ => False end.

(** ** The memory-management unit *)

Definition read_phys (m : gmap Z Z) (a : Z) : Z := default 0 (m !! a).

(** Bit 0 of a directory or table entry. *)
Definition present (e : Z) : bool := negb (Z.land e 1 =? 0).
(** Bit 1 and bit 2. *)
Definition writable (e : Z) : bool := negb (Z.land e 2 =? 0).
Definition user_mode (e : Z) : bool := negb (Z.land e 4 =? 0).
(** Bits 12-31: the physical address of the frame an entry names. *)
Definition entry_frame_address (e : Z) : Z := Z.land e 0xFFFFF000.

Definition dir_index (va : Z) : Z := Z.land (Z.shiftr va 22) 0x3FF.
Definition tbl_index (va : Z) : Z := Z.land (Z.shiftr va 12) 0x3FF.
Definition page_offset (va : Z) : Z := Z.land va 0xFFF.

(** Modelled from the spec: the hardware walk of the two-level structure
    (section 3, Faulting Address, and section 6, Entry bit layout): the
    directory entry at the directory index, then the table entry at the
    table index, both of which must be present. *)
Definition walk (m : gmap Z Z) (root va : Z) : option Z :=
  let pde := read_phys m (entry_frame_address root + 4 * dir_index va) in
  if present pde then
    let pte := read_phys m (entry_frame_address pde + 4 * tbl_index va) in
    if present pte then Some (entry_frame_address pte + page_offset va)
    else None
  else None.

Definition paging_on (s : machine) : bool := Z.testbit (cr0 s) 31.

Definition translate (s : machine) (va : Z) : option Z :=
  if paging_on s then walk (phys s) (cr3 s) va else Some va.

(** [p[i]] for [unsigned long *p]: the address of the word. *)
Definition index (p i : Z) : Z := wrap32 (p + 4 * i).

Definition load_word (va : Z) : M Z :=
  fun s =>
    match translate s va with
    | Some pa => Ret (read_phys (phys s) pa) s
    | None => PageFault va s
    end.

Definition store_word (va v : Z) : M unit :=
  fun s =>
    match translate s va with
    | Some pa => Ret tt (with_store (Access va pa v) s)
    | None => PageFault va s
    end.

(** ** The external calls *)

Definition puts (msg : string) : M unit :=
  fun s => Ret tt (with_output (Puts msg) s).

Definition putui (n : Z) : M unit :=
  fun s => Ret tt (with_output (Putui n) s).

Definition read_cr0 : M Z := fun s => Ret (cr0 s) s.
Definition read_cr2 : M Z := fun s => Ret (cr2 s) s.
Definition write_cr0 (v : Z) : M unit := fun s => Ret tt (with_cr0 v s).
Definition write_cr3 (v : Z) : M unit := fun s => Ret tt (with_cr3 v s).

(** [kernel_mem_pool->get_frames(n)] and [process_mem_pool->get_frames(n)]. *)
Definition kernel_get_frames (n : Z) : M Z :=
  fun s =>
    match kernel_mem_pool s with
    | None => NullDeref s
    | Some p => let '(f, p') := get_frames p n in
                Ret f (with_kernel_pool (Some p') s)
    end.

Definition process_get_frames (n : Z) : M Z :=
  fun s =>
    match process_mem_pool s with
    | None => NullDeref s
    | Some p => let '(f, p') := get_frames p n in
                Ret f (with_process_pool (Some p') s)
    end.

(** [for (int i = lo; i < lo + n; ++i) body(i)], and the same loop when it
    also updates a local variable of type [A]. *)
Fixpoint for_loop (n : nat) (i : Z) (body : Z → M unit) : M unit :=
  match n with
  | O => ret tt
  | S n' => body i;; for_loop n' (i + 1) body
  end.

Fixpoint for_loop_var {A} (n : nat) (i : Z) (body : Z → A → M A) (a : A) : M A :=
  match n with
  | O => ret a
  | S n' => a' ← body i a; for_loop_var n' (i + 1) body a'
  end.

(** ** The code of [page_table.C] *)

Definition init_paging (_kernel_mem_pool _process_mem_pool : ContFramePool)
    (_shared_size : Z) : M unit :=
  (fun s => Ret tt (with_kernel_pool (Some _kernel_mem_pool) s));;
  (fun s => Ret tt (with_process_pool (Some _process_mem_pool) s));;
  (fun s => Ret tt (with_shared_size _shared_size s));;
  puts "Initialized Paging System\n".

(** The constructor; it returns the object it built. *)
Definition PageTable_new : M PageTable :=
  page_directory_frame ← kernel_get_frames 1;
  let page_directory_address := wrap32 (page_directory_frame * PAGE_SIZE) in
  let this := {| page_directory := page_directory_address |} in
  for_loop (Z.to_nat ENTRIES_PER_PAGE) 0
    (fun i => store_word (index (page_directory this) i) 0);;
  first_page_table_frame ← kernel_get_frames 1;
  if first_page_table_frame =? 0 then
    puts "Failed to allocate first page table\n";;
    ret this
  else
    let first_page_table_address := wrap32 (first_page_table_frame * PAGE_SIZE) in
    let first_page_table := first_page_table_address in
    for_loop_var 1024 0
      (fun i address =>
         store_word (index first_page_table i) (Z.lor address 0x3);;
         ret (wrap32 (address + PAGE_SIZE)))
      0;;
    store_word (index (page_directory this) 0) (Z.lor first_page_table_address 0x3);;
    for_loop 1023 1
      (fun i => store_word (index (page_directory this) i) 0x2);;
    store_word (index (page_directory this) (ENTRIES_PER_PAGE - 1))
      (Z.lor page_directory_address 0x3);;
    puts "Page directory with 4MB direct-mapped allocated\n";;
    ret this.

Definition load (this : PageTable) : M unit :=
  if page_directory this =? 0 then
    puts "Error: Page directory not set\n"
  else
    write_cr3 (page_directory this);;
    (fun s => Ret tt (with_current (Some this) s));;
    puts "Loaded page table\n".

Definition enable_paging : M unit :=
  c ← read_cr0;
  write_cr0 (Z.lor c 0x80000000);;
  (fun s => Ret tt (with_enabled 1 s));;
  puts "Enabled paging\n".

(** [REGS] is declared elsewhere; the handler never looks into it. *)
Definition handle_fault {REGS : Type} (_r : REGS) : M unit :=
  fun s0 =>
  match current_page_table s0 with
  | None => puts "Error: No current page table loaded\n" s0
  | Some cpt =>
    (faulting_address ← read_cr2;
     let pd_index := Z.land (Z.shiftr faulting_address 22) 0x3FF in
     let pt_index := Z.land (Z.shiftr faulting_address 12) 0x3FF in
     puts "Page fault at address: ";;
     putui faulting_address;;
     puts "PDE: ";;
     putui pd_index;;
     puts "PTE: ";;
     putui pt_index;;
     puts "\n";;
     page_directory_entry ← load_word (index (page_directory cpt) pd_index);
     puts "Page directory entry for fault: ";;
     putui page_directory_entry;;
     puts "\n";;
     if Z.land page_directory_entry 0x1 =? 0 then
       puts "Allocating new page table\n";;
       new_page_table_frame ← kernel_get_frames 1;
       if new_page_table_frame =? 0 then
         puts "Failed to allocate new page table\n"
       else
         let new_page_table_address := wrap32 (new_page_table_frame * PAGE_SIZE) in
         store_word (index (page_directory cpt) pd_index)
           (Z.lor new_page_table_address 0x3);;
         puts "New page table allocated at address: ";;
         putui new_page_table_address;;
         puts "\n";;
         let new_page_table := Z.lor 0xFFC00000 (wrap32 (Z.shiftl pd_index 12)) in
         for_loop (Z.to_nat ENTRIES_PER_PAGE) 0
           (fun i => store_word (index new_page_table i) 0);;
         entry_frame ← process_get_frames 1;
         let frame_address := wrap32 (PAGE_SIZE * entry_frame) in
         puts "Page table entry before update: ";;
         before ← load_word (index new_page_table pt_index);
         putui before;;
         puts "\n";;
         store_word (index new_page_table pt_index) (Z.lor frame_address 0x3);;
         puts "Page table entry after update: ";;
         after ← load_word (index new_page_table pt_index);
         putui after;;
         puts "\n";;
         puts "Page fault handled\n "
     else
       pde_again ← load_word (index (page_directory cpt) pd_index);
       let page_table := Z.land pde_again (wrap32 (Z.lnot 0xFFF)) in
       page_table_entry ← load_word (index page_table pt_index);
       puts "Page table entry for fault: ";;
       putui page_table_entry;;
       puts "\n";;
       (if Z.land page_table_entry 0x1 =? 0 then
          puts "Allocating new frame for the page\n";;
          new_frame ← process_get_frames 1;
          if new_frame =? 0 then
            puts "Failed to allocate new frame\n"
          else
            let new_frame_address := wrap32 (new_frame * PAGE_SIZE) in
            store_word (index page_table pt_index) (Z.lor new_frame_address 0x3);;
            puts "New frame allocated at address: ";;
            putui new_frame_address;;
            puts "\n";;
            puts "Page fault handled successfully\n"
        else
          puts "Page fault handled successfully\n")) s0
  end.

(** * Definitions used to state the properties *)

(** ** Addresses *)

(** A 32-bit address on a 4 KiB boundary. *)
Definition aligned (a : Z) : Prop := 0 ≤ a < 2 ^ 32 ∧ a mod 4096 = 0.

(** The physical address the code computes for the frame number a pool
    answered: [get_frames] first, [frame * PAGE_SIZE] next. *)
Definition frame_address (f : Z) : Z := wrap32 (wrap32 f * PAGE_SIZE).

(** The pointer [0xFFC00000 | (pd_index << 12)] of line 157. *)
Definition window (pd_index : Z) : Z :=
  Z.lor 0xFFC00000 (wrap32 (Z.shiftl pd_index 12)).

(** [a] lies in the frame that starts at [q]. *)
Definition in_page (q a : Z) : Prop := q ≤ a < q + 4096.

(** ** Machines after several outputs or stores *)

Definition with_outputs (os : list output) (s : machine) : machine :=
  Machine (phys s) (cr0 s) (cr2 s) (cr3 s) (console s ++ os) (stores s)
    (current_page_table s) (paging_enabled s) (kernel_mem_pool s)
    (process_mem_pool s) (shared_size s).

Definition write_all (accs : list access) (m : gmap Z Z) : gmap Z Z :=
  fold_left (fun m a => <[acc_pa a := acc_val a]> m) accs m.

Definition store_all (accs : list access) (s : machine) : machine :=
  Machine (write_all accs (phys s)) (cr0 s) (cr2 s) (cr3 s)
    (console s) (stores s ++ accs) (current_page_table s) (paging_enabled s)
    (kernel_mem_pool s) (process_mem_pool s) (shared_size s).

(** The stores of [for (i = lo; i < lo + n; ++i) vb[i] = val i] when the
    page at virtual address [vb] is the frame at [q]. *)
Fixpoint page_stores (n : nat) (i : Z) (vb q : Z) (val : Z → Z) : list access :=
  match n with
  | O => []
  | S n' => Access (index vb i) (q + 4 * i) (val i) :: page_stores n' (i + 1) vb q val
  end.

(** The page at [vb] is mapped to the frame at [q], and stays so whatever
    is stored into that frame. *)
Definition maps_page (s : machine) (vb q : Z) : Prop :=
  ∀ s', cr0 s' = cr0 s → cr3 s' = cr3 s →
    (∀ a, ¬ in_page q a → read_phys (phys s') a = read_phys (phys s) a) →
    ∀ i, 0 ≤ i < 1024 → translate s' (index vb i) = Some (q + 4 * i).

(** ** What the handler and the constructor print and store *)

(** Lines 119-125. *)
Definition fault_header (a : Z) : list output :=
  [Puts "Page fault at address: "; Putui a; Puts "PDE: "; Putui (dir_index a);
   Puts "PTE: "; Putui (tbl_index a); Puts "\n"].

(** The stores of a resolved directory miss: the directory entry, the
    1024 words of the new table [n] through the window, the table entry. *)
Definition miss_stores (d pd pt n f : Z) : list access :=
  page_stores 1 pd d d (fun _ => Z.lor n 3)
  ++ page_stores 1024 0 (window pd) n (fun _ => 0)
  ++ page_stores 1 pt (window pd) n (fun _ => Z.lor f 3).

(** The stores of a successful construction with paging off: lines 40-42,
    59-62, 65, 68-70 and 73. *)
Definition built (d t0 : Z) : list access :=
  page_stores 1024 0 d d (fun _ => 0)
  ++ page_stores 1024 0 t0 t0 (fun i => Z.lor (i * PAGE_SIZE) 3)
  ++ page_stores 1 0 d d (fun _ => Z.lor t0 3)
  ++ page_stores 1023 1 d d (fun _ => 2)
  ++ page_stores 1 1023 d d (fun _ => Z.lor d 3).

(** ** States in which a fault can be resolved *)

(** The table whose directory is at [d] is the active one: paging is on,
    [cr3] names the directory, its last slot names the directory as well,
    and the directory can be reached at its own address. *)
Record active (d : Z) (s : machine) : Prop := {
  act_paging : paging_on s = true;
  act_current : current_page_table s = Some {| page_directory := d |};
  act_cr3 : cr3 s = d;
  act_aligned : aligned d;
  act_recursive : read_phys (phys s) (d + 4 * 1023) = Z.lor d 3;
  act_identity : ∀ i, 0 ≤ i < 1024 → translate s (d + 4 * i) = Some (d + 4 * i)
}.

(** A frame number the kernel pool may answer once the directory is at
    [d] and the first table at [t0]: the failure sentinel, or a frame that
    is neither of the two. *)
Definition fresh (d t0 f : Z) : Prop :=
  wrap32 f = 0 ∨ (frame_address f ≠ d ∧ frame_address f ≠ t0).

(** What construction and activation establish: the directory at [d] lies
    in the first 4 MiB, its slot 0 names the first table [t0], which maps
    the first 4 MiB onto themselves, its last slot names the directory, and
    both pools have been set. *)
Record paging_inv (d t0 : Z) (s : machine) : Prop := {
  inv_paging : paging_on s = true;
  inv_current : current_page_table s = Some {| page_directory := d |};
  inv_cr3 : cr3 s = d;
  inv_dir : aligned d;
  inv_low : d < 2 ^ 22;
  inv_table : aligned t0;
  inv_distinct : t0 ≠ d;
  inv_slot0 : read_phys (phys s) d = Z.lor t0 3;
  inv_identity : ∀ i, 0 ≤ i < 1024 →
    read_phys (phys s) (t0 + 4 * i) = Z.lor (i * PAGE_SIZE) 3;
  inv_recursive : read_phys (phys s) (d + 4 * 1023) = Z.lor d 3;
  inv_kernel : ∃ kp, kernel_mem_pool s = Some kp;
  inv_process : ∃ pp, process_mem_pool s = Some pp
}.

Definition pool_contract (d t0 : Z) (s : machine) : Prop :=
  ∀ kp, kernel_mem_pool s = Some kp → Forall (fresh d t0) kp.

(** Modelled from the spec: the boot sequence of section 2 (the kernel's
    start-up code is not part of the sources): initialise once, construct a
    table, load it, enable paging. *)
Definition bring_up (kp pp : ContFramePool) (sz : Z) : M PageTable :=
  init_paging kp pp sz;;
  pt ← PageTable_new;
  load pt;;
  enable_paging;;
  mret pt.

(** Modelled from the spec: the trap dispatcher of section 2 (not part of
    the sources). For each fault the processor puts the faulting address
    into [cr2] and the dispatcher calls the handler with the saved
    registers; the next fault finds the machine as this one left it. *)
Fixpoint faults {REGS : Type} (l : list (REGS * Z)) (s : machine) : machine :=
  match l with
  | [] => s
  | (r, a) :: l' => faults l' (final (handle_fault r (with_cr2 a s)))
  end.

(** The handler's last message says the fault was handled. *)
Definition handled (s : machine) : Prop :=
  last (console s) = Some (Puts "Page fault handled\n ")
  ∨ last (console s) = Some (Puts "Page fault handled successfully\n").

(** ** The bit convention of entries *)

(** Never user-accessible, and writable whenever present. *)
Definition entry_convention (v : Z) : Prop :=
  user_mode v = false ∧ (present v = true → writable v = true).

(** ** Traces *)

(** From [s] to [s'] the console and the list of stores have only grown,
    and every value stored since satisfies [ok]. *)
Definition extends (ok : Z → Prop) (s s' : machine) : Prop :=
  ∃ os accs, console s' = (console s ++ os)%list
             ∧ stores s' = (stores s ++ accs)%list
             ∧ Forall (fun a => ok (acc_val a)) accs.

(** A command that only ever extends the traces, from every state and
    however it ends, and whose result satisfies [P] when it returns. *)
Definition orderly {A} (ok : Z → Prop) (P : A → Prop) (c : M A) : Prop :=
  ∀ s, extends ok s (final (c s)) ∧ ∀ a s', c s = Ret a s' → P a.

(** ** What a run may take and what it leaves alone *)

(** The registers and the static members other than the two pools. *)
Definition control (s : machine) : Z * Z * Z * option PageTable * Z * Z :=
  (cr0 s, cr2 s, cr3 s, current_page_table s, paging_enabled s, shared_size s).

(** From [s] to [s'] the registers and the static members are as they
    were, the kernel pool has answered at most [nk] requests and the
    process pool at most [np]; a pool that was not set is still not set. *)
Definition takes (nk np : nat) (s s' : machine) : Prop :=
  control s' = control s
  ∧ (∃ k, (k ≤ nk)%nat ∧ kernel_mem_pool s' = drop k <$> kernel_mem_pool s)
  ∧ (∃ k, (k ≤ np)%nat ∧ process_mem_pool s' = drop k <$> process_mem_pool s).

(** A command within that budget from every state and however it ends. *)
Definition budget {A} (nk np : nat) (c : M A) : Prop :=
  ∀ s, takes nk np s (final (c s)).

(** ** Commands that do not look at a part of the state *)

Definition outcome_map {A} (f : machine → machine) (o : outcome A) : outcome A :=
  match o with
  | Ret a s => Ret a (f s)
  | PageFault va s => PageFault va (f s)
  | NullDeref s => NullDeref (f s)
  end.

(** Running [c] after the change [f] of the state is running [c] and
    changing the state it stopped in. *)
Definition ignores {A} (f : machine → machine) (c : M A) : Prop :=
  ∀ s, c (f s) = outcome_map f (c s).

(** ** The active table and [cr3] *)

(** [cr3] names the directory of the active table, and that directory is
    not the null pointer. *)
Definition coherent (s : machine) : Prop :=
  ∀ cpt, current_page_table s = Some cpt →
    cr3 s = page_directory cpt ∧ page_directory cpt ≠ 0.

(** ** Frames that are still free *)

(** The addresses of the frames a kernel pool will still hand out: its
    answers other than the failure sentinel, as the code turns them into
    addresses. *)
Definition pool_addresses (kp : list Z) : list Z :=
  frame_address <$> filter (fun f => wrap32 f ≠ 0) kp.

(** The frame at [n] is not the table of any present entry of the
    directory at [d], and the process pool [pp] will not hand it out. *)
Definition free_frame (d : Z) (s : machine) (pp : ContFramePool) (n : Z) : Prop :=
  (∀ i, 0 ≤ i < 1024 →
     present (read_phys (phys s) (d + 4 * i)) = true →
     entry_frame_address (read_phys (phys s) (d + 4 * i)) ≠ n)
  ∧ Forall (fun f => frame_address f ≠ n) pp.

(** Both pools are set, and the kernel pool hands out no frame twice and
    only free frames. *)
Definition unused_frames (d : Z) (s : machine) : Prop :=
  ∃ kp pp, kernel_mem_pool s = Some kp ∧ process_mem_pool s = Some pp
    ∧ NoDup (pool_addresses kp)
    ∧ Forall (free_frame d s pp) (pool_addresses kp).

(** ** A machine to run the code on *)

(** Empty memory, a kernel pool that will answer 1, 2, 3, 4 and a process
    pool that will answer 1024, 1025: the directory goes to 0x1000 and the
    first table to 0x2000. *)
Definition sample_boot : machine :=
  final (bring_up [1; 2; 3; 4] [1024; 1025] 0 (reset ∅)).

(** A fault at 0x00801234: directory index 2, table index 1. *)
Definition sample_fault : machine := with_cr2 0x00801234 sample_boot.

(** A kernel pool whose third answer, frame 2000 at 0x7D0000, lies above
    the 4 MiB that the first table maps, after the boot sequence and with
    a fault at 0x00801234 pending. *)
Definition sample_high : machine :=
  with_cr2 0x00801234 (final (bring_up [1; 2; 2000] [1024; 1025] 0 (reset ∅))).

(** * Arithmetic of addresses and entries *)

Ltac zdiv := Z.div_mod_to_equations; lia.

Lemma dir_index_spec va : dir_index va = (va / 4194304) mod 1024.
Proof.
  unfold dir_index. rewrite Z.shiftr_div_pow2 by lia.
  change 0x3FF with (Z.ones 10). rewrite Z.land_ones by lia. reflexivity.
Qed.

Lemma tbl_index_spec va : tbl_index va = (va / 4096) mod 1024.
Proof.
  unfold tbl_index. rewrite Z.shiftr_div_pow2 by lia.
  change 0x3FF with (Z.ones 10). rewrite Z.land_ones by lia. reflexivity.
Qed.

Lemma page_offset_spec va : page_offset va = va mod 4096.
Proof.
  unfold page_offset. change 0xFFF with (Z.ones 12).
  rewrite Z.land_ones by lia. reflexivity.
Qed.

Lemma entry_frame_address_spec e :
  entry_frame_address e = 4096 * ((e / 4096) mod 1048576).
Proof.
  unfold entry_frame_address.
  change 0xFFFFF000 with (Z.shiftl (Z.ones 20) 12).
  change 4096 with (2 ^ 12). change 1048576 with (2 ^ 20).
  rewrite <- Z.shiftr_div_pow2, <- Z.land_ones by lia.
  rewrite Z.mul_comm, <- Z.shiftl_mul_pow2 by lia.
  apply Z.bits_inj'. intros n Hn.
  rewrite Z.land_spec, !Z.shiftl_spec by lia.
  destruct (Z.lt_ge_cases n 12) as [Hlt | Hge].
  - rewrite !(Z.testbit_neg_r _ (n - 12)) by lia. apply andb_false_r.
  - rewrite Z.land_spec, Z.shiftr_spec by lia.
    replace (n - 12 + 12) with n by lia. reflexivity.
Qed.

Lemma land_1_spec e : Z.land e 1 = e mod 2.
Proof. change 1 with (Z.ones 1). rewrite Z.land_ones by lia. reflexivity. Qed.

Lemma lor_3_aligned a : a mod 4096 = 0 → Z.lor a 3 = a + 3.
Proof.
  intros Ha. pose proof (Z.add_lor_land a 3) as Hadd.
  assert (Z.land a 3 = 0) as Hz.
  { change 3 with (Z.ones 2). rewrite Z.land_ones by lia.
    change (2 ^ 2) with 4. zdiv. }
  lia.
Qed.

Lemma aligned_frame f : aligned (wrap32 (f * PAGE_SIZE)).
Proof. unfold aligned, wrap32, PAGE_SIZE. change (2^32) with 4294967296. zdiv. Qed.

Lemma index_aligned p i : aligned p → 0 ≤ i < 1024 → index p i = p + 4 * i.
Proof. unfold aligned, index, wrap32. change (2^32) with 4294967296. intros [? ?] ?. zdiv. Qed.

Lemma efa_lor3 a : aligned a → entry_frame_address (Z.lor a 3) = a.
Proof.
  intros [? ?]. rewrite lor_3_aligned by done. rewrite entry_frame_address_spec.
  change (2^32) with 4294967296 in *. zdiv.
Qed.

Lemma efa_aligned a : aligned a → entry_frame_address a = a.
Proof.
  intros [? ?]. rewrite entry_frame_address_spec.
  change (2^32) with 4294967296 in *. zdiv.
Qed.

Lemma efa_is_aligned e : aligned (entry_frame_address e).
Proof. rewrite entry_frame_address_spec. unfold aligned. change (2^32) with 4294967296 in *. zdiv. Qed.

Lemma present_lor3 a : a mod 4096 = 0 -> present (Z.lor a 3) = true.
Proof.
  intros. unfold present. rewrite lor_3_aligned, land_1_spec by done.
  apply negb_true_iff, Z.eqb_neq. zdiv.
Qed.

(** * Memory and stores *)

Lemma read_insert m a v x :
  read_phys (<[a:=v]> m) x = if decide (a = x) then v else read_phys m x.
Proof. unfold read_phys. rewrite lookup_insert. by case_decide. Qed.

Lemma read_insert_eq m a v : read_phys (<[a:=v]> m) a = v.
Proof. rewrite read_insert. by case_decide. Qed.

Lemma read_insert_ne m a v x : a ≠ x → read_phys (<[a:=v]> m) x = read_phys m x.
Proof. intros. rewrite read_insert. by case_decide. Qed.

Lemma read_write_all_outside accs : ∀ m x,
  Forall (fun a => acc_pa a ≠ x) accs →
  read_phys (write_all accs m) x = read_phys m x.
Proof.
  induction accs as [|a accs IH]; intros m x Hall; [done|].
  inversion Hall; subst. cbn. rewrite IH by done. by apply read_insert_ne.
Qed.

Lemma page_stores_in_page n : ∀ i vb q val,
  0 ≤ i → i + Z.of_nat n ≤ 1024 →
  Forall (fun a => in_page q (acc_pa a)) (page_stores n i vb q val).
Proof.
  induction n as [|n IH]; intros i vb q val Hi Hn; cbn; constructor.
  - cbn. unfold in_page. lia.
  - apply IH; lia.
Qed.

Lemma page_stores_above n : ∀ i vb q val x,
  x < q + 4 * i →
  Forall (fun a => acc_pa a ≠ x) (page_stores n i vb q val).
Proof.
  induction n as [|n IH]; intros i vb q val x Hx; cbn; constructor.
  - cbn. lia.
  - apply IH. lia.
Qed.

Lemma read_page_stores n : ∀ i vb q val m j,
  i ≤ j < i + Z.of_nat n →
  read_phys (write_all (page_stores n i vb q val) m) (q + 4 * j) = val j.
Proof.
  induction n as [|n IH]; intros i vb q val m j Hj; [lia|].
  cbn. destruct (decide (j = i)) as [->|Hne].
  - rewrite read_write_all_outside by (apply page_stores_above; lia).
    apply read_insert_eq.
  - apply IH. lia.
Qed.

Lemma read_outside_page accs m q x :
  Forall (fun a => in_page q (acc_pa a)) accs → ¬ in_page q x →
  read_phys (write_all accs m) x = read_phys m x.
Proof.
  intros Hall Hx. apply read_write_all_outside.
  eapply Forall_impl; [exact Hall|]. cbn. intros a Ha Heq. apply Hx. by rewrite <- Heq.
Qed.

Lemma store_all_nil s : store_all [] s = s.
Proof. destruct s. unfold store_all. cbn. by rewrite app_nil_r. Qed.

Lemma store_all_cons a accs s :
  store_all accs (with_store a s) = store_all (a :: accs) s.
Proof. unfold store_all, with_store. cbn. by rewrite <- app_assoc. Qed.

Lemma write_all_app l1 l2 m : write_all (l1 ++ l2) m = write_all l2 (write_all l1 m).
Proof. apply fold_left_app. Qed.

(** * The walk *)

Lemma translate_ext s s' va :
  phys s' = phys s → cr0 s' = cr0 s → cr3 s' = cr3 s →
  translate s' va = translate s va.
Proof. unfold translate, paging_on. by intros -> -> ->. Qed.

(** A walk that succeeds reads present entries only: storing into an absent
    word cannot change it. *)
Lemma walk_insert_absent m root va pa a v :
  present (read_phys m a) = false →
  walk m root va = Some pa → walk (<[a:=v]> m) root va = Some pa.
Proof.
  unfold walk. intros Ha.
  destruct (present (read_phys m (entry_frame_address root + 4 * dir_index va))) eqn:H1; [|done].
  destruct (present (read_phys m (entry_frame_address
     (read_phys m (entry_frame_address root + 4 * dir_index va)) + 4 * tbl_index va))) eqn:H2; [|done].
  intros Hpa.
  rewrite (read_insert_ne m a v (entry_frame_address root + 4 * dir_index va)) by congruence.
  rewrite H1.
  rewrite read_insert_ne by congruence.
  by rewrite H2.
Qed.

Lemma maps_page_mono s s' vb q :
  maps_page s vb q → cr0 s' = cr0 s → cr3 s' = cr3 s →
  (∀ a, ¬ in_page q a → read_phys (phys s') a = read_phys (phys s) a) →
  maps_page s' vb q.
Proof.
  intros Hs H0 H3 Hm s'' H0' H3' Hm'. apply Hs; [congruence..|].
  intros a Ha. rewrite Hm', Hm; done.
Qed.

Lemma maps_page_self s vb q i :
  maps_page s vb q → 0 ≤ i < 1024 → translate s (index vb i) = Some (q + 4 * i).
Proof. intros H. by apply H. Qed.

Lemma maps_page_off s q : paging_on s = false → aligned q → maps_page s q q.
Proof.
  intros Hoff Hq s' H0 H3 Hm i Hi. unfold translate, paging_on in *.
  rewrite H0, Hoff. by rewrite index_aligned.
Qed.

Lemma index_fields vb i :
  aligned vb → 0 ≤ i < 1024 →
  dir_index (index vb i) = dir_index vb ∧ tbl_index (index vb i) = tbl_index vb
  ∧ page_offset (index vb i) = 4 * i.
Proof.
  intros Hvb Hi. rewrite index_aligned by done. destruct Hvb as [Hr Hm].
  rewrite !dir_index_spec, !tbl_index_spec, page_offset_spec.
  change (2^32) with 4294967296 in *. repeat split; zdiv.
Qed.

Lemma maps_page_walk s vb q :
  paging_on s = true → aligned vb →
  let a1 := entry_frame_address (cr3 s) + 4 * dir_index vb in
  let pde := read_phys (phys s) a1 in
  let a2 := entry_frame_address pde + 4 * tbl_index vb in
  let pte := read_phys (phys s) a2 in
  present pde = true → present pte = true → entry_frame_address pte = q →
  ¬ in_page q a1 → ¬ in_page q a2 →
  maps_page s vb q.
Proof.
  intros Hon Hvb a1 pde a2 pte Hpde Hpte Hq Ha1 Ha2 s' H0 H3 Hm i Hi.
  unfold translate, paging_on in *. rewrite H0, Hon. unfold walk.
  destruct (index_fields vb i Hvb Hi) as (-> & -> & ->).
  rewrite H3. fold a1. rewrite (Hm a1 Ha1). fold pde. rewrite Hpde.
  fold a2. rewrite (Hm a2 Ha2). fold pte. rewrite Hpte. by rewrite Hq.
Qed.

(** * Running single steps and loops *)

Lemma run_store s va pa v :
  translate s va = Some pa → store_word va v s = Ret tt (with_store (Access va pa v) s).
Proof. unfold store_word. by intros ->. Qed.

Lemma run_load s va pa :
  translate s va = Some pa → load_word va s = Ret (read_phys (phys s) pa) s.
Proof. unfold load_word. by intros ->. Qed.

(** A loop of stores into one mapped page does all its stores. *)
Lemma for_loop_store n : ∀ i s vb q val,
  maps_page s vb q → 0 ≤ i → i + Z.of_nat n ≤ 1024 →
  for_loop n i (fun j => store_word (index vb j) (val j)) s
  = Ret tt (store_all (page_stores n i vb q val) s).
Proof.
  induction n as [|n IH]; intros i s vb q val Hmap Hi Hn.
  - cbn. by rewrite store_all_nil.
  - cbn [for_loop page_stores]. unfold mbind, M_bind, bind.
    rewrite (run_store s _ (q + 4 * i)) by (apply maps_page_self; [done|lia]).
    rewrite (IH _ _ vb q val); [by rewrite store_all_cons| |lia|lia].
    eapply maps_page_mono; [exact Hmap|done..|].
    intros a Ha. cbn. apply read_insert_ne. unfold in_page in Ha. lia.
Qed.

Lemma for_loop_var_store n : ∀ i s vb q val a0,
  maps_page s vb q → 0 ≤ i → i + Z.of_nat n ≤ 1024 →
  0 ≤ a0 → a0 + 4096 * Z.of_nat n < 2 ^ 32 →
  (∀ j, i ≤ j < i + Z.of_nat n → val j = Z.lor (a0 + 4096 * (j - i)) 0x3) →
  for_loop_var n i
    (fun j address =>
       store_word (index vb j) (Z.lor address 0x3);;
       mret (wrap32 (address + PAGE_SIZE))) a0 s
  = Ret (a0 + 4096 * Z.of_nat n) (store_all (page_stores n i vb q val) s).
Proof.
  induction n as [|n IH]; intros i s vb q val a0 Hmap Hi Hn Ha0 Hmax Hval.
  - cbn. rewrite store_all_nil. unfold mret, M_ret, ret. f_equal. lia.
  - cbn [for_loop_var page_stores]. unfold mbind, M_bind, bind.
    rewrite (run_store s _ (q + 4 * i)) by (apply maps_page_self; [done|lia]).
    unfold mret, M_ret, ret.
    assert (wrap32 (a0 + PAGE_SIZE) = a0 + 4096) as ->.
    { unfold wrap32, PAGE_SIZE. rewrite Z.mod_small; lia. }
    rewrite (IH _ _ vb q val); [| |lia|lia|lia|lia|].
    + rewrite store_all_cons, (Hval i) by lia.
      replace (a0 + 4096 * (i - i)) with a0 by lia. f_equal. lia.
    + eapply maps_page_mono; [exact Hmap|done..|].
      intros a Ha. cbn. apply read_insert_ne. unfold in_page in Ha. lia.
    + intros j Hj. rewrite Hval by lia. f_equal. lia.
Qed.

Lemma run_bind {A B} (c : M A) (k : A → M B) s a s' :
  c s = Ret a s' → bind c k s = k a s'.
Proof. unfold bind. by intros ->. Qed.

Lemma run_bind_fault {A B} (c : M A) (k : A → M B) s va s' :
  c s = PageFault va s' → bind c k s = PageFault va s'.
Proof. unfold bind. by intros ->. Qed.

Lemma run_store_page s vb q i v :
  maps_page s vb q → 0 ≤ i < 1024 →
  store_word (index vb i) v s = Ret tt (store_all (page_stores 1 i vb q (fun _ => v)) s).
Proof.
  intros Hm Hi. rewrite (run_store s _ (q + 4 * i)) by (by apply Hm).
  cbn [page_stores]. by rewrite <- store_all_cons, store_all_nil.
Qed.

Lemma index_range_bits x : 0 ≤ Z.land x 0x3FF < 1024.
Proof.
  change 0x3FF with (Z.ones 10). rewrite Z.land_ones by lia.
  change (2 ^ 10) with 1024. zdiv.
Qed.

Lemma dir_index_range va : 0 ≤ dir_index va < 1024.
Proof. apply index_range_bits. Qed.

Lemma tbl_index_range va : 0 ≤ tbl_index va < 1024.
Proof. apply index_range_bits. Qed.

Lemma window_spec pd : 0 ≤ pd < 1024 → window pd = 4290772992 + 4096 * pd.
Proof.
  intros Hpd. unfold window. rewrite Z.shiftl_mul_pow2 by lia.
  change (2 ^ 12) with 4096.
  assert (wrap32 (pd * 4096) = 4096 * pd) as ->.
  { unfold wrap32. rewrite Z.mod_small; lia. }
  pose proof (Z.add_lor_land 4290772992 (4096 * pd)) as Hadd.
  assert (Z.land 4290772992 (4096 * pd) = 0) as Hz; [|lia].
  apply Z.bits_inj'. intros k Hk. rewrite Z.land_spec, Z.bits_0.
  destruct (Z.lt_ge_cases k 22) as [Hlt | Hge].
  - replace (Z.testbit 4290772992 k) with false; [done|].
    change 4290772992 with (Z.shiftl 1023 22).
    rewrite Z.shiftl_spec, Z.testbit_neg_r by lia. done.
  - replace (Z.testbit (4096 * pd) k) with false; [apply andb_false_r|].
    symmetry. apply Z.testbit_false; [lia|].
    rewrite Z.div_small; [done|]. split; [lia|].
    apply Z.lt_le_trans with (2 ^ 22); [lia|].
    apply Z.pow_le_mono_r; lia.
Qed.

Lemma window_aligned pd : 0 ≤ pd < 1024 → aligned (window pd).
Proof.
  intros Hpd. rewrite window_spec by done. unfold aligned.
  change (2^32) with 4294967296. zdiv.
Qed.

Lemma window_dir_index pd : 0 ≤ pd < 1024 → dir_index (window pd) = 1023.
Proof. intros. rewrite window_spec, dir_index_spec by done. zdiv. Qed.

Lemma window_tbl_index pd : 0 ≤ pd < 1024 → tbl_index (window pd) = pd.
Proof. intros. rewrite window_spec, tbl_index_spec by done. zdiv. Qed.

Lemma aligned_pages_disjoint p q a :
  aligned p → aligned q → p ≠ q → in_page p a → ¬ in_page q a.
Proof. unfold aligned, in_page. intros [? ?] [? ?] ? ? ?. zdiv. Qed.

Lemma frame_address_aligned f : aligned (frame_address f).
Proof. apply aligned_frame. Qed.

Ltac proj :=
  cbv beta delta [with_store with_cr0 with_cr2 with_cr3 with_output with_outputs with_current
       with_enabled with_kernel_pool with_process_pool with_shared_size
       store_all];
  cbn [phys cr0 cr2 cr3 console stores current_page_table paging_enabled
       kernel_mem_pool process_mem_pool shared_size page_directory
       acc_pa acc_val acc_va].

(** Bring the machine on the left of the goal to a record of its fields. *)
Ltac proj_left :=
  lazymatch goal with
  | |- ?l = ?r =>
      let l1 := eval cbv beta delta
        [with_store with_cr0 with_cr2 with_cr3 with_output with_outputs
         with_current with_enabled with_kernel_pool with_process_pool
         with_shared_size store_all] in l in
      let l2 := eval cbn
        [phys cr0 cr2 cr3 console stores current_page_table paging_enabled
         kernel_mem_pool process_mem_pool shared_size page_directory
         acc_pa acc_val acc_va] in l1 in
      change (l2 = r)
  end.

Ltac fields :=
  cbn [phys cr0 cr2 cr3 console stores current_page_table paging_enabled
       kernel_mem_pool process_mem_pool shared_size page_directory
       acc_pa acc_val acc_va
       with_store with_cr0 with_cr2 with_cr3 with_output with_outputs
       with_current with_enabled with_kernel_pool with_process_pool
       with_shared_size store_all].

Ltac unbind := try unfold mbind; try unfold mret; try unfold M_bind; try unfold M_ret.

Ltac step_by tac :=
  lazymatch goal with
  | |- bind ?c ?k ?s = _ =>
      let H := fresh "Hstep" in
      eassert (c s = Ret _ _) as H by tac;
      rewrite (run_bind c k s _ _ H); clear H; cbv beta; proj_left
  end.

Ltac step :=
  lazymatch goal with
  | |- bind (puts _) _ _ = _ => step_by ltac:(reflexivity)
  | |- bind (putui _) _ _ = _ => step_by ltac:(reflexivity)
  | |- bind read_cr0 _ _ = _ => step_by ltac:(reflexivity)
  | |- bind read_cr2 _ _ = _ => step_by ltac:(reflexivity)
  | |- bind (write_cr0 _) _ _ = _ => step_by ltac:(reflexivity)
  | |- bind (write_cr3 _) _ _ = _ => step_by ltac:(reflexivity)
  | |- bind (fun _ => Ret _ _) _ _ = _ => step_by ltac:(reflexivity)
  end.
Ltac steps := repeat step.

Ltac step_pool :=
  step_by ltac:(try unfold kernel_get_frames; try unfold process_get_frames;
                proj;
                repeat match goal with
                       | H : kernel_mem_pool _ = Some _ |- _ => rewrite H
                       | H : process_mem_pool _ = Some _ |- _ => rewrite H
                       | H : get_frames _ _ = _ |- _ => rewrite H
                       end;
                reflexivity).

Ltac fold_indices :=
  change (Z.land (Z.shiftr ?a 22) 0x3FF) with (dir_index a) in *;
  change (Z.land (Z.shiftr ?a 12) 0x3FF) with (tbl_index a) in *.

(** The state is changed only in the console and the pools: the walk is
    the same. *)
Ltac same_walk s := rewrite (translate_ext s) by reflexivity.

(** A translation through a page that [H] says is mapped, in a state
    that differs from the one of [H] by stores into that page only. *)
Ltac via_page H :=
  apply H;
  [ reflexivity | reflexivity
  | let x := fresh "x" in let Hx := fresh "Hx" in
    intros x Hx; proj;
    rewrite ?(fun l m Hl => read_outside_page l m _ x Hl Hx)
      by (apply page_stores_in_page; lia);
    reflexivity
  | lia ].

Ltac enter_handler Hcur :=
  unfold handle_fault; rewrite Hcur; unbind;
  step; cbv zeta; fold_indices; proj; steps.

Lemma present_test e : (Z.land e 0x1 =? 0) = negb (present e).
Proof. unfold present. by rewrite negb_involutive. Qed.

Lemma machine_eq s s' :
  phys s = phys s' → cr0 s = cr0 s' → cr2 s = cr2 s' → cr3 s = cr3 s' →
  console s = console s' → stores s = stores s' →
  current_page_table s = current_page_table s' →
  paging_enabled s = paging_enabled s' →
  kernel_mem_pool s = kernel_mem_pool s' →
  process_mem_pool s = process_mem_pool s' →
  shared_size s = shared_size s' →
  s = s'.
Proof. destruct s, s'. cbn. by intros -> -> -> -> -> -> -> -> -> -> ->. Qed.

Ltac same_state :=
  apply machine_eq; fields;
  rewrite ?write_all_app, <- ?app_assoc; reflexivity.

Lemma run_store_at s vb q i v :
  translate s (index vb i) = Some (q + 4 * i) →
  store_word (index vb i) v s = Ret tt (store_all (page_stores 1 i vb q (fun _ => v)) s).
Proof.
  intros Ht. rewrite (run_store s _ (q + 4 * i)) by done.
  cbn [page_stores]. by rewrite <- store_all_cons, store_all_nil.
Qed.

Lemma active_slot_absent s d pd :
  active d s → 0 ≤ pd < 1024 →
  present (read_phys (phys s) (d + 4 * pd)) = false → pd ≠ 1023.
Proof.
  intros Hact Hpd He ->. rewrite (act_recursive _ _ Hact) in He.
  rewrite present_lor3 in He; [done|]. apply (act_aligned _ _ Hact).
Qed.

(** Once the directory entry at [pd] names frame [n], the window of [pd]
    is mapped to [n] through the recursive slot. *)
Lemma window_maps s d pd n s1 :
  active d s → 0 ≤ pd < 1024 →
  present (read_phys (phys s) (d + 4 * pd)) = false →
  aligned n → n ≠ d →
  cr0 s1 = cr0 s → cr3 s1 = cr3 s →
  phys s1 = <[d + 4 * pd := Z.lor n 3]> (phys s) →
  maps_page s1 (window pd) n.
Proof.
  intros Hact Hpd He Hn Hnd H0 H3 Hm.
  pose proof (active_slot_absent s d pd Hact Hpd He) as Hne.
  pose proof (act_aligned _ _ Hact) as Hd.
  assert (entry_frame_address (cr3 s1) + 4 * dir_index (window pd) = d + 4 * 1023) as E1.
  { rewrite H3, (act_cr3 _ _ Hact), efa_aligned, window_dir_index by done. done. }
  assert (read_phys (phys s1) (d + 4 * 1023) = Z.lor d 3) as E2.
  { rewrite Hm, read_insert_ne by lia. apply (act_recursive _ _ Hact). }
  assert (entry_frame_address (Z.lor d 3) + 4 * tbl_index (window pd) = d + 4 * pd) as E3.
  { by rewrite efa_lor3, window_tbl_index. }
  assert (read_phys (phys s1) (d + 4 * pd) = Z.lor n 3) as E4.
  { by rewrite Hm, read_insert_eq. }
  apply maps_page_walk.
  - unfold paging_on. rewrite H0. apply (act_paging _ _ Hact).
  - by apply window_aligned.
  - rewrite E1, E2. apply present_lor3, Hd.
  - rewrite E1, E2, E3, E4. apply present_lor3, Hn.
  - rewrite E1, E2, E3, E4. by apply efa_lor3.
  - rewrite E1. apply (aligned_pages_disjoint d n); [done..|].
    unfold in_page. lia.
  - rewrite E1, E2, E3. apply (aligned_pages_disjoint d n); [done..|].
    unfold in_page. lia.
Qed.

(** The directory-miss path of lines 135-178 when both allocations are
    made: the outcome in full. *)
Lemma handle_fault_directory_miss {REGS} (r : REGS) s d fk kp pp fp pp' :
  active d s →
  let a := cr2 s in
  let e := read_phys (phys s) (d + 4 * dir_index a) in
  let n := frame_address fk in
  let f := wrap32 (PAGE_SIZE * fp) in
  present e = false →
  kernel_mem_pool s = Some (fk :: kp) → wrap32 fk ≠ 0 → n ≠ d →
  process_mem_pool s = Some pp → get_frames pp 1 = (fp, pp') →
  handle_fault r s
  = Ret tt
      (with_outputs
         (fault_header a ++
          [Puts "Page directory entry for fault: "; Putui e; Puts "\n";
           Puts "Allocating new page table\n";
           Puts "New page table allocated at address: "; Putui n; Puts "\n";
           Puts "Page table entry before update: "; Putui 0; Puts "\n";
           Puts "Page table entry after update: "; Putui (Z.lor f 3); Puts "\n";
           Puts "Page fault handled\n "])
         (with_process_pool (Some pp')
            (with_kernel_pool (Some kp)
               (store_all (miss_stores d (dir_index a) (tbl_index a) n f) s)))).
Proof.
  intros Hact a e n f He Hk Hfk Hnd Hp Hfp.
  pose proof (dir_index_range a) as Hpd. pose proof (tbl_index_range a) as Hpt.
  pose proof (act_aligned _ _ Hact) as Hd.
  pose proof (frame_address_aligned fk) as Hn. fold n in Hn.
  enter_handler (act_current _ _ Hact). fold a.
  set (pd := dir_index a) in *. set (pt := tbl_index a) in *.
  step_by ltac:(apply (run_load _ _ (d + 4 * pd)); same_walk s;
                rewrite index_aligned by done; by apply (act_identity _ _ Hact)).
  proj. fold e. steps. rewrite present_test, He. cbn [negb].
  step. step_pool.
  apply Z.eqb_neq in Hfk. rewrite Hfk.
  change (wrap32 (wrap32 fk * PAGE_SIZE)) with n.
  change (Z.lor 4290772992 (wrap32 (Z.shiftl pd 12))) with (window pd).
  change (Z.to_nat ENTRIES_PER_PAGE) with 1024%nat.
  step_by ltac:(apply (run_store_at _ d d); same_walk s;
                rewrite index_aligned by done; by apply (act_identity _ _ Hact)).
  match goal with |- bind _ _ ?S = _ =>
    assert (maps_page S (window pd) n) as Hw
      by (by apply (window_maps s d pd n)) end.
  steps.
  step_by ltac:(apply (for_loop_store 1024 0 _ (window pd) n (fun _ => 0));
                [eapply maps_page_mono; [exact Hw|done..]|lia|lia]).
  step_pool. step.
  step_by ltac:(apply (run_load _ _ (n + 4 * pt)); via_page Hw).
  rewrite (read_page_stores 1024 0 (window pd) n (fun _ => 0)) by lia. cbv beta.
  steps.
  step_by ltac:(apply (run_store_at _ (window pd) n); via_page Hw).
  step.
  step_by ltac:(apply (run_load _ _ (n + 4 * pt)); via_page Hw).
  rewrite (read_page_stores 1 pt (window pd) n) by lia.
  steps. unfold puts. fold f. f_equal. unfold miss_stores, fault_header. same_state.
Qed.

(** Lines 106-109. *)
Lemma handle_fault_no_table {REGS} (r : REGS) s :
  current_page_table s = None →
  handle_fault r s
  = Ret tt (with_outputs [Puts "Error: No current page table loaded\n"] s).
Proof. intros Hcur. unfold handle_fault. by rewrite Hcur. Qed.

(** The other paths of the handler, for any active table whose directory
    entry can be read. *)
Section fault_paths.
Context {REGS : Type} (r : REGS) (s : machine) (cpt : PageTable).
Hypothesis Hcur : current_page_table s = Some cpt.

Let a := cr2 s.
Let pd := dir_index a.
Let pt := tbl_index a.

Lemma handle_fault_directory_fault :
  translate s (index (page_directory cpt) pd) = None →
  handle_fault r s
  = PageFault (index (page_directory cpt) pd) (with_outputs (fault_header a) s).
Proof.
  intros Hnone. enter_handler Hcur. fold a pd pt.
  apply run_bind_fault. unfold load_word. same_walk s. rewrite Hnone.
  f_equal. unfold fault_header. same_state.
Qed.

Context (p0 : Z).
Hypothesis Hdir : translate s (index (page_directory cpt) pd) = Some p0.

Let e := read_phys (phys s) p0.

Lemma handle_fault_no_table_frame kp kp' :
  present e = false →
  kernel_mem_pool s = Some kp → get_frames kp 1 = (0, kp') →
  handle_fault r s
  = Ret tt
      (with_outputs
         (fault_header a ++
          [Puts "Page directory entry for fault: "; Putui e; Puts "\n";
           Puts "Allocating new page table\n";
           Puts "Failed to allocate new page table\n"])
         (with_kernel_pool (Some kp') s)).
Proof.
  intros He Hk Hget. enter_handler Hcur. fold a pd pt.
  step_by ltac:(apply (run_load _ _ p0); same_walk s; exact Hdir).
  fold e. steps. rewrite present_test, He. cbn [negb].
  step. step_pool. cbn [Z.eqb]. unfold puts. f_equal.
  unfold fault_header. same_state.
Qed.

Let page_table := entry_frame_address e.

Lemma handle_fault_table_fault :
  present e = true →
  translate s (index page_table pt) = None →
  handle_fault r s
  = PageFault (index page_table pt)
      (with_outputs
         (fault_header a ++
          [Puts "Page directory entry for fault: "; Putui e; Puts "\n"]) s).
Proof.
  intros He Hnone. enter_handler Hcur. fold a pd pt.
  step_by ltac:(apply (run_load _ _ p0); same_walk s; exact Hdir).
  fold e. steps. rewrite present_test, He. cbn [negb].
  step_by ltac:(apply (run_load _ _ p0); same_walk s; exact Hdir).
  fold e. change (wrap32 (Z.lnot 0xFFF)) with 0xFFFFF000.
  change (Z.land e 0xFFFFF000) with page_table.
  apply run_bind_fault. unfold load_word. same_walk s. rewrite Hnone.
  f_equal. unfold fault_header. same_state.
Qed.

Context (p : Z).
Hypothesis Htbl : translate s (index page_table pt) = Some p.

Let pte := read_phys (phys s) p.

Lemma handle_fault_already_present :
  present e = true → present pte = true →
  handle_fault r s
  = Ret tt
      (with_outputs
         (fault_header a ++
          [Puts "Page directory entry for fault: "; Putui e; Puts "\n";
           Puts "Page table entry for fault: "; Putui pte; Puts "\n";
           Puts "Page fault handled successfully\n"]) s).
Proof.
  intros He Hpte. enter_handler Hcur. fold a pd pt.
  step_by ltac:(apply (run_load _ _ p0); same_walk s; exact Hdir).
  fold e. steps. rewrite present_test, He. cbn [negb].
  step_by ltac:(apply (run_load _ _ p0); same_walk s; exact Hdir).
  fold e. change (wrap32 (Z.lnot 0xFFF)) with 0xFFFFF000.
  change (Z.land e 0xFFFFF000) with page_table.
  step_by ltac:(apply (run_load _ _ p); same_walk s; exact Htbl).
  fold pte. steps. rewrite present_test, Hpte. cbn [negb].
  unfold puts. f_equal. unfold fault_header. same_state.
Qed.

Lemma handle_fault_no_page_frame pp pp' :
  present e = true → present pte = false →
  process_mem_pool s = Some pp → get_frames pp 1 = (0, pp') →
  handle_fault r s
  = Ret tt
      (with_outputs
         (fault_header a ++
          [Puts "Page directory entry for fault: "; Putui e; Puts "\n";
           Puts "Page table entry for fault: "; Putui pte; Puts "\n";
           Puts "Allocating new frame for the page\n";
           Puts "Failed to allocate new frame\n"])
         (with_process_pool (Some pp') s)).
Proof.
  intros He Hpte Hp Hget. enter_handler Hcur. fold a pd pt.
  step_by ltac:(apply (run_load _ _ p0); same_walk s; exact Hdir).
  fold e. steps. rewrite present_test, He. cbn [negb].
  step_by ltac:(apply (run_load _ _ p0); same_walk s; exact Hdir).
  fold e. change (wrap32 (Z.lnot 0xFFF)) with 0xFFFFF000.
  change (Z.land e 0xFFFFF000) with page_table.
  step_by ltac:(apply (run_load _ _ p); same_walk s; exact Htbl).
  fold pte. steps. rewrite present_test, Hpte. cbn [negb].
  step. step_pool. cbn [Z.eqb]. unfold puts. f_equal.
  unfold fault_header. same_state.
Qed.

Lemma handle_fault_table_miss pp fp pp' :
  present e = true → present pte = false →
  process_mem_pool s = Some pp → get_frames pp 1 = (fp, pp') → fp ≠ 0 →
  let f := wrap32 (fp * PAGE_SIZE) in
  handle_fault r s
  = Ret tt
      (with_outputs
         (fault_header a ++
          [Puts "Page directory entry for fault: "; Putui e; Puts "\n";
           Puts "Page table entry for fault: "; Putui pte; Puts "\n";
           Puts "Allocating new frame for the page\n";
           Puts "New frame allocated at address: "; Putui f; Puts "\n";
           Puts "Page fault handled successfully\n"])
         (with_process_pool (Some pp')
            (store_all [Access (index page_table pt) p (Z.lor f 3)] s))).
Proof.
  intros He Hpte Hp Hget Hfp f. enter_handler Hcur. fold a pd pt.
  step_by ltac:(apply (run_load _ _ p0); same_walk s; exact Hdir).
  fold e. steps. rewrite present_test, He. cbn [negb].
  step_by ltac:(apply (run_load _ _ p0); same_walk s; exact Hdir).
  fold e. change (wrap32 (Z.lnot 0xFFF)) with 0xFFFFF000.
  change (Z.land e 0xFFFFF000) with page_table.
  step_by ltac:(apply (run_load _ _ p); same_walk s; exact Htbl).
  fold pte. steps. rewrite present_test, Hpte. cbn [negb].
  step. step_pool. apply Z.eqb_neq in Hfp. rewrite Hfp. fold f.
  step_by ltac:(apply (run_store _ _ p); same_walk s; exact Htbl).
  steps. unfold puts. f_equal. unfold fault_header. same_state.
Qed.
End fault_paths.

(** * Construction *)

Lemma paging_off_maps s q s' :
  paging_on s = false → aligned q → cr0 s' = cr0 s → maps_page s' q q.
Proof.
  intros Hoff Hq H0. apply maps_page_off; [|done].
  unfold paging_on in *. by rewrite H0.
Qed.

(** The constructor with paging off and a second frame to take. *)
Lemma PageTable_new_built s fd ft kp :
  paging_on s = false →
  kernel_mem_pool s = Some (fd :: ft :: kp) →
  wrap32 ft ≠ 0 →
  let d := frame_address fd in
  let t0 := frame_address ft in
  PageTable_new s
  = Ret {| page_directory := d |}
      (with_outputs [Puts "Page directory with 4MB direct-mapped allocated\n"]
         (with_kernel_pool (Some kp) (store_all (built d t0) s))).
Proof.
  intros Hoff Hk Hft d t0. unfold PageTable_new.
  pose proof (frame_address_aligned fd) as Hd. fold d in Hd.
  pose proof (frame_address_aligned ft) as Ht. fold t0 in Ht.
  change (Z.to_nat ENTRIES_PER_PAGE) with 1024%nat.
  change (ENTRIES_PER_PAGE - 1) with 1023.
  unbind. step_pool. change (wrap32 (wrap32 fd * PAGE_SIZE)) with d.
  step_by ltac:(apply (for_loop_store 1024 0 _ d d (fun _ => 0));
                [by apply (paging_off_maps s)|lia|lia]).
  step_pool. apply Z.eqb_neq in Hft. rewrite Hft.
  change (wrap32 (wrap32 ft * PAGE_SIZE)) with t0.
  step_by ltac:(apply (for_loop_var_store 1024 0 _ t0 t0
                         (fun i => Z.lor (i * PAGE_SIZE) 3) 0);
                [by apply (paging_off_maps s)|lia|lia|lia|lia|
                 intros j Hj; unfold PAGE_SIZE; f_equal; lia]).
  step_by ltac:(apply (run_store_page _ d d); [by apply (paging_off_maps s)|lia]).
  step_by ltac:(apply (for_loop_store 1023 1 _ d d (fun _ => 2));
                [by apply (paging_off_maps s)|lia|lia]).
  step_by ltac:(apply (run_store_page _ d d); [by apply (paging_off_maps s)|lia]).
  step. unfold ret. f_equal. unfold built. same_state.
Qed.

(** The checked allocation of lines 45-49: on failure the constructor
    says so and returns, the directory zeroed and nothing else done. *)
Lemma PageTable_new_no_table s fd kp kp' :
  paging_on s = false →
  kernel_mem_pool s = Some (fd :: kp) →
  get_frames kp 1 = (0, kp') →
  let d := frame_address fd in
  PageTable_new s
  = Ret {| page_directory := d |}
      (with_outputs [Puts "Failed to allocate first page table\n"]
         (with_kernel_pool (Some kp')
            (store_all (page_stores 1024 0 d d (fun _ => 0)) s))).
Proof.
  intros Hoff Hk Hget d. unfold PageTable_new.
  pose proof (frame_address_aligned fd) as Hd. fold d in Hd.
  change (Z.to_nat ENTRIES_PER_PAGE) with 1024%nat.
  unbind. step_pool. change (wrap32 (wrap32 fd * PAGE_SIZE)) with d.
  step_by ltac:(apply (for_loop_store 1024 0 _ d d (fun _ => 0));
                [by apply (paging_off_maps s)|lia|lia]).
  step_pool. cbn [Z.eqb]. step. unfold ret. f_equal; same_state.
Qed.

(** What memory holds once the stores of the constructor are done. *)
Lemma built_memory m d t0 :
  aligned d → aligned t0 → t0 ≠ d →
  let m' := write_all (built d t0) m in
  read_phys m' d = Z.lor t0 3
  ∧ (∀ i, 1 ≤ i < 1023 → read_phys m' (d + 4 * i) = 2)
  ∧ read_phys m' (d + 4 * 1023) = Z.lor d 3
  ∧ (∀ i, 0 ≤ i < 1024 → read_phys m' (t0 + 4 * i) = Z.lor (i * PAGE_SIZE) 3)
  ∧ (∀ x, ¬ in_page d x → ¬ in_page t0 x → read_phys m' x = read_phys m x).
Proof.
  intros Hd Ht Hne m'. unfold m', built. rewrite !write_all_app.
  assert (∀ i, 0 ≤ i < 1024 → ¬ in_page d (t0 + 4 * i)) as Hdis.
  { intros i Hi. apply (aligned_pages_disjoint t0 d); [done..|].
    unfold in_page. lia. }
  repeat split.
  - rewrite read_write_all_outside by (apply page_stores_above; lia).
    rewrite read_write_all_outside by (apply page_stores_above; lia).
    match goal with |- read_phys ?X d = _ =>
      replace (read_phys X d) with (read_phys X (d + 4 * 0)) by (f_equal; lia) end.
    by rewrite (read_page_stores 1 0 d d) by lia.
  - intros i Hi.
    rewrite read_write_all_outside by (apply page_stores_above; lia).
    by rewrite (read_page_stores 1023 1 d d) by lia.
  - by rewrite (read_page_stores 1 1023 d d) by lia.
  - intros i Hi.
    rewrite 3!(read_outside_page _ _ d) by (first [apply page_stores_in_page; lia | by apply Hdis]).
    by rewrite (read_page_stores 1024 0 t0 t0) by lia.
  - intros x Hxd Hxt.
    rewrite 3!(read_outside_page _ _ d) by (first [apply page_stores_in_page; lia | done]).
    rewrite (read_outside_page _ _ t0) by (first [apply page_stores_in_page; lia | done]).
    by rewrite (read_outside_page _ _ d) by (first [apply page_stores_in_page; lia | done]).
Qed.

(** * The invariant of an activated table *)

Lemma identity_walk m d t0 va :
  aligned d → aligned t0 →
  read_phys m d = Z.lor t0 3 →
  (∀ i, 0 ≤ i < 1024 → read_phys m (t0 + 4 * i) = Z.lor (i * PAGE_SIZE) 3) →
  0 ≤ va < 2 ^ 22 →
  walk m d va = Some va.
Proof.
  intros Hd Ht H0 Hid Hva. unfold walk.
  assert (dir_index va = 0) as ->.
  { rewrite dir_index_spec. change (2 ^ 22) with 4194304 in Hva. zdiv. }
  rewrite efa_aligned by done. replace (d + 4 * 0) with d by lia.
  rewrite H0, present_lor3 by apply Ht. rewrite efa_lor3 by done.
  rewrite Hid by apply tbl_index_range.
  assert (aligned (tbl_index va * PAGE_SIZE)) as Ha.
  { pose proof (tbl_index_range va). unfold aligned, PAGE_SIZE.
    change (2 ^ 32) with 4294967296. zdiv. }
  rewrite present_lor3 by apply Ha. rewrite efa_lor3 by done.
  f_equal. rewrite tbl_index_spec, page_offset_spec. unfold PAGE_SIZE.
  change (2 ^ 22) with 4194304 in Hva. zdiv.
Qed.

Lemma inv_low_identity d t0 s va :
  paging_inv d t0 s → 0 ≤ va < 2 ^ 22 → translate s va = Some va.
Proof.
  intros H Hva. unfold translate. rewrite (inv_paging _ _ _ H), (inv_cr3 _ _ _ H).
  apply (identity_walk _ d t0); try done; apply H.
Qed.

Lemma inv_active d t0 s : paging_inv d t0 s → active d s.
Proof.
  intros H. pose proof (inv_dir _ _ _ H) as [Hr Hm]. pose proof (inv_low _ _ _ H).
  split; try apply H.
  intros i Hi. apply (inv_low_identity d t0); [done|].
  change (2 ^ 22) with 4194304 in *. zdiv.
Qed.

(** The invariant looks at the registers, at the pools and at the present
    words of two frames only. *)
Lemma inv_frame d t0 s s' :
  paging_inv d t0 s →
  cr0 s' = cr0 s → cr3 s' = cr3 s →
  current_page_table s' = current_page_table s →
  (∀ x, present (read_phys (phys s) x) = true → in_page d x ∨ in_page t0 x →
        read_phys (phys s') x = read_phys (phys s) x) →
  (∃ kp, kernel_mem_pool s' = Some kp) →
  (∃ pp, process_mem_pool s' = Some pp) →
  paging_inv d t0 s'.
Proof.
  intros H H0 H3 Hc Hm Hk Hp.
  pose proof (inv_dir _ _ _ H) as Hd. pose proof (inv_table _ _ _ H) as Ht.
  assert (∀ x v, read_phys (phys s) x = Z.lor v 3 → v mod 4096 = 0 →
                 in_page d x ∨ in_page t0 x → read_phys (phys s') x = Z.lor v 3) as Hkeep.
  { intros x v Hx Hv Hin. rewrite Hm; [done| |done]. rewrite Hx. by apply present_lor3. }
  split; try apply H; try done.
  - unfold paging_on. rewrite H0. apply H.
  - rewrite Hc. apply H.
  - rewrite H3. apply H.
  - apply Hkeep; [apply H|apply Ht|]. left. unfold in_page. lia.
  - intros i Hi. apply Hkeep; [by apply H| |].
    + unfold PAGE_SIZE. zdiv.
    + right. unfold in_page. lia.
  - apply Hkeep; [apply H|apply Hd|]. left. unfold in_page. lia.
Qed.

Lemma fresh_pool_tail d t0 kp f kp' :
  Forall (fresh d t0) kp → get_frames kp 1 = (f, kp') → Forall (fresh d t0) kp'.
Proof.
  intros Hall. destruct kp as [|x kp]; cbn; intros [= <- <-]; [done|].
  by inversion Hall.
Qed.

Lemma absent_kept_insert (m : gmap Z Z) p v x :
  present (read_phys m p) = false → present (read_phys m x) = true →
  read_phys (<[p:=v]> m) x = read_phys m x.
Proof. intros Hp Hx. apply read_insert_ne. intros ->. congruence. Qed.

Lemma miss_stores_kept m d t0 pd pt n f x :
  aligned d → aligned t0 → aligned n → n ≠ d → n ≠ t0 →
  0 ≤ pd < 1024 → 0 ≤ pt < 1024 →
  present (read_phys m (d + 4 * pd)) = false →
  present (read_phys m x) = true → in_page d x ∨ in_page t0 x →
  read_phys (write_all (miss_stores d pd pt n f) m) x = read_phys m x.
Proof.
  intros Hd Ht Hn Hnd Hnt Hpd Hpt He Hx Hin. unfold miss_stores.
  assert (¬ in_page n x) as Hout.
  { destruct Hin as [Hin|Hin];
      [apply (aligned_pages_disjoint d n)|apply (aligned_pages_disjoint t0 n)]; done. }
  rewrite !write_all_app.
  rewrite 2!(read_outside_page _ _ n) by (first [apply page_stores_in_page; lia | done]).
  cbn [page_stores write_all fold_left acc_pa acc_val].
  by apply absent_kept_insert.
Qed.

Lemma inv_with_cr2 d t0 s a : paging_inv d t0 s → paging_inv d t0 (with_cr2 a s).
Proof. intros H. by apply (inv_frame d t0 s); try done; apply H. Qed.

Lemma pool_contract_same d t0 s s' :
  kernel_mem_pool s' = kernel_mem_pool s →
  pool_contract d t0 s → pool_contract d t0 s'.
Proof. intros E H kp Hkp. apply H. by rewrite <- E. Qed.

Lemma pool_contract_popped d t0 s s' kp f kp' :
  kernel_mem_pool s = Some kp → get_frames kp 1 = (f, kp') →
  kernel_mem_pool s' = Some kp' →
  pool_contract d t0 s → pool_contract d t0 s'.
Proof.
  intros Hk Hget Hk' H kp0 Hkp0. rewrite Hk' in Hkp0. injection Hkp0 as <-.
  apply (fresh_pool_tail d t0 kp f); [by apply H|done].
Qed.

(** One run of the handler keeps the invariant, if the kernel pool keeps
    its side of it. *)
Lemma handle_fault_inv {REGS} (r : REGS) d t0 s :
  paging_inv d t0 s → pool_contract d t0 s →
  paging_inv d t0 (final (handle_fault r s))
  ∧ pool_contract d t0 (final (handle_fault r s)).
Proof.
  intros H Hpool. pose proof (inv_active _ _ _ H) as Hact.
  pose proof (inv_current _ _ _ H) as Hcur.
  pose proof (inv_dir _ _ _ H) as Hd.
  pose proof (dir_index_range (cr2 s)) as Hpd.
  pose proof (tbl_index_range (cr2 s)) as Hpt.
  destruct (inv_kernel _ _ _ H) as (kp & Hk).
  destruct (inv_process _ _ _ H) as (pp & Hp).
  pose proof (Hpool kp Hk) as Hfresh.
  assert (translate s (index (page_directory {| page_directory := d |})
                         (dir_index (cr2 s))) = Some (d + 4 * dir_index (cr2 s))) as Hdir.
  { cbn [page_directory]. rewrite index_aligned by done.
    by apply (act_identity _ _ Hact). }
  destruct (present (read_phys (phys s) (d + 4 * dir_index (cr2 s)))) eqn:He.
  - destruct (translate s (index (entry_frame_address
        (read_phys (phys s) (d + 4 * dir_index (cr2 s)))) (tbl_index (cr2 s))))
      as [p|] eqn:Htbl.
    + destruct (present (read_phys (phys s) p)) eqn:Hpte.
      * rewrite (handle_fault_already_present r s _ Hcur _ Hdir p Htbl He Hpte).
        split; [apply (inv_frame d t0 s); try done; eauto
               |by apply (pool_contract_same d t0 s)].
      * destruct (get_frames pp 1) as [fp pp'] eqn:Hget.
        destruct (decide (fp = 0)) as [->|Hfp].
        -- rewrite (handle_fault_no_page_frame r s _ Hcur _ Hdir p Htbl pp pp' He Hpte Hp Hget).
           split; [apply (inv_frame d t0 s); try done; eauto
                  |by apply (pool_contract_same d t0 s)].
        -- rewrite (handle_fault_table_miss r s _ Hcur _ Hdir p Htbl pp fp pp' He Hpte Hp Hget Hfp).
           split; [|by apply (pool_contract_same d t0 s)].
           apply (inv_frame d t0 s); try done; eauto.
           intros x Hx _. cbn. by apply absent_kept_insert.
    + rewrite (handle_fault_table_fault r s _ Hcur _ Hdir He Htbl).
      split; [apply (inv_frame d t0 s); try done; eauto
             |by apply (pool_contract_same d t0 s)].
  - destruct (get_frames kp 1) as [f kp'] eqn:Hget.
    destruct (decide (f = 0)) as [->|Hnz].
    { rewrite (handle_fault_no_table_frame r s _ Hcur _ Hdir kp kp' He Hk Hget).
      split; [apply (inv_frame d t0 s); try done; eauto
             |by apply (pool_contract_popped d t0 s _ kp 0 kp')]. }
    destruct kp as [|fk kp0]; cbn in Hget; [by injection Hget as <- _|].
    injection Hget as Hf Hkp'. subst f kp'.
    inversion Hfresh as [|? ? [Hz|[Hnd Hnt]] _]; subst; [done|].
    destruct (get_frames pp 1) as [fp pp'] eqn:Hgetp.
    rewrite (handle_fault_directory_miss r s d fk kp0 pp fp pp' Hact He Hk Hnz Hnd Hp Hgetp).
    split; [|by apply (pool_contract_popped d t0 s _ (fk :: kp0) (wrap32 fk) kp0)].
    apply (inv_frame d t0 s); try done; eauto.
    intros x Hx Hin.
    apply (miss_stores_kept (phys s) d t0 (dir_index (cr2 s)) (tbl_index (cr2 s))
             (frame_address fk) (wrap32 (PAGE_SIZE * fp)) x);
      try done; try apply H.
    apply frame_address_aligned.
Qed.

Lemma faults_inv {REGS} (l : list (REGS * Z)) : ∀ d t0 s,
  paging_inv d t0 s → pool_contract d t0 s →
  paging_inv d t0 (faults l s) ∧ pool_contract d t0 (faults l s).
Proof.
  induction l as [|[r a] l IH]; intros d t0 s H Hpool; [done|].
  cbn [faults].
  destruct (handle_fault_inv r d t0 (with_cr2 a s)) as [H' Hpool'].
  - by apply inv_with_cr2.
  - by apply (pool_contract_same d t0 s).
  - by apply IH.
Qed.

Lemma paging_bit c : Z.testbit (Z.lor c 0x80000000) 31 = true.
Proof. rewrite Z.lor_spec. change (Z.testbit 0x80000000 31) with true. apply orb_true_r. Qed.

Lemma init_paging_state kp pp sz s :
  init_paging kp pp sz s
  = Ret tt (with_outputs [Puts "Initialized Paging System\n"]
              (with_shared_size sz
                 (with_process_pool (Some pp) (with_kernel_pool (Some kp) s)))).
Proof. reflexivity. Qed.

Lemma load_state pt s :
  page_directory pt ≠ 0 →
  load pt s
  = Ret tt (with_outputs [Puts "Loaded page table\n"]
              (with_current (Some pt) (with_cr3 (page_directory pt) s))).
Proof. intros H. unfold load. apply Z.eqb_neq in H. by rewrite H. Qed.

Lemma load_refused pt s :
  page_directory pt = 0 →
  load pt s = Ret tt (with_outputs [Puts "Error: Page directory not set\n"] s).
Proof. intros H. unfold load. by rewrite H. Qed.

Lemma enable_paging_state s :
  enable_paging s
  = Ret tt (with_outputs [Puts "Enabled paging\n"]
              (with_enabled 1 (with_cr0 (Z.lor (cr0 s) 0x80000000) s))).
Proof. reflexivity. Qed.

(** The machine after the boot sequence. *)
Lemma bring_up_state s fd ft kp pp sz :
  paging_on s = false →
  let d := frame_address fd in
  let t0 := frame_address ft in
  wrap32 ft ≠ 0 → d ≠ 0 →
  bring_up (fd :: ft :: kp) pp sz s
  = Ret {| page_directory := d |}
      (with_outputs
         [Puts "Initialized Paging System\n";
          Puts "Page directory with 4MB direct-mapped allocated\n";
          Puts "Loaded page table\n"; Puts "Enabled paging\n"]
         (with_enabled 1
            (with_cr0 (Z.lor (cr0 s) 0x80000000)
               (with_current (Some {| page_directory := d |})
                  (with_cr3 d
                     (with_shared_size sz
                        (with_process_pool (Some pp)
                           (with_kernel_pool (Some kp)
                              (store_all (built d t0) s)))))))))%list.
Proof.
  intros Hoff d t0 Hft Hd0.
  unfold bring_up. unbind.
  step_by ltac:(apply init_paging_state).
  step_by ltac:(apply (PageTable_new_built _ fd ft kp); [exact Hoff|reflexivity|exact Hft]).
  fold d t0.
  step_by ltac:(apply load_state; exact Hd0).
  step_by ltac:(apply enable_paging_state).
  unfold ret. f_equal. same_state.
Qed.

Lemma bring_up_inv s fd ft kp pp sz :
  paging_on s = false →
  let d := frame_address fd in
  let t0 := frame_address ft in
  wrap32 ft ≠ 0 → d ≠ 0 → d < 2 ^ 22 → t0 ≠ d →
  paging_inv d t0 (final (bring_up (fd :: ft :: kp) pp sz s)).
Proof.
  intros Hoff d t0 Hft Hd0 Hlow Hne.
  pose proof (frame_address_aligned fd) as Hd. fold d in Hd.
  pose proof (frame_address_aligned ft) as Ht. fold t0 in Ht.
  rewrite bring_up_state by done. fold d t0. cbn [final].
  destruct (built_memory (phys s) d t0 Hd Ht Hne) as (M0 & M1 & M2 & M3 & M4).
  split; unfold paging_on; fields.
  - apply paging_bit.
  - reflexivity.
  - reflexivity.
  - exact Hd.
  - exact Hlow.
  - exact Ht.
  - exact Hne.
  - exact M0.
  - exact M3.
  - exact M2.
  - by exists kp.
  - by exists pp.
Qed.

Lemma bring_up_pool s fd ft kp pp sz :
  paging_on s = false →
  let d := frame_address fd in
  let t0 := frame_address ft in
  wrap32 ft ≠ 0 → d ≠ 0 → Forall (fresh d t0) kp →
  pool_contract d t0 (final (bring_up (fd :: ft :: kp) pp sz s)).
Proof.
  intros Hoff d t0 Hft Hd0 Hfresh.
  rewrite bring_up_state by done. fold d t0. cbn [final].
  intros kp0. fields. by intros [= <-].
Qed.


(** * The bit convention of entries: lemmas *)

Lemma land_pow2 x k :
  0 ≤ k → Z.land x (2 ^ k) = if Z.testbit x k then 2 ^ k else 0.
Proof.
  intros Hk. apply Z.bits_inj'. intros n Hn.
  rewrite Z.land_spec, Z.pow2_bits_eqb by done.
  destruct (Z.eqb_spec k n) as [->|Hne].
  - destruct (Z.testbit x n); [|by rewrite Z.bits_0].
    by rewrite Z.pow2_bits_true.
  - rewrite andb_false_r.
    destruct (Z.testbit x k); [|by rewrite Z.bits_0].
    by rewrite Z.pow2_bits_false.
Qed.

Lemma flag_bit x k : 0 ≤ k → negb (Z.land x (2 ^ k) =? 0) = Z.testbit x k.
Proof.
  intros Hk. rewrite land_pow2 by done.
  destruct (Z.testbit x k); [|done].
  apply negb_true_iff, Z.eqb_neq. apply Z.pow_nonzero; lia.
Qed.

Lemma low_bits_aligned a k : a mod 4096 = 0 → 0 ≤ k < 12 → Z.testbit a k = false.
Proof.
  intros Ha Hk. rewrite <- (Z.mod_pow2_bits_low a 12 k) by lia.
  change (2 ^ 12) with 4096. rewrite Ha. apply Z.bits_0.
Qed.

Lemma convention_lor3 a : a mod 4096 = 0 → entry_convention (Z.lor a 3).
Proof.
  intros Ha. unfold entry_convention, user_mode, writable.
  rewrite (flag_bit _ 2), (flag_bit _ 1) by lia.
  rewrite !Z.lor_spec, (low_bits_aligned a 2), (low_bits_aligned a 1) by (done || lia).
  done.
Qed.

Lemma convention_0 : entry_convention 0.
Proof. done. Qed.

Lemma convention_2 : entry_convention 2.
Proof. done. Qed.

(** * What any run does to the two traces *)

Lemma extends_refl ok s : extends ok s s.
Proof. exists [], []. by rewrite !app_nil_r. Qed.

Lemma extends_trans ok s1 s2 s3 :
  extends ok s1 s2 → extends ok s2 s3 → extends ok s1 s3.
Proof.
  intros (os & accs & Hc & Hs & Hok) (os' & accs' & Hc' & Hs' & Hok').
  exists (os ++ os')%list, (accs ++ accs')%list.
  rewrite Hc', Hs', Hc, Hs, <- !app_assoc. repeat split. by apply Forall_app.
Qed.

Section orderly.
Context (ok : Z → Prop).

Lemma orderly_ret {A} (P : A → Prop) a : P a → orderly ok P (ret a).
Proof. intros Ha s. split; [apply extends_refl|]. by intros ? ? [= <- <-]. Qed.

Lemma orderly_bind {A B} (P : A → Prop) (Q : B → Prop) (c : M A) (k : A → M B) :
  orderly ok P c → (∀ a, P a → orderly ok Q (k a)) → orderly ok Q (bind c k).
Proof.
  intros Hc Hk s. unfold bind. destruct (Hc s) as [Hext Hret].
  destruct (c s) as [a s'|va s'|s'] eqn:E; [|done..].
  destruct (Hk a (Hret a s' eq_refl) s') as [Hext' Hret'].
  split; [|done]. by apply (extends_trans ok s s').
Qed.

Lemma orderly_weaken {A} (P Q : A → Prop) (c : M A) :
  orderly ok P c → (∀ a, P a → Q a) → orderly ok Q c.
Proof. intros Hc HPQ s. destruct (Hc s) as [? Hr]. split; [done|]. eauto. Qed.

Lemma extends_output s o : extends ok s (with_output o s).
Proof. exists [o], []. cbn. by rewrite app_nil_r. Qed.

Lemma orderly_puts msg : orderly ok (fun _ => True) (puts msg).
Proof. intros s. split; [apply extends_output|done]. Qed.

Lemma orderly_putui n : orderly ok (fun _ => True) (putui n).
Proof. intros s. split; [apply extends_output|done]. Qed.

Lemma orderly_quiet {A} (c : M A) :
  (∀ s, console (final (c s)) = console s ∧ stores (final (c s)) = stores s) →
  orderly ok (fun _ => True) c.
Proof.
  intros H s. destruct (H s) as [Hc Hs]. split; [|done].
  exists [], []. by rewrite Hc, Hs, !app_nil_r.
Qed.

Lemma orderly_load va : orderly ok (fun _ => True) (load_word va).
Proof. apply orderly_quiet. intros s. unfold load_word. by destruct (translate s va). Qed.

Lemma orderly_store va v : ok v → orderly ok (fun _ => True) (store_word va v).
Proof.
  intros Hv s. split; [|done]. unfold store_word.
  destruct (translate s va) as [pa|]; [|apply extends_refl].
  exists [], [Access va pa v]. cbn. rewrite app_nil_r. repeat split.
  by constructor.
Qed.

Lemma orderly_kernel_get_frames n : orderly ok (fun _ => True) (kernel_get_frames n).
Proof.
  apply orderly_quiet. intros s. unfold kernel_get_frames.
  destruct (kernel_mem_pool s) as [p|]; [|done]. by destruct (get_frames p n).
Qed.

Lemma orderly_process_get_frames n : orderly ok (fun _ => True) (process_get_frames n).
Proof.
  apply orderly_quiet. intros s. unfold process_get_frames.
  destruct (process_mem_pool s) as [p|]; [|done]. by destruct (get_frames p n).
Qed.

Lemma orderly_for_loop n : ∀ i body,
  (∀ j, orderly ok (fun _ => True) (body j)) →
  orderly ok (fun _ => True) (for_loop n i body).
Proof.
  induction n as [|n IH]; intros i body Hbody; cbn [for_loop].
  - by apply orderly_ret.
  - apply (orderly_bind (fun _ => True)); [apply Hbody|]. intros _ _. by apply IH.
Qed.

Lemma orderly_for_loop_var {A} (P : A → Prop) n : ∀ i body a,
  P a → (∀ j x, P x → orderly ok P (body j x)) →
  orderly ok P (for_loop_var n i body a).
Proof.
  induction n as [|n IH]; intros i body a Ha Hbody; cbn [for_loop_var].
  - by apply orderly_ret.
  - apply (orderly_bind P); [by apply Hbody|]. intros x Hx. by apply IH.
Qed.
End orderly.

Lemma aligned_wrap_frame f : wrap32 (f * PAGE_SIZE) mod 4096 = 0.
Proof. apply aligned_frame. Qed.

Lemma aligned_wrap_frame' f : wrap32 (PAGE_SIZE * f) mod 4096 = 0.
Proof. rewrite Z.mul_comm. apply aligned_frame. Qed.

(** Solves [orderly] goals for code put together from the primitive
    commands. *)
Ltac orderly_step :=
  lazymatch goal with
  | |- orderly _ _ (bind (for_loop_var _ _ _ _) _) =>
      eapply (orderly_bind _ (fun a => a mod 4096 = 0));
        [apply orderly_for_loop_var; [done|intros ? ? ?]|intros ? ?]
  | |- orderly _ _ (bind _ _) =>
      eapply (orderly_bind _ (fun _ => True)); [|intros ? _]
  | |- orderly _ _ (if ?b then _ else _) => destruct b
  | |- orderly _ _ (puts _) => apply orderly_puts
  | |- orderly _ _ (putui _) => apply orderly_putui
  | |- orderly _ _ (load_word _) => apply orderly_load
  | |- orderly _ _ (store_word _ _) => apply orderly_store
  | |- orderly _ _ (kernel_get_frames _) => apply orderly_kernel_get_frames
  | |- orderly _ _ (process_get_frames _) => apply orderly_process_get_frames
  | |- orderly _ _ (for_loop _ _ _) => apply orderly_for_loop; intros ?
  | |- orderly _ _ (ret _) => apply orderly_ret
  | |- orderly _ _ _ => by apply orderly_quiet
  end.

Ltac convention :=
  first [ exact convention_0 | exact convention_2
        | apply convention_lor3;
          first [ assumption | apply aligned_wrap_frame | apply aligned_wrap_frame' ] ].

Lemma aligned_next x : x mod 4096 = 0 → wrap32 (x + PAGE_SIZE) mod 4096 = 0.
Proof. unfold wrap32, PAGE_SIZE. change (2 ^ 32) with 4294967296. zdiv. Qed.

Lemma PageTable_new_orderly :
  orderly entry_convention (fun _ => True) PageTable_new.
Proof.
  unfold PageTable_new. unbind.
  repeat orderly_step; try done; try convention.
  by apply aligned_next.
Qed.

Lemma handle_fault_orderly {REGS} (r : REGS) :
  orderly entry_convention (fun _ => True) (handle_fault r).
Proof.
  intros s. unfold handle_fault. destruct (current_page_table s) as [cpt|].
  - unbind. cbv zeta.
    refine ((_ : orderly entry_convention (fun _ => True) _) s). clear s.
    repeat orderly_step; try done; try convention.
  - apply orderly_puts.
Qed.

Lemma load_orderly ok pt : orderly ok (fun _ => True) (load pt).
Proof. unfold load. unbind. repeat orderly_step; done. Qed.

Lemma enable_paging_orderly ok : orderly ok (fun _ => True) enable_paging.
Proof. unfold enable_paging. unbind. repeat orderly_step; done. Qed.

Lemma init_paging_orderly ok kp pp sz : orderly ok (fun _ => True) (init_paging kp pp sz).
Proof. unfold init_paging. unbind. repeat orderly_step; done. Qed.

(** The handler first reports the address, the two indices and the
    directory entry at the directory index, whatever it does next. *)
Lemma handle_fault_report {REGS} (r : REGS) s cpt p0 :
  current_page_table s = Some cpt →
  translate s (index (page_directory cpt) (dir_index (cr2 s))) = Some p0 →
  ∃ rest : M unit,
    orderly entry_convention (fun _ => True) rest
    ∧ handle_fault r s
      = rest (with_outputs
                (fault_header (cr2 s) ++
                 [Puts "Page directory entry for fault: ";
                  Putui (read_phys (phys s) p0); Puts "\n"]) s).
Proof.
  intros Hcur Hdir. eexists. split; cycle 1.
  - enter_handler Hcur.
    step_by ltac:(apply (run_load _ _ p0); same_walk s; exact Hdir).
    steps.
    match goal with |- ?f ?S = _ =>
      replace S with (with_outputs
                (fault_header (cr2 s) ++
                 [Puts "Page directory entry for fault: ";
                  Putui (read_phys (phys s) p0); Puts "\n"]) s)
        by (unfold fault_header; same_state) end.
    reflexivity.
  - cbv beta. repeat orderly_step; try done; try convention.
Qed.

Lemma handle_fault_console {REGS} (r : REGS) s cpt :
  current_page_table s = Some cpt →
  ∃ os, console (final (handle_fault r s))
        = (console s ++ fault_header (cr2 s) ++ os)%list.
Proof.
  intros Hcur.
  destruct (translate s (index (page_directory cpt) (dir_index (cr2 s))))
    as [p0|] eqn:Hdir.
  - destruct (handle_fault_report r s cpt p0 Hcur Hdir) as (rest & Hrest & ->).
    destruct (Hrest (with_outputs
                (fault_header (cr2 s) ++
                 [Puts "Page directory entry for fault: ";
                  Putui (read_phys (phys s) p0); Puts "\n"]) s))
      as [(os & accs & Hc & _) _].
    rewrite Hc. cbn [console with_outputs]. eexists. by rewrite <- !app_assoc.
  - rewrite (handle_fault_directory_fault r s cpt Hcur Hdir).
    cbn [final console with_outputs]. exists []. by rewrite app_nil_r.
Qed.

Lemma translate_store_absent s s' p v va pa :
  cr0 s' = cr0 s → cr3 s' = cr3 s → phys s' = <[p:=v]> (phys s) →
  present (read_phys (phys s) p) = false →
  translate s va = Some pa → translate s' va = Some pa.
Proof.
  unfold translate, paging_on. intros -> -> -> Hp.
  destruct (Z.testbit (cr0 s) 31); [|done]. by apply walk_insert_absent.
Qed.

Lemma read_miss_stores_dir m d pd pt n f :
  aligned d → aligned n → n ≠ d → 0 ≤ pd < 1024 → 0 ≤ pt < 1024 →
  read_phys (write_all (miss_stores d pd pt n f) m) (d + 4 * pd) = Z.lor n 3.
Proof.
  intros Hd Hn Hnd Hpd Hpt. unfold miss_stores. rewrite !write_all_app.
  assert (¬ in_page n (d + 4 * pd)) as Hout.
  { apply (aligned_pages_disjoint d n); [done..|]. unfold in_page. lia. }
  rewrite 2!(read_outside_page _ _ n) by (first [apply page_stores_in_page; lia | done]).
  by rewrite (read_page_stores 1 pd d d) by lia.
Qed.

Lemma read_miss_stores_table m d pd pt n f :
  0 ≤ pt < 1024 →
  read_phys (write_all (miss_stores d pd pt n f) m) (n + 4 * pt) = Z.lor f 3.
Proof.
  intros Hpt. unfold miss_stores. rewrite !write_all_app.
  by rewrite (read_page_stores 1 pt (window pd) n) by lia.
Qed.

Lemma read_miss_stores_zero m d pd pt n f i :
  0 ≤ i < 1024 → i ≠ pt →
  read_phys (write_all (miss_stores d pd pt n f) m) (n + 4 * i) = 0.
Proof.
  intros Hi Hne. unfold miss_stores. rewrite !write_all_app.
  rewrite read_write_all_outside.
  - by rewrite (read_page_stores 1024 0 (window pd) n) by lia.
  - cbn [page_stores]. repeat constructor. cbn. lia.
Qed.

Lemma read_miss_stores_other m d pd pt n f x :
  0 ≤ pd < 1024 → 0 ≤ pt < 1024 →
  x ≠ d + 4 * pd → ¬ in_page n x →
  read_phys (write_all (miss_stores d pd pt n f) m) x = read_phys m x.
Proof.
  intros Hpd Hpt Hx Hout. unfold miss_stores. rewrite !write_all_app.
  rewrite 2!(read_outside_page _ _ n) by (first [apply page_stores_in_page; lia | done]).
  cbn [page_stores write_all fold_left acc_pa acc_val]. by apply read_insert_ne.
Qed.

Lemma not_handled s o :
  o ≠ Puts "Page fault handled\n " →
  o ≠ Puts "Page fault handled successfully\n" →
  last (console s) = Some o → ¬ handled s.
Proof. intros H1 H2 Hc [H|H]; rewrite Hc in H; congruence. Qed.

(** The second run after a run that reported success. *)
Lemma second_fault {REGS} (r r' : REGS) d t0 s s1 :
  paging_inv d t0 s → pool_contract d t0 s →
  (∀ f kp, kernel_mem_pool s = Some (f :: kp) → wrap32 f ≠ 0 →
           frame_address f < 2 ^ 22) →
  handle_fault r s = Ret tt s1 → handled s1 →
  ∃ e pte,
    present e = true ∧ present pte = true
    ∧ handle_fault r' s1
      = Ret tt
          (with_outputs
             (fault_header (cr2 s) ++
              [Puts "Page directory entry for fault: "; Putui e; Puts "\n";
               Puts "Page table entry for fault: "; Putui pte; Puts "\n";
               Puts "Page fault handled successfully\n"]) s1).
Proof.
  intros H Hpool Hlowf Hrun Hdone.
  pose proof (handle_fault_inv r d t0 s H Hpool) as [H1 _].
  rewrite Hrun in H1. cbn [final] in H1.
  pose proof (inv_active _ _ _ H) as Hact.
  pose proof (inv_active _ _ _ H1) as Hact1.
  pose proof (inv_current _ _ _ H) as Hcur.
  pose proof (inv_current _ _ _ H1) as Hcur1.
  pose proof (inv_dir _ _ _ H) as Hd.
  pose proof (dir_index_range (cr2 s)) as Hpd.
  pose proof (tbl_index_range (cr2 s)) as Hpt.
  destruct (inv_kernel _ _ _ H) as (kp & Hk).
  destruct (inv_process _ _ _ H) as (pp & Hp).
  pose proof (Hpool kp Hk) as Hfresh.
  set (pd := dir_index (cr2 s)) in *. set (pt := tbl_index (cr2 s)) in *.
  assert (translate s (index (page_directory {| page_directory := d |}) pd)
          = Some (d + 4 * pd)) as Hdir.
  { cbn [page_directory]. rewrite index_aligned by done.
    by apply (act_identity _ _ Hact). }
  assert (∀ p,
    cr2 s1 = cr2 s →
    present (read_phys (phys s1) (d + 4 * pd)) = true →
    translate s1 (index (entry_frame_address (read_phys (phys s1) (d + 4 * pd))) pt)
    = Some p →
    present (read_phys (phys s1) p) = true →
    ∃ e pte,
    present e = true ∧ present pte = true
    ∧ handle_fault r' s1
      = Ret tt
          (with_outputs
             (fault_header (cr2 s) ++
              [Puts "Page directory entry for fault: "; Putui e; Puts "\n";
               Puts "Page table entry for fault: "; Putui pte; Puts "\n";
               Puts "Page fault handled successfully\n"]) s1)) as Hsecond.
  { intros p H2 He Ht1 Hpte.
    exists (read_phys (phys s1) (d + 4 * pd)), (read_phys (phys s1) p).
    split; [done|]. split; [done|].
    unfold pd, pt in *. rewrite <- H2 in *.
    assert (translate s1 (index (page_directory {| page_directory := d |})
                            (dir_index (cr2 s1)))
            = Some (d + 4 * dir_index (cr2 s1))) as Hdir1.
    { cbn [page_directory]. rewrite index_aligned by done.
      by apply (act_identity _ _ Hact1). }
    by apply (handle_fault_already_present r' s1 _ Hcur1 _ Hdir1 p). }
  clear Hact1 Hcur1.
  destruct (present (read_phys (phys s) (d + 4 * pd))) eqn:He.
  - destruct (translate s (index (entry_frame_address
        (read_phys (phys s) (d + 4 * pd))) pt)) as [p|] eqn:Htbl.
    + destruct (present (read_phys (phys s) p)) eqn:Hpte.
      * rewrite (handle_fault_already_present r s _ Hcur _ Hdir p Htbl He Hpte) in Hrun.
        injection Hrun as Hs1. rewrite <- Hs1 in Hsecond |- *.
        apply (Hsecond p); [reflexivity|exact He| |exact Hpte].
        by rewrite (translate_ext s) by reflexivity.
      * destruct (get_frames pp 1) as [fp pp'] eqn:Hget.
        destruct (decide (fp = 0)) as [->|Hfp].
        -- rewrite (handle_fault_no_page_frame r s _ Hcur _ Hdir p Htbl pp pp' He Hpte Hp Hget) in Hrun.
           injection Hrun as Hs1. exfalso. revert Hdone. rewrite <- Hs1.
           eapply not_handled;
             [| |cbn [console with_outputs with_process_pool]; rewrite last_app;
                 reflexivity]; done.
        -- rewrite (handle_fault_table_miss r s _ Hcur _ Hdir p Htbl pp fp pp' He Hpte Hp Hget Hfp) in Hrun.
           injection Hrun as Hs1. rewrite <- Hs1 in Hsecond |- *.
           assert (read_phys (<[p:=Z.lor (wrap32 (fp * PAGE_SIZE)) 3]> (phys s)) (d + 4 * pd)
                   = read_phys (phys s) (d + 4 * pd)) as Hsame
             by (by apply absent_kept_insert).
           apply (Hsecond p); [reflexivity| | |].
           ++ cbn. by rewrite Hsame.
           ++ cbn [phys with_outputs with_process_pool store_all write_all fold_left
                   acc_pa acc_val]. rewrite Hsame.
              eapply (translate_store_absent s); [reflexivity..|exact Hpte|exact Htbl].
           ++ cbn. rewrite read_insert_eq. apply present_lor3, aligned_frame.
    + by rewrite (handle_fault_table_fault r s _ Hcur _ Hdir He Htbl) in Hrun.
  - destruct kp as [|fk kp'].
    { rewrite (handle_fault_no_table_frame r s _ Hcur _ Hdir [] [] He Hk eq_refl) in Hrun.
      injection Hrun as Hs1. exfalso. revert Hdone. rewrite <- Hs1.
      eapply not_handled;
        [| |cbn [console with_outputs with_kernel_pool]; rewrite last_app;
            reflexivity]; done. }
    inversion Hfresh as [|? ? Hfk Hfresh']; subst.
    destruct (decide (wrap32 fk = 0)) as [Hz|Hnz].
    + assert (get_frames (fk :: kp') 1 = (0, kp')) as Hget by (cbn; by rewrite Hz).
      rewrite (handle_fault_no_table_frame r s _ Hcur _ Hdir _ kp' He Hk Hget) in Hrun.
      injection Hrun as Hs1. exfalso. revert Hdone. rewrite <- Hs1.
      eapply not_handled;
        [| |cbn [console with_outputs with_kernel_pool]; rewrite last_app;
            reflexivity]; done.
    + destruct Hfk as [Hz|[Hnd Hnt]]; [done|].
      destruct (get_frames pp 1) as [fp pp'] eqn:Hgetp.
      pose proof (Hlowf fk kp' Hk Hnz) as Hnlow.
      pose proof (frame_address_aligned fk) as Hn.
      rewrite (handle_fault_directory_miss r s d fk kp' pp fp pp' Hact He Hk Hnz Hnd Hp Hgetp)
        in Hrun.
      injection Hrun as Hs1. fold pd pt in Hs1.
      assert (read_phys (phys s1) (d + 4 * pd) = Z.lor (frame_address fk) 3) as E1.
      { rewrite <- Hs1. cbn [phys with_outputs with_process_pool with_kernel_pool store_all].
        by apply read_miss_stores_dir. }
      assert (read_phys (phys s1) (frame_address fk + 4 * pt)
              = Z.lor (wrap32 (PAGE_SIZE * fp)) 3) as E2.
      { rewrite <- Hs1. cbn [phys with_outputs with_process_pool with_kernel_pool store_all].
        by apply read_miss_stores_table. }
      apply (Hsecond (frame_address fk + 4 * pt)).
      * by rewrite <- Hs1.
      * rewrite E1. apply present_lor3, Hn.
      * rewrite E1, efa_lor3, index_aligned by done.
        apply (inv_low_identity d t0 s1 _ H1).
        destruct Hn as [? ?]. change (2 ^ 22) with 4194304 in *. zdiv.
      * rewrite E2. apply present_lor3, aligned_wrap_frame'.
Qed.


(** * The sample machine *)

Lemma writable_lor3 a : a mod 4096 = 0 → writable (Z.lor a 3) = true.
Proof.
  intros Ha. unfold writable. rewrite (flag_bit _ 1) by lia.
  rewrite Z.lor_spec. apply orb_true_r.
Qed.

Lemma entry_lor3 a :
  aligned a →
  entry_frame_address (Z.lor a 3) = a
  ∧ present (Z.lor a 3) = true ∧ writable (Z.lor a 3) = true.
Proof.
  intros Ha. split; [by apply efa_lor3|].
  split; [apply present_lor3|apply writable_lor3]; apply Ha.
Qed.

(** The sample machine satisfies the invariant and the pool contract. *)
Lemma sample_boot_inv : paging_inv 4096 8192 sample_boot.
Proof.
  pose proof (bring_up_inv (reset ∅) 1 2 [3; 4] [1024; 1025] 0) as H.
  cbv zeta in H.
  change (frame_address 1) with 4096 in H.
  change (frame_address 2) with 8192 in H.
  apply H; by vm_compute.
Qed.

Lemma sample_boot_pool : pool_contract 4096 8192 sample_boot.
Proof.
  pose proof (bring_up_pool (reset ∅) 1 2 [3; 4] [1024; 1025] 0) as H.
  cbv zeta in H.
  change (frame_address 1) with 4096 in H.
  change (frame_address 2) with 8192 in H.
  apply H; [reflexivity|by vm_compute|by vm_compute|].
  constructor; [right; split; by vm_compute|].
  constructor; [right; split; by vm_compute|].
  constructor.
Qed.

Lemma inv_with_process_pool d t0 s pp :
  paging_inv d t0 s → paging_inv d t0 (with_process_pool (Some pp) s).
Proof.
  intros H. apply (inv_frame d t0 s); try done; [apply H|by exists pp].
Qed.

Lemma sample_fault_inv : paging_inv 4096 8192 sample_fault.
Proof. apply inv_with_cr2, sample_boot_inv. Qed.

(** * What a run takes and what it leaves alone *)

Lemma drop_pool_0 (p : option ContFramePool) : drop 0 <$> p = p.
Proof. by destruct p. Qed.

Lemma drop_pool_add k k' (p : option ContFramePool) :
  drop k' <$> (drop k <$> p) = drop (k + k') <$> p.
Proof. destruct p as [l|]; [|done]. cbn. by rewrite drop_drop. Qed.

Lemma takes_refl a b s : takes a b s s.
Proof.
  split; [done|]. split; exists 0%nat; (split; [lia|by rewrite drop_pool_0]).
Qed.

Lemma takes_trans a b a' b' s1 s2 s3 :
  takes a b s1 s2 → takes a' b' s2 s3 → takes (a + a') (b + b') s1 s3.
Proof.
  intros (Hc & (k & Hk & Hkp) & (p & Hp & Hpp)) (Hc' & (k' & Hk' & Hkp') & (p' & Hp' & Hpp')).
  split; [congruence|]. split.
  - exists (k + k')%nat. split; [lia|]. by rewrite Hkp', Hkp, drop_pool_add.
  - exists (p + p')%nat. split; [lia|]. by rewrite Hpp', Hpp, drop_pool_add.
Qed.

Lemma takes_mono a b a' b' s s' :
  (a ≤ a')%nat → (b ≤ b')%nat → takes a b s s' → takes a' b' s s'.
Proof.
  intros Ha Hb (Hc & (k & Hk & Hkp) & (p & Hp & Hpp)).
  split; [done|]. split; [exists k|exists p]; (split; [lia|done]).
Qed.

Lemma budget_bind {A B} a b a' b' (c : M A) (k : A → M B) :
  budget a b c → (∀ x, budget a' b' (k x)) → budget (a + a') (b + b') (bind c k).
Proof.
  intros Hc Hk s. unfold bind. pose proof (Hc s) as H.
  destruct (c s) as [x s'|va s'|s']; cbn [final] in *.
  - apply (takes_trans a b a' b' s s'); [done|apply Hk].
  - apply (takes_mono a b); [lia..|done].
  - apply (takes_mono a b); [lia..|done].
Qed.

Lemma budget_bind_quiet {A B} a b (c : M A) (k : A → M B) :
  budget 0 0 c → (∀ x, budget a b (k x)) → budget a b (bind c k).
Proof. intros Hc Hk. by apply (budget_bind 0 0 a b). Qed.

Lemma budget_quiet {A} a b (c : M A) :
  (∀ s, control (final (c s)) = control s
        ∧ kernel_mem_pool (final (c s)) = kernel_mem_pool s
        ∧ process_mem_pool (final (c s)) = process_mem_pool s) →
  budget a b c.
Proof.
  intros H s. destruct (H s) as (Hc & Hk & Hp).
  split; [done|]. split; exists 0%nat; (split; [lia|by rewrite drop_pool_0]).
Qed.

Lemma budget_ret {A} a b (x : A) : budget a b (ret x).
Proof. by apply budget_quiet. Qed.

Lemma budget_puts a b msg : budget a b (puts msg).
Proof. by apply budget_quiet. Qed.

Lemma budget_putui a b n : budget a b (putui n).
Proof. by apply budget_quiet. Qed.

Lemma budget_read_cr2 a b : budget a b read_cr2.
Proof. by apply budget_quiet. Qed.

Lemma budget_load a b va : budget a b (load_word va).
Proof. apply budget_quiet. intros s. unfold load_word. by destruct (translate s va). Qed.

Lemma budget_store a b va v : budget a b (store_word va v).
Proof. apply budget_quiet. intros s. unfold store_word. by destruct (translate s va). Qed.

Lemma get_frames_drop p n : (get_frames p n).2 = drop 1 p.
Proof. by destruct p. Qed.

Lemma budget_kernel_get_frames a b n : budget (S a) b (kernel_get_frames n).
Proof.
  intros s. unfold kernel_get_frames.
  destruct (kernel_mem_pool s) as [p|] eqn:Hk; [|apply takes_refl].
  pose proof (get_frames_drop p n) as Hd. destruct (get_frames p n) as [f p'].
  cbn in Hd. subst p'. split; [done|]. split.
  - exists 1%nat. split; [lia|]. cbn. by rewrite Hk.
  - exists 0%nat. split; [lia|]. cbn. by rewrite drop_pool_0.
Qed.

Lemma budget_process_get_frames a b n : budget a (S b) (process_get_frames n).
Proof.
  intros s. unfold process_get_frames.
  destruct (process_mem_pool s) as [p|] eqn:Hk; [|apply takes_refl].
  pose proof (get_frames_drop p n) as Hd. destruct (get_frames p n) as [f p'].
  cbn in Hd. subst p'. split; [done|]. split.
  - exists 0%nat. split; [lia|]. cbn. by rewrite drop_pool_0.
  - exists 1%nat. split; [lia|]. cbn. by rewrite Hk.
Qed.

Lemma budget_bind_kernel {B} a b n (k : Z → M B) :
  (∀ x, budget a b (k x)) → budget (S a) b (bind (kernel_get_frames n) k).
Proof.
  intros Hk. apply (budget_bind 1 0 a b); [apply budget_kernel_get_frames|done].
Qed.

Lemma budget_bind_process {B} a b n (k : Z → M B) :
  (∀ x, budget a b (k x)) → budget a (S b) (bind (process_get_frames n) k).
Proof.
  intros Hk. replace (S b) with (1 + b)%nat by lia.
  apply (budget_bind 0 1 a b); [apply budget_process_get_frames|done].
Qed.

Lemma budget_for_loop a b n : ∀ i body,
  (∀ j, budget 0 0 (body j)) → budget a b (for_loop n i body).
Proof.
  induction n as [|n IH]; intros i body Hbody; cbn [for_loop].
  - apply budget_ret.
  - apply budget_bind_quiet; [apply Hbody|]. intros _. by apply IH.
Qed.

Lemma budget_for_loop_var {A} a b n : ∀ i body (x : A),
  (∀ j y, budget 0 0 (body j y)) → budget a b (for_loop_var n i body x).
Proof.
  induction n as [|n IH]; intros i body x Hbody; cbn [for_loop_var].
  - apply budget_ret.
  - apply budget_bind_quiet; [apply Hbody|]. intros y. by apply IH.
Qed.

(** Solves [budget] goals for code put together from the primitive
    commands. *)
Ltac budget_step :=
  lazymatch goal with
  | |- budget _ _ (bind (kernel_get_frames _) _) => apply budget_bind_kernel; intros ?
  | |- budget _ _ (bind (process_get_frames _) _) => apply budget_bind_process; intros ?
  | |- budget _ _ (bind _ _) => apply budget_bind_quiet; [|intros ?]
  | |- budget _ _ (if ?b then _ else _) => destruct b
  | |- budget _ _ (puts _) => apply budget_puts
  | |- budget _ _ (putui _) => apply budget_putui
  | |- budget _ _ read_cr2 => apply budget_read_cr2
  | |- budget _ _ (load_word _) => apply budget_load
  | |- budget _ _ (store_word _ _) => apply budget_store
  | |- budget _ _ (for_loop _ _ _) => apply budget_for_loop; intros ?
  | |- budget _ _ (for_loop_var _ _ _ _) => apply budget_for_loop_var; intros ? ?
  | |- budget _ _ (ret _) => apply budget_ret
  end.

Lemma handle_fault_takes {REGS} (r : REGS) s :
  takes 1 1 s (final (handle_fault r s)).
Proof.
  unfold handle_fault. destruct (current_page_table s) as [cpt|].
  - unbind. cbv zeta.
    refine ((_ : budget 1 1 _) s). clear s.
    repeat budget_step.
  - by apply (budget_puts 1 1).
Qed.

Lemma PageTable_new_takes s : takes 2 0 s (final (PageTable_new s)).
Proof.
  refine ((_ : budget 2 0 _) s). clear s.
  unfold PageTable_new. unbind. repeat budget_step.
Qed.

Lemma takes_control a b s s' :
  takes a b s s' →
  cr0 s' = cr0 s ∧ cr3 s' = cr3 s ∧ current_page_table s' = current_page_table s.
Proof. intros [Hc _]. unfold control in Hc. by injection Hc as -> _ -> -> _ _. Qed.

Lemma coherent_same s s' :
  cr3 s' = cr3 s → current_page_table s' = current_page_table s →
  coherent s → coherent s'.
Proof. intros H3 Hc H cpt. rewrite H3, Hc. apply H. Qed.

(** * Commands that ignore the shared size *)

Lemma ignores_bind {A B} f (c : M A) (k : A → M B) :
  ignores f c → (∀ x, ignores f (k x)) → ignores f (bind c k).
Proof.
  intros Hc Hk s. unfold bind. rewrite Hc.
  destruct (c s) as [x s'|va s'|s']; cbn [outcome_map]; [apply Hk|done..].
Qed.

Lemma ignores_for_loop f n : ∀ i body,
  (∀ j, ignores f (body j)) → ignores f (for_loop n i body).
Proof.
  induction n as [|n IH]; intros i body Hbody; cbn [for_loop]; [done|].
  apply ignores_bind; [apply Hbody|]. intros _. by apply IH.
Qed.

Lemma ignores_for_loop_var {A} f n : ∀ i body (x : A),
  (∀ j y, ignores f (body j y)) → ignores f (for_loop_var n i body x).
Proof.
  induction n as [|n IH]; intros i body x Hbody; cbn [for_loop_var]; [done|].
  apply ignores_bind; [apply Hbody|]. intros y. by apply IH.
Qed.

Section shared_size.
Context (sz : Z).

Lemma translate_shared_size s va :
  translate (with_shared_size sz s) va = translate s va.
Proof. reflexivity. Qed.

Lemma ignores_load va : ignores (with_shared_size sz) (load_word va).
Proof.
  intros s. unfold load_word. rewrite translate_shared_size.
  by destruct (translate s va).
Qed.

Lemma ignores_store va v : ignores (with_shared_size sz) (store_word va v).
Proof.
  intros s. unfold store_word. rewrite translate_shared_size.
  by destruct (translate s va).
Qed.

Lemma ignores_kernel_get_frames n : ignores (with_shared_size sz) (kernel_get_frames n).
Proof.
  intros s. unfold kernel_get_frames. cbn [kernel_mem_pool with_shared_size].
  destruct (kernel_mem_pool s) as [p|]; [|done]. by destruct (get_frames p n).
Qed.

Lemma ignores_process_get_frames n : ignores (with_shared_size sz) (process_get_frames n).
Proof.
  intros s. unfold process_get_frames. cbn [process_mem_pool with_shared_size].
  destruct (process_mem_pool s) as [p|]; [|done]. by destruct (get_frames p n).
Qed.
End shared_size.

Ltac ignores_step :=
  lazymatch goal with
  | |- ignores _ (bind _ _) => apply ignores_bind; [|intros ?]
  | |- ignores _ (if ?b then _ else _) => destruct b
  | |- ignores _ (load_word _) => apply ignores_load
  | |- ignores _ (store_word _ _) => apply ignores_store
  | |- ignores _ (kernel_get_frames _) => apply ignores_kernel_get_frames
  | |- ignores _ (process_get_frames _) => apply ignores_process_get_frames
  | |- ignores _ (for_loop _ _ _) => apply ignores_for_loop; intros ?
  | |- ignores _ (for_loop_var _ _ _ _) => apply ignores_for_loop_var; intros ? ?
  | |- ignores _ _ => by intros ?
  end.

Lemma PageTable_new_ignores sz : ignores (with_shared_size sz) PageTable_new.
Proof. unfold PageTable_new. unbind. repeat ignores_step. Qed.

Lemma handle_fault_ignores {REGS} (r : REGS) sz :
  ignores (with_shared_size sz) (handle_fault r).
Proof.
  intros s. unfold handle_fault. cbn [current_page_table with_shared_size].
  destruct (current_page_table s) as [cpt|]; [|done].
  unbind. cbv zeta.
  refine ((_ : ignores (with_shared_size sz) _) s). clear s.
  repeat ignores_step.
Qed.

Lemma load_ignores pt sz : ignores (with_shared_size sz) (load pt).
Proof. unfold load. unbind. repeat ignores_step. Qed.

Lemma enable_paging_ignores sz : ignores (with_shared_size sz) enable_paging.
Proof. by intros s. Qed.

(** * The boot sequence when an allocation fails *)

Lemma for_loop_S n i body :
  for_loop (S n) i body = bind (body i) (fun _ => for_loop n (i + 1) body).
Proof. reflexivity. Qed.

Lemma frame_address_null f : wrap32 f = 0 → frame_address f = 0.
Proof. unfold frame_address. by intros ->. Qed.

(** A directory whose slot is not present maps nothing of its region. *)
Lemma walk_absent m root va :
  present (read_phys m (entry_frame_address root + 4 * dir_index va)) = false →
  walk m root va = None.
Proof. unfold walk. by intros ->. Qed.

Lemma walk_present m root va e pte :
  read_phys m (entry_frame_address root + 4 * dir_index va) = e →
  present e = true →
  read_phys m (entry_frame_address e + 4 * tbl_index va) = pte →
  walk m root va
  = if present pte then Some (entry_frame_address pte + page_offset va) else None.
Proof. unfold walk. by intros -> -> ->. Qed.

(** The constructor with paging off when the first answer of the kernel
    pool is 0, whatever the second is: it returns an object whose
    directory is null, and has touched neither [cr0], [cr3], the active
    table nor the process pool. *)
Lemma PageTable_new_null s kp kp1 :
  paging_on s = false →
  kernel_mem_pool s = Some kp → get_frames kp 1 = (0, kp1) →
  ∃ s1, PageTable_new s = Ret {| page_directory := 0 |} s1
    ∧ cr0 s1 = cr0 s ∧ cr3 s1 = cr3 s
    ∧ current_page_table s1 = current_page_table s
    ∧ ∃ os, console s1 = (console s ++ os)%list.
Proof.
  intros Hoff Hk Hget1.
  assert (aligned 0) as Hz by (split; [lia|reflexivity]).
  destruct (get_frames kp1 1) as [f2 kp2] eqn:Hget2.
  destruct (decide (f2 = 0)) as [->|Hf2].
  - eexists. split.
    { unfold PageTable_new.
      change (Z.to_nat ENTRIES_PER_PAGE) with 1024%nat.
      unbind. step_pool. change (wrap32 (0 * PAGE_SIZE)) with 0.
      step_by ltac:(apply (for_loop_store 1024 0 _ 0 0 (fun _ => 0));
                    [by apply (paging_off_maps s)|lia|lia]).
      step_pool. cbn [Z.eqb]. step. unfold ret. reflexivity. }
    fields. split; [done|]. split; [done|]. split; [done|]. by eexists.
  - eexists. split.
    { unfold PageTable_new.
      change (Z.to_nat ENTRIES_PER_PAGE) with 1024%nat.
      change (ENTRIES_PER_PAGE - 1) with 1023.
      unbind. step_pool. change (wrap32 (0 * PAGE_SIZE)) with 0.
      step_by ltac:(apply (for_loop_store 1024 0 _ 0 0 (fun _ => 0));
                    [by apply (paging_off_maps s)|lia|lia]).
      step_pool. apply Z.eqb_neq in Hf2. rewrite Hf2.
      pose proof (aligned_frame f2) as Ht.
      step_by ltac:(apply (for_loop_var_store 1024 0 _ _ (wrap32 (f2 * PAGE_SIZE))
                             (fun i => Z.lor (i * PAGE_SIZE) 3) 0);
                    [by apply (paging_off_maps s)|lia|lia|lia|lia|
                     intros j Hj; unfold PAGE_SIZE; f_equal; lia]).
      step_by ltac:(apply (run_store_page _ 0 0); [by apply (paging_off_maps s)|lia]).
      step_by ltac:(apply (for_loop_store 1023 1 _ 0 0 (fun _ => 2));
                    [by apply (paging_off_maps s)|lia|lia]).
      step_by ltac:(apply (run_store_page _ 0 0); [by apply (paging_off_maps s)|lia]).
      step. unfold ret. reflexivity. }
    fields. split; [done|]. split; [done|]. split; [done|]. by eexists.
Qed.

(** With no table active, faults change nothing but [cr2] and the
    console. *)
Lemma faults_no_table {REGS} (l : list (REGS * Z)) : ∀ s,
  current_page_table s = None →
  console (faults l s)
  = (console s ++ replicate (length l) (Puts "Error: No current page table loaded\n"))%list
  ∧ phys (faults l s) = phys s ∧ stores (faults l s) = stores s
  ∧ cr0 (faults l s) = cr0 s ∧ cr3 (faults l s) = cr3 s
  ∧ current_page_table (faults l s) = None
  ∧ kernel_mem_pool (faults l s) = kernel_mem_pool s
  ∧ process_mem_pool (faults l s) = process_mem_pool s.
Proof.
  induction l as [|[r a] l IH]; intros s Hcur; cbn [faults length replicate].
  - by rewrite app_nil_r.
  - rewrite (handle_fault_no_table r (with_cr2 a s)) by exact Hcur. cbn [final].
    destruct (IH (with_outputs [Puts "Error: No current page table loaded\n"]
                    (with_cr2 a s)) Hcur)
      as (Hc & Hm & Hs & H0 & H3 & Hn & Hk & Hp).
    rewrite Hc, Hm, Hs, H0, H3, Hn, Hk, Hp. fields.
    by rewrite <- app_assoc.
Qed.

(** * The hit path of the handler *)

Lemma active_directory s d :
  active d s →
  translate s (index (page_directory {| page_directory := d |}) (dir_index (cr2 s)))
  = Some (d + 4 * dir_index (cr2 s)).
Proof.
  intros Hact. cbn [page_directory].
  rewrite index_aligned by (apply (act_aligned _ _ Hact) || apply dir_index_range).
  apply (act_identity _ _ Hact), dir_index_range.
Qed.

Lemma index_entry e i : 0 ≤ i < 1024 → index (entry_frame_address e) i = entry_frame_address e + 4 * i.
Proof. intros Hi. apply index_aligned; [apply efa_is_aligned|done]. Qed.

(** Lines 182-213 when the table can be read at its own address and has no
    entry for the page. *)
Lemma handle_fault_table_miss_active {REGS} (r : REGS) s d pp fp pp' :
  active d s →
  let a := cr2 s in
  let e := read_phys (phys s) (d + 4 * dir_index a) in
  let p := entry_frame_address e + 4 * tbl_index a in
  let f := wrap32 (fp * PAGE_SIZE) in
  present e = true →
  translate s p = Some p →
  present (read_phys (phys s) p) = false →
  process_mem_pool s = Some pp → get_frames pp 1 = (fp, pp') → fp ≠ 0 →
  handle_fault r s
  = Ret tt
      (with_outputs
         (fault_header a ++
          [Puts "Page directory entry for fault: "; Putui e; Puts "\n";
           Puts "Page table entry for fault: "; Putui (read_phys (phys s) p); Puts "\n";
           Puts "Allocating new frame for the page\n";
           Puts "New frame allocated at address: "; Putui f; Puts "\n";
           Puts "Page fault handled successfully\n"])
         (with_process_pool (Some pp') (store_all [Access p p (Z.lor f 3)] s))).
Proof.
  intros Hact a e p f He Htbl Hpte Hp Hget Hfp.
  pose proof (tbl_index_range a) as Hpt.
  assert (translate s (index (entry_frame_address e) (tbl_index a)) = Some p) as Htbl'
    by (rewrite index_entry by done; exact Htbl).
  rewrite (handle_fault_table_miss r s _ (act_current _ _ Hact) _
             (active_directory s d Hact) p Htbl' pp fp pp' He Hpte Hp Hget Hfp).
  cbv zeta. by rewrite index_entry.
Qed.

(** * More on the sample machine *)

Lemma phys_with_cr2 a s : phys (with_cr2 a s) = phys s.
Proof. reflexivity. Qed.

Lemma sample_boot_phys : phys sample_boot = write_all (built 4096 8192) ∅.
Proof.
  pose proof (bring_up_state (reset ∅) 1 2 [3; 4] [1024; 1025] 0) as H.
  cbv zeta in H.
  change (frame_address 1) with 4096 in H.
  change (frame_address 2) with 8192 in H.
  unfold sample_boot. rewrite H; [reflexivity|reflexivity|by vm_compute|by vm_compute].
Qed.

(** * A second table, constructed while the first is active *)

(** With the first table active, a frame below 4 MiB is mapped onto
    itself as long as the directory and the first table are as they
    were. *)
Lemma identity_maps d t0 s S q :
  paging_inv d t0 s → cr0 S = cr0 s → cr3 S = cr3 s →
  (∀ x, in_page d x ∨ in_page t0 x → read_phys (phys S) x = read_phys (phys s) x) →
  aligned q → q < 2 ^ 22 → q ≠ d → q ≠ t0 →
  maps_page S q q.
Proof.
  intros H H0 H3 Hsame Hq Hlow Hqd Hqt.
  pose proof (inv_dir _ _ _ H) as Hd. pose proof (inv_table _ _ _ H) as Ht.
  pose proof (tbl_index_range q) as Hi.
  assert (dir_index q = 0) as Hpd.
  { destruct Hq as [? ?]. rewrite dir_index_spec. change (2 ^ 22) with 4194304 in *. zdiv. }
  assert (tbl_index q * PAGE_SIZE = q) as Hpt.
  { destruct Hq as [? ?]. rewrite tbl_index_spec. unfold PAGE_SIZE.
    change (2 ^ 22) with 4194304 in *. zdiv. }
  assert (entry_frame_address (cr3 S) + 4 * dir_index q = d) as E1.
  { rewrite H3, (inv_cr3 _ _ _ H), efa_aligned, Hpd by done. lia. }
  assert (read_phys (phys S) d = Z.lor t0 3) as E2.
  { rewrite Hsame; [apply H|]. left. unfold in_page. lia. }
  assert (read_phys (phys S) (t0 + 4 * tbl_index q) = Z.lor q 3) as E3.
  { rewrite Hsame; [|right; unfold in_page; lia].
    by rewrite (inv_identity _ _ _ H), Hpt. }
  apply maps_page_walk.
  - unfold paging_on. rewrite H0. apply H.
  - exact Hq.
  - rewrite E1, E2. apply present_lor3, Ht.
  - rewrite E1, E2, efa_lor3, E3 by done. apply present_lor3, Hq.
  - rewrite E1, E2, efa_lor3, E3 by done. by apply efa_lor3.
  - rewrite E1. apply (aligned_pages_disjoint d q); [done..|]. unfold in_page. lia.
  - rewrite E1, E2, efa_lor3 by done.
    apply (aligned_pages_disjoint t0 q); [done..|]. unfold in_page. lia.
Qed.

(** The words of the directory and of the first table are as in [s] after
    stores into the frames at [q1] and [q2]. *)
Ltac kept_outside d t0 q1 q2 :=
  let x := fresh "x" in
  let Hx := fresh "Hx" in
  let H1 := fresh "Hout" in
  let H2 := fresh "Hout" in
  intros x Hx;
  assert (¬ in_page q1 x) as H1
    by (destruct Hx; [apply (aligned_pages_disjoint d q1)
                     |apply (aligned_pages_disjoint t0 q1)]; done);
  assert (¬ in_page q2 x) as H2
    by (destruct Hx; [apply (aligned_pages_disjoint d q2)
                     |apply (aligned_pages_disjoint t0 q2)]; done);
  proj;
  repeat first
    [ rewrite (fun l m Hl => read_outside_page l m q1 x Hl H1)
        by (apply page_stores_in_page; lia)
    | rewrite (fun l m Hl => read_outside_page l m q2 x Hl H2)
        by (apply page_stores_in_page; lia) ];
  reflexivity.

(** The constructor with paging on, run on two frames of the
    identity-mapped region that the active table does not occupy: it does
    the stores it does with paging off. *)
Lemma PageTable_new_second s d t0 fd ft kp :
  paging_inv d t0 s →
  kernel_mem_pool s = Some (fd :: ft :: kp) →
  wrap32 ft ≠ 0 →
  let d' := frame_address fd in
  let t' := frame_address ft in
  d' < 2 ^ 22 → t' < 2 ^ 22 → d' ≠ d → d' ≠ t0 → t' ≠ d → t' ≠ t0 →
  PageTable_new s
  = Ret {| page_directory := d' |}
      (with_outputs [Puts "Page directory with 4MB direct-mapped allocated\n"]
         (with_kernel_pool (Some kp) (store_all (built d' t') s))).
Proof.
  intros H Hk Hft d' t' Hdl Htl Hdd Hdt Htd Htt. unfold PageTable_new.
  pose proof (inv_dir _ _ _ H) as Hd. pose proof (inv_table _ _ _ H) as Ht.
  pose proof (frame_address_aligned fd) as Hd'. fold d' in Hd'.
  pose proof (frame_address_aligned ft) as Ht'. fold t' in Ht'.
  change (Z.to_nat ENTRIES_PER_PAGE) with 1024%nat.
  change (ENTRIES_PER_PAGE - 1) with 1023.
  unbind. step_pool. change (wrap32 (wrap32 fd * PAGE_SIZE)) with d'.
  step_by ltac:(apply (for_loop_store 1024 0 _ d' d' (fun _ => 0));
                [apply (identity_maps d t0 s); [done|reflexivity|reflexivity
                   |kept_outside d t0 d' t'|done..]|lia|lia]).
  step_pool. apply Z.eqb_neq in Hft. rewrite Hft.
  change (wrap32 (wrap32 ft * PAGE_SIZE)) with t'.
  step_by ltac:(apply (for_loop_var_store 1024 0 _ t' t'
                         (fun i => Z.lor (i * PAGE_SIZE) 3) 0);
                [apply (identity_maps d t0 s); [done|reflexivity|reflexivity
                   |kept_outside d t0 d' t'|done..]|lia|lia|lia|lia|
                 intros j Hj; unfold PAGE_SIZE; f_equal; lia]).
  step_by ltac:(apply (run_store_page _ d' d');
                [apply (identity_maps d t0 s); [done|reflexivity|reflexivity
                   |kept_outside d t0 d' t'|done..]|lia]).
  step_by ltac:(apply (for_loop_store 1023 1 _ d' d' (fun _ => 2));
                [apply (identity_maps d t0 s); [done|reflexivity|reflexivity
                   |kept_outside d t0 d' t'|done..]|lia|lia]).
  step_by ltac:(apply (run_store_page _ d' d');
                [apply (identity_maps d t0 s); [done|reflexivity|reflexivity
                   |kept_outside d t0 d' t'|done..]|lia]).
  step. unfold ret. f_equal. unfold built. same_state.
Qed.

(** * Mappings are never changed *)

Lemma pool_addresses_pop kp f kp' :
  get_frames kp 1 = (f, kp') →
  pool_addresses kp
  = if decide (f = 0) then pool_addresses kp'
    else wrap32 (f * PAGE_SIZE) :: pool_addresses kp'.
Proof.
  destruct kp as [|fk kp0]; cbn [get_frames]; intros [= <- <-]; [done|].
  unfold pool_addresses. case_decide as Hz.
  - by rewrite filter_cons_False by (intros ?; done).
  - by rewrite filter_cons_True by done.
Qed.

Lemma process_pool_pop (P : Z → Prop) pp fp pp' :
  get_frames pp 1 = (fp, pp') →
  Forall (fun f => P (frame_address f)) pp →
  Forall (fun f => P (frame_address f)) pp'
  ∧ (fp ≠ 0 → P (wrap32 (fp * PAGE_SIZE))).
Proof.
  destruct pp as [|f0 pp0]; cbn [get_frames]; intros [= <- <-] Hall; [done|].
  inversion Hall; subst. split; [done|]. by intros _.
Qed.

Lemma free_frame_pop d s pp fp pp' n :
  get_frames pp 1 = (fp, pp') → free_frame d s pp n →
  Forall (fun f => frame_address f ≠ n) pp'
  ∧ (fp ≠ 0 → wrap32 (fp * PAGE_SIZE) ≠ n).
Proof.
  intros Hget [_ Hpp].
  apply (process_pool_pop (fun a => a ≠ n) pp fp pp' Hget Hpp).
Qed.

(** The state differs from [s] in the console and in the pools at most. *)
Lemma active_same d s s' :
  active d s → phys s' = phys s → cr0 s' = cr0 s → cr3 s' = cr3 s →
  current_page_table s' = current_page_table s →
  active d s'.
Proof.
  intros H Hm H0 H3 Hc. split.
  - unfold paging_on. rewrite H0. apply H.
  - rewrite Hc. apply H.
  - rewrite H3. apply H.
  - apply H.
  - rewrite Hm. apply H.
  - intros i Hi. rewrite (translate_ext s) by done. by apply H.
Qed.

Lemma active_kept d s s' :
  active d s → cr0 s' = cr0 s → cr3 s' = cr3 s →
  current_page_table s' = current_page_table s →
  read_phys (phys s') (d + 4 * 1023) = read_phys (phys s) (d + 4 * 1023) →
  (∀ va pa, translate s va = Some pa → translate s' va = Some pa) →
  active d s'.
Proof.
  intros H H0 H3 Hc Hrec Htr. split.
  - unfold paging_on. rewrite H0. apply H.
  - rewrite Hc. apply H.
  - rewrite H3. apply H.
  - apply H.
  - rewrite Hrec. apply H.
  - intros i Hi. apply Htr. by apply H.
Qed.

Lemma unused_kept d s s' kp pp kp' pp' :
  kernel_mem_pool s' = Some kp' → process_mem_pool s' = Some pp' →
  NoDup (pool_addresses kp') →
  Forall (free_frame d s pp) (pool_addresses kp') →
  (∀ n, free_frame d s pp n → Forall (fun f => frame_address f ≠ n) pp') →
  (∀ n i, n ∈ pool_addresses kp' → free_frame d s pp n → 0 ≤ i < 1024 →
     present (read_phys (phys s') (d + 4 * i)) = true →
     entry_frame_address (read_phys (phys s') (d + 4 * i)) ≠ n) →
  kernel_mem_pool s = Some kp →
  unused_frames d s'.
Proof.
  intros Hk' Hp' Hnd Hfree Hpp Hdir _. exists kp', pp'.
  split; [done|]. split; [done|]. split; [done|].
  apply Forall_forall. intros n Hn.
  pose proof (proj1 (Forall_forall _ _) Hfree n Hn) as Hfn.
  split; [|by apply Hpp].
  intros i Hi. by apply Hdir.
Qed.

(** The stores of a resolved directory miss change no walk that
    succeeded, when the new table's frame was free. *)
Lemma miss_keeps_walks m d pd pt n f va pa :
  aligned d → aligned n → n ≠ d → 0 ≤ pd < 1024 → 0 ≤ pt < 1024 →
  present (read_phys m (d + 4 * pd)) = false →
  (∀ i, 0 ≤ i < 1024 → present (read_phys m (d + 4 * i)) = true →
        entry_frame_address (read_phys m (d + 4 * i)) ≠ n) →
  walk m d va = Some pa →
  walk (write_all (miss_stores d pd pt n f) m) d va = Some pa.
Proof.
  intros Hd Hn Hnd Hpd Hpt He Hfree. unfold walk. rewrite efa_aligned by done.
  pose proof (dir_index_range va) as Hi. pose proof (tbl_index_range va) as Hj.
  set (m' := write_all (miss_stores d pd pt n f) m).
  set (e1 := read_phys m (d + 4 * dir_index va)).
  destruct (present e1) eqn:H1; [|done].
  set (a2 := entry_frame_address e1 + 4 * tbl_index va).
  destruct (present (read_phys m a2)) eqn:H2; [|done].
  intros Hpa.
  assert (read_phys m' (d + 4 * dir_index va) = e1) as E1.
  { apply read_miss_stores_other; [done..| |].
    - intros Heq. fold e1 in H1. unfold e1 in H1. rewrite Heq in H1. congruence.
    - apply (aligned_pages_disjoint d n); [done..|]. unfold in_page. lia. }
  rewrite E1, H1. fold a2.
  assert (read_phys m' a2 = read_phys m a2) as E2.
  { apply read_miss_stores_other; [done..| |].
    - intros Heq. rewrite Heq in H2. congruence.
    - apply (aligned_pages_disjoint (entry_frame_address e1) n);
        [apply efa_is_aligned|done|by apply Hfree|].
      unfold in_page, a2. lia. }
  by rewrite E2, H2.
Qed.

(** One run of the handler, whatever its path. *)
Lemma handle_fault_stable {REGS} (r : REGS) d s :
  active d s → unused_frames d s →
  active d (final (handle_fault r s))
  ∧ unused_frames d (final (handle_fault r s))
  ∧ ∀ va pa, translate s va = Some pa →
      translate (final (handle_fault r s)) va = Some pa.
Proof.
  intros Hact (kp & pp & Hk & Hp & Hnd & Hfree).
  pose proof (act_current _ _ Hact) as Hcur.
  pose proof (act_aligned _ _ Hact) as Hd.
  pose proof (act_paging _ _ Hact) as Hon. unfold paging_on in Hon.
  pose proof (dir_index_range (cr2 s)) as Hpd.
  pose proof (tbl_index_range (cr2 s)) as Hpt.
  pose proof (active_directory s d Hact) as Hdir.
  assert (∀ s', phys s' = phys s → cr0 s' = cr0 s → cr3 s' = cr3 s →
            current_page_table s' = current_page_table s →
            kernel_mem_pool s' = Some kp ∨
              (∃ f, get_frames kp 1 = (f, drop 1 kp) ∧ f = 0
                    ∧ kernel_mem_pool s' = Some (drop 1 kp)) →
            process_mem_pool s' = Some pp ∨
              (∃ f, get_frames pp 1 = (f, drop 1 pp)
                    ∧ process_mem_pool s' = Some (drop 1 pp)) →
            active d s' ∧ unused_frames d s'
            ∧ ∀ va pa, translate s va = Some pa → translate s' va = Some pa)
    as Hquiet.
  { intros s' Hm H0 H3 Hc Hk' Hp'.
    split; [by apply (active_same d s)|]. split; [|by intros va pa; rewrite (translate_ext s s')].
    assert (∃ kp', kernel_mem_pool s' = Some kp' ∧ pool_addresses kp' = pool_addresses kp)
      as (kp' & Hkp' & Hsame).
    { destruct Hk' as [Hk'|(f & Hget & -> & Hk')]; [by exists kp|].
      exists (drop 1 kp). split; [done|].
      by rewrite (pool_addresses_pop kp 0 (drop 1 kp) Hget). }
    assert (∃ pp', process_mem_pool s' = Some pp'
                   ∧ ∀ n, free_frame d s pp n → Forall (fun f => frame_address f ≠ n) pp')
      as (pp' & Hpp' & Hsub).
    { destruct Hp' as [Hp'|(f & Hget & Hp')].
      - exists pp. split; [done|]. by intros n [_ ?].
      - exists (drop 1 pp). split; [done|]. intros n Hn.
        apply (free_frame_pop d s pp f (drop 1 pp) n Hget Hn). }
    apply (unused_kept d s s' kp pp kp' pp'); try done.
    - by rewrite Hsame.
    - by rewrite Hsame.
    - intros n i _ [Hn _] Hi. rewrite Hm. by apply Hn. }
  destruct (present (read_phys (phys s) (d + 4 * dir_index (cr2 s)))) eqn:He.
  - destruct (translate s (index (entry_frame_address
        (read_phys (phys s) (d + 4 * dir_index (cr2 s)))) (tbl_index (cr2 s))))
      as [p|] eqn:Htbl.
    + destruct (present (read_phys (phys s) p)) eqn:Hpte.
      * rewrite (handle_fault_already_present r s _ Hcur _ Hdir p Htbl He Hpte).
        apply Hquiet; try reflexivity; by left.
      * destruct (get_frames pp 1) as [fp pp'] eqn:Hget.
        assert (pp' = drop 1 pp) as Hpp' by (by destruct pp; injection Hget as _ <-).
        destruct (decide (fp = 0)) as [->|Hfp].
        -- rewrite (handle_fault_no_page_frame r s _ Hcur _ Hdir p Htbl pp pp' He Hpte Hp Hget).
           apply Hquiet; try reflexivity; [by left|].
           right. exists 0. by subst pp'.
        -- rewrite (handle_fault_table_miss r s _ Hcur _ Hdir p Htbl pp fp pp' He Hpte Hp Hget Hfp).
           cbn [final].
           match goal with |- active d ?S ∧ _ => set (s' := S) end.
           assert (phys s' = <[p := Z.lor (wrap32 (fp * PAGE_SIZE)) 3]> (phys s)) as Hm
             by reflexivity.
           assert (∀ va pa, translate s va = Some pa → translate s' va = Some pa) as Htr.
           { intros va pa.
             apply (translate_store_absent s s' p (Z.lor (wrap32 (fp * PAGE_SIZE)) 3) va pa);
               [reflexivity|reflexivity|exact Hm|exact Hpte]. }
           split; [|split; [|exact Htr]].
           ++ apply (active_kept d s); try done.
              rewrite Hm. apply absent_kept_insert; [done|].
              rewrite (act_recursive _ _ Hact). apply present_lor3, Hd.
           ++ apply (unused_kept d s s' kp pp kp pp'); try done.
              ** intros n Hn. apply (free_frame_pop d s pp fp pp' n Hget Hn).
              ** intros n i _ Hn Hi. rewrite Hm.
                 destruct (decide (p = d + 4 * i)) as [->|Hne].
                 --- rewrite read_insert_eq, efa_lor3 by apply aligned_frame.
                     intros _. by apply (free_frame_pop d s pp fp pp' n Hget Hn).
                 --- rewrite read_insert_ne by done. by apply Hn.
    + rewrite (handle_fault_table_fault r s _ Hcur _ Hdir He Htbl).
      apply Hquiet; try reflexivity; by left.
  - destruct (get_frames kp 1) as [f kp'] eqn:Hget.
    assert (kp' = drop 1 kp) as Hkp' by (by destruct kp; injection Hget as _ <-).
    destruct (decide (f = 0)) as [->|Hnz].
    { rewrite (handle_fault_no_table_frame r s _ Hcur _ Hdir kp kp' He Hk Hget).
      apply Hquiet; try reflexivity; [|by left].
      right. exists 0. by subst kp'. }
    pose proof (pool_addresses_pop kp f kp' Hget) as Hpop.
    rewrite decide_False in Hpop by done.
    destruct kp as [|fk kp0]; cbn in Hget; [by injection Hget as <- _|].
    injection Hget as Hf Hkp0. subst f kp'. clear Hkp'.
    change (wrap32 (wrap32 fk * PAGE_SIZE)) with (frame_address fk) in Hpop.
    set (n := frame_address fk) in *.
    rewrite Hpop in Hnd, Hfree.
    apply NoDup_cons in Hnd as [Hnew Hnd].
    inversion Hfree as [|? ? Hn Hfree0]; subst.
    pose proof (frame_address_aligned fk) as Hna. fold n in Hna.
    assert (n ≠ d) as Hneq.
    { intros Heq. destruct Hn as [Hn _]. apply (Hn 1023); [lia| |].
      - rewrite (act_recursive _ _ Hact). apply present_lor3, Hd.
      - by rewrite (act_recursive _ _ Hact), efa_lor3. }
    destruct (get_frames pp 1) as [fp pp'] eqn:Hgetp.
    rewrite (handle_fault_directory_miss r s d fk kp0 pp fp pp' Hact He Hk Hnz Hneq Hp Hgetp).
    cbn [final]. fold n.
    match goal with |- active d ?S ∧ _ => set (s' := S) end.
    set (pd := dir_index (cr2 s)) in *. set (pt := tbl_index (cr2 s)) in *.
    set (f := wrap32 (PAGE_SIZE * fp)) in *.
    assert (phys s' = write_all (miss_stores d pd pt n f) (phys s)) as Hm by reflexivity.
    assert (∀ x, in_page d x → x ≠ d + 4 * pd →
              read_phys (phys s') x = read_phys (phys s) x) as Hsame.
    { intros x Hx Hne. rewrite Hm. apply read_miss_stores_other; [done..|].
      by apply (aligned_pages_disjoint d n). }
    assert (∀ va pa, translate s va = Some pa → translate s' va = Some pa) as Htr.
    { intros va pa. unfold translate, paging_on.
      change (cr0 s') with (cr0 s). change (cr3 s') with (cr3 s).
      rewrite Hon, (act_cr3 _ _ Hact), Hm.
      apply (miss_keeps_walks (phys s) d pd pt n f va pa Hd Hna Hneq Hpd Hpt He).
      apply Hn. }
    split; [|split; [|exact Htr]].
    + apply (active_kept d s s' Hact); [reflexivity|reflexivity|reflexivity| |exact Htr].
      apply Hsame; [unfold in_page; lia|].
      pose proof (active_slot_absent s d pd Hact Hpd He). lia.
    + apply (unused_kept d s s' (fk :: kp0) pp kp0 pp');
        [reflexivity|reflexivity|exact Hnd|exact Hfree0| | |exact Hk].
      * intros n' Hn'. apply (free_frame_pop d s pp fp pp' n' Hgetp Hn').
      * intros n' i Hin Hn' Hi.
        destruct (decide (i = pd)) as [->|Hne].
        -- rewrite Hm, read_miss_stores_dir, efa_lor3 by done.
           intros _ Heq. apply Hnew. by rewrite Heq.
        -- rewrite Hsame by (unfold in_page; lia). by apply Hn'.
Qed.

Lemma unused_with_cr2 d s a : unused_frames d s → unused_frames d (with_cr2 a s).
Proof. intros (kp & pp & H). by exists kp, pp. Qed.

Lemma active_with_cr2 d s a : active d s → active d (with_cr2 a s).
Proof. intros H. by apply (active_same d s). Qed.

Lemma faults_stable {REGS} (l : list (REGS * Z)) : ∀ d s,
  active d s → unused_frames d s →
  active d (faults l s) ∧ unused_frames d (faults l s)
  ∧ ∀ va pa, translate s va = Some pa → translate (faults l s) va = Some pa.
Proof.
  induction l as [|[r a] l IH]; intros d s Hact Hun; [done|].
  cbn [faults].
  destruct (handle_fault_stable r d (with_cr2 a s)) as (Hact' & Hun' & Htr').
  { by apply active_with_cr2. }
  { by apply unused_with_cr2. }
  destruct (IH d _ Hact' Hun') as (Hact'' & Hun'' & Htr'').
  split; [done|]. split; [done|].
  intros va pa Hva. apply Htr'', Htr'. by rewrite (translate_ext s).
Qed.

(** After the boot sequence the rest of the kernel pool is unused, if it
    holds no frame twice, neither of the two frames of the table, and no
    frame of the process pool. *)
Lemma bring_up_unused s fd ft kp pp sz :
  paging_on s = false →
  let d := frame_address fd in
  let t0 := frame_address ft in
  wrap32 ft ≠ 0 → d ≠ 0 → t0 ≠ d →
  NoDup (pool_addresses kp) →
  Forall (fun n => n ≠ d ∧ n ≠ t0 ∧ Forall (fun f => frame_address f ≠ n) pp)
    (pool_addresses kp) →
  unused_frames d (final (bring_up (fd :: ft :: kp) pp sz s)).
Proof.
  intros Hoff d t0 Hft Hd0 Hne Hnd Hall.
  pose proof (frame_address_aligned fd) as Hd. fold d in Hd.
  pose proof (frame_address_aligned ft) as Ht. fold t0 in Ht.
  destruct (built_memory (phys s) d t0 Hd Ht Hne) as (M0 & M1 & M2 & _).
  rewrite bring_up_state by done. fold d t0. cbn [final].
  exists kp, pp. split; [reflexivity|]. split; [reflexivity|]. split; [exact Hnd|].
  eapply Forall_impl; [exact Hall|]. cbv beta.
  intros n (Hn1 & Hn2 & Hn3). split; [|exact Hn3].
  intros i Hi. fields.
  destruct (decide (i = 0)) as [->|H0].
  { replace (d + 4 * 0) with d by lia. rewrite M0, efa_lor3 by exact Ht.
    intros _ Heq. apply Hn2. symmetry. exact Heq. }
  destruct (decide (i = 1023)) as [->|H1].
  { rewrite M2, efa_lor3 by exact Hd.
    intros _ Heq. apply Hn1. symmetry. exact Heq. }
  rewrite M1 by lia. intros Hp. exfalso. revert Hp. clear. intros Hp.
  vm_compute in Hp. inversion Hp.
Qed.

Lemma sample_boot_unused : unused_frames 4096 sample_boot.
Proof.
  pose proof (bring_up_unused (reset ∅) 1 2 [3; 4] [1024; 1025] 0) as H.
  cbv zeta in H.
  change (frame_address 1) with 4096 in H.
  change (frame_address 2) with 8192 in H.
  apply H.
  - reflexivity.
  - vm_compute. discriminate.
  - discriminate.
  - discriminate.
  - apply (bool_decide_unpack _). vm_compute. exact I.
  - apply (bool_decide_unpack _). vm_compute. exact I.
Qed.

(** * The second run on a table that cannot be read *)

(** The hit path when the table's frame is not mapped, for a directory
    that is read at its own address. *)
Lemma handle_fault_table_unmapped {REGS} (r : REGS) s d n :
  current_page_table s = Some {| page_directory := d |} →
  aligned d → aligned n →
  translate s (d + 4 * dir_index (cr2 s)) = Some (d + 4 * dir_index (cr2 s)) →
  read_phys (phys s) (d + 4 * dir_index (cr2 s)) = Z.lor n 3 →
  translate s (n + 4 * tbl_index (cr2 s)) = None →
  handle_fault r s
  = PageFault (n + 4 * tbl_index (cr2 s))
      (with_outputs
         (fault_header (cr2 s) ++
          [Puts "Page directory entry for fault: "; Putui (Z.lor n 3); Puts "\n"]) s).
Proof.
  intros Hcur Hd Hn Hdir He Hnone.
  pose proof (dir_index_range (cr2 s)) as Hpd.
  pose proof (tbl_index_range (cr2 s)) as Hpt.
  assert (translate s (index (page_directory {| page_directory := d |})
                         (dir_index (cr2 s)))
          = Some (d + 4 * dir_index (cr2 s))) as Hdir'.
  { cbn [page_directory]. by rewrite index_aligned. }
  pose proof (handle_fault_table_fault r s _ Hcur _ Hdir') as H.
  cbv zeta in H. rewrite He, efa_lor3, index_aligned in H by done.
  apply H; [apply present_lor3, Hn|exact Hnone].
Qed.

Lemma sample_high_inv : paging_inv 4096 8192 sample_high.
Proof.
  pose proof (bring_up_inv (reset ∅) 1 2 [2000] [1024; 1025] 0) as H.
  cbv zeta in H.
  change (frame_address 1) with 4096 in H.
  change (frame_address 2) with 8192 in H.
  apply inv_with_cr2. apply H; by vm_compute.
Qed.

Lemma sample_high_unused : unused_frames 4096 sample_high.
Proof.
  pose proof (bring_up_unused (reset ∅) 1 2 [2000] [1024; 1025] 0) as H.
  cbv zeta in H.
  change (frame_address 1) with 4096 in H.
  change (frame_address 2) with 8192 in H.
  apply unused_with_cr2. apply H.
  - reflexivity.
  - vm_compute. discriminate.
  - discriminate.
  - discriminate.
  - apply (bool_decide_unpack _). vm_compute. exact I.
  - apply (bool_decide_unpack _). vm_compute. exact I.
Qed.

(** * The properties *)

(** C1. On a directory miss with a kernel frame to give, the handler
    pops one frame [n] from the kernel pool, stores [n | 3] into the
    directory entry of the directory index, stores 0 into each of the 1024
    words of frame [n] through the window of that index (whose own
    directory index is 1023: the recursive slot), pops one frame [f] from
    the process pool, stores [f | 3] into the word of the table index, and
    returns. *)
Theorem directory_miss_resolved {REGS : Type} (r : REGS) (s : machine)
    (d fk : Z) (kp pp : ContFramePool) (fp : Z) (pp' : ContFramePool) :
  active d s →
  let pd := dir_index (cr2 s) in
  let pt := tbl_index (cr2 s) in
  let n := frame_address fk in
  let f := wrap32 (PAGE_SIZE * fp) in
  present (read_phys (phys s) (d + 4 * pd)) = false →
  kernel_mem_pool s = Some (fk :: kp) → wrap32 fk ≠ 0 → n ≠ d →
  process_mem_pool s = Some pp → get_frames pp 1 = (fp, pp') →
  ∃ s', handle_fault r s = Ret tt s'
    ∧ kernel_mem_pool s' = Some kp
    ∧ process_mem_pool s' = Some pp'
    ∧ stores s' = (stores s
                   ++ page_stores 1 pd d d (fun _ => Z.lor n 3)
                   ++ page_stores 1024 0 (window pd) n (fun _ => 0)
                   ++ page_stores 1 pt (window pd) n (fun _ => Z.lor f 3))%list
    ∧ (window pd = 0xFFC00000 + 4096 * pd
       ∧ dir_index (window pd) = 1023 ∧ tbl_index (window pd) = pd)
    ∧ read_phys (phys s') (d + 4 * pd) = Z.lor n 3
    ∧ (∀ i, 0 ≤ i < 1024 → i ≠ pt → read_phys (phys s') (n + 4 * i) = 0)
    ∧ read_phys (phys s') (n + 4 * pt) = Z.lor f 3
    ∧ (∀ x, x ≠ d + 4 * pd → ¬ in_page n x →
            read_phys (phys s') x = read_phys (phys s) x)
    ∧ (entry_frame_address (Z.lor n 3) = n
       ∧ present (Z.lor n 3) = true ∧ writable (Z.lor n 3) = true)
    ∧ (entry_frame_address (Z.lor f 3) = f
       ∧ present (Z.lor f 3) = true ∧ writable (Z.lor f 3) = true).
Proof.
  intros Hact pd pt n f He Hk Hfk Hnd Hp Hget.
  pose proof (dir_index_range (cr2 s)) as Hpd. fold pd in Hpd.
  pose proof (tbl_index_range (cr2 s)) as Hpt. fold pt in Hpt.
  pose proof (act_aligned _ _ Hact) as Hd.
  pose proof (frame_address_aligned fk) as Hn. fold n in Hn.
  eexists. split.
  { apply (handle_fault_directory_miss r s d fk kp pp fp pp' Hact He Hk Hfk Hnd Hp Hget). }
  fold pd pt n f.
  cbn [kernel_mem_pool process_mem_pool stores phys
       with_outputs with_process_pool with_kernel_pool store_all].
  repeat apply conj; try done.
  - by apply window_spec.
  - by apply window_dir_index.
  - by apply window_tbl_index.
  - by apply read_miss_stores_dir.
  - intros i Hi Hne. by apply read_miss_stores_zero.
  - by apply read_miss_stores_table.
  - intros x Hx Hout. by apply read_miss_stores_other.
  - by apply efa_lor3.
  - apply present_lor3, Hn.
  - apply writable_lor3, Hn.
  - apply efa_lor3. unfold f. rewrite Z.mul_comm. apply aligned_frame.
  - apply present_lor3, aligned_wrap_frame'.
  - apply writable_lor3, aligned_wrap_frame'.
Qed.

(** The fault at 0x00801234 on the sample machine: frame 3 becomes the
    table of directory slot 2, frame 1024 the page of its entry 1. *)
Lemma directory_miss_resolved_witness :
  ∃ s', handle_fault tt sample_fault = Ret tt s'
        ∧ kernel_mem_pool s' = Some [4]
        ∧ process_mem_pool s' = Some [1025]
        ∧ read_phys (phys s') (4096 + 4 * 2) = 12291
        ∧ read_phys (phys s') (12288 + 4 * 1) = 4194307
        ∧ read_phys (phys s') (12288 + 4 * 7) = 0.
Proof.
  destruct (directory_miss_resolved tt sample_fault 4096 3 [4] [1024; 1025]
              1024 [1025])
    as (s' & Hrun & Hk & Hp & _ & _ & Hdir & Hzero & Htbl & _).
  - apply (inv_active 4096 8192), sample_fault_inv.
  - vm_compute. reflexivity.
  - vm_compute. reflexivity.
  - vm_compute. discriminate.
  - vm_compute. discriminate.
  - vm_compute. reflexivity.
  - vm_compute. reflexivity.
  - exists s'.
    split; [exact Hrun|]. split; [exact Hk|]. split; [exact Hp|].
    split; [vm_compute in Hdir |- *; exact Hdir|].
    split; [vm_compute in Htbl |- *; exact Htbl|].
    assert (7 ≠ tbl_index (cr2 sample_fault)) as Hne by (vm_compute; discriminate).
    specialize (Hzero 7 ltac:(lia) Hne). vm_compute in Hzero |- *. exact Hzero.
Defined.

(** C2. A successful construction leaves entry [i] of the first table
    equal to [i * PAGE_SIZE | 3] and directory slot 0 equal to the table's
    address [| 3]; once the table is loaded and paging enabled, every
    address below 4 MiB translates to itself. *)
Theorem identity_region_built (s : machine) (fd ft : Z) (kp : ContFramePool) :
  paging_on s = false →
  kernel_mem_pool s = Some (fd :: ft :: kp) →
  let d := frame_address fd in
  let t0 := frame_address ft in
  wrap32 ft ≠ 0 → d ≠ 0 → t0 ≠ d →
  ∃ s1, PageTable_new s = Ret {| page_directory := d |} s1
    ∧ (∀ i, 0 ≤ i < 1024 →
         let e := read_phys (phys s1) (t0 + 4 * i) in
         e = Z.lor (i * PAGE_SIZE) 3
         ∧ entry_frame_address e = i * PAGE_SIZE
         ∧ present e = true ∧ writable e = true)
    ∧ (let e := read_phys (phys s1) d in
       e = Z.lor t0 3
       ∧ entry_frame_address e = t0 ∧ present e = true ∧ writable e = true)
    ∧ ∃ s2, (load {| page_directory := d |};; enable_paging) s1 = Ret tt s2
        ∧ paging_on s2 = true ∧ cr3 s2 = d
        ∧ ∀ va, 0 ≤ va < 4194304 → translate s2 va = Some va.
Proof.
  intros Hoff Hk d t0 Hft Hd0 Hne.
  pose proof (frame_address_aligned fd) as Hd. fold d in Hd.
  pose proof (frame_address_aligned ft) as Ht. fold t0 in Ht.
  destruct (built_memory (phys s) d t0 Hd Ht Hne) as (M0 & M1 & M2 & M3 & M4).
  eexists. split; [by apply PageTable_new_built|]. fold d t0.
  cbn [phys with_outputs with_kernel_pool store_all].
  split; [|split].
  - intros i Hi. rewrite (M3 i Hi). split; [done|].
    apply entry_lor3. unfold aligned, PAGE_SIZE. change (2 ^ 32) with 4294967296. zdiv.
  - rewrite M0. split; [done|]. by apply entry_lor3.
  - eexists. split.
    { unbind. step_by ltac:(apply load_state; exact Hd0).
      apply enable_paging_state. }
    unfold paging_on, translate, paging_on. fields.
    split; [apply paging_bit|]. split; [done|].
    intros va Hva. rewrite paging_bit.
    by apply (identity_walk _ d t0).
Qed.

(** Construction on the sample pools: entry 5 of the table at 0x2000 is
    [0x5000 | 3], slot 0 of the directory at 0x1000 is [0x2000 | 3]. *)
Lemma identity_region_built_witness :
  ∃ s1, PageTable_new (final (init_paging [1; 2; 3; 4] [1024; 1025] 0 (reset ∅)))
        = Ret {| page_directory := 4096 |} s1
    ∧ read_phys (phys s1) (8192 + 4 * 5) = 20483
    ∧ read_phys (phys s1) 4096 = 8195.
Proof.
  destruct (identity_region_built
              (final (init_paging [1; 2; 3; 4] [1024; 1025] 0 (reset ∅)))
              1 2 [3; 4])
    as (s1 & Hrun & Hid & Hdir & _).
  - reflexivity.
  - reflexivity.
  - vm_compute. discriminate.
  - vm_compute. discriminate.
  - vm_compute. discriminate.
  - exists s1. split; [exact Hrun|].
    destruct (Hid 5 ltac:(lia)) as [H5 _]. destruct Hdir as [H0 _].
    split; [vm_compute in H5 |- *; exact H5|vm_compute in H0 |- *; exact H0].
Defined.

(** C3, as the code has it. Directory slot 1023 holds
    [directory address | 3] as soon as construction has succeeded; from
    every state with the structure that construction and activation
    establish, one run of the handler, whatever the faulting address,
    leaves the slot and that structure as they are when the kernel pool
    hands out neither the frame of the directory nor the frame of the first
    table a second time; so the slot keeps its value through every sequence
    of faults after the boot sequence, for such a kernel pool and any
    process pool. *)
Theorem recursive_slot_stable {REGS : Type} (s : machine) (fd ft : Z)
    (kp pp : ContFramePool) (sz : Z) :
  paging_on s = false →
  let d := frame_address fd in
  let t0 := frame_address ft in
  wrap32 ft ≠ 0 → d ≠ 0 → d < 2 ^ 22 → t0 ≠ d →
  (∃ s0, (init_paging (fd :: ft :: kp) pp sz;; PageTable_new) s
         = Ret {| page_directory := d |} s0
         ∧ read_phys (phys s0) (d + 4 * 1023) = Z.lor d 3)
  ∧ paging_inv d t0 (final (bring_up (fd :: ft :: kp) pp sz s))
  ∧ (∀ (r : REGS) s', paging_inv d t0 s' → pool_contract d t0 s' →
       read_phys (phys (final (handle_fault r s'))) (d + 4 * 1023) = Z.lor d 3
       ∧ paging_inv d t0 (final (handle_fault r s'))
       ∧ pool_contract d t0 (final (handle_fault r s')))
  ∧ (Forall (fresh d t0) kp → ∀ l : list (REGS * Z),
       read_phys (phys (faults l (final (bring_up (fd :: ft :: kp) pp sz s))))
         (d + 4 * 1023) = Z.lor d 3).
Proof.
  intros Hoff d t0 Hft Hd0 Hlow Hne.
  pose proof (frame_address_aligned fd) as Hd. fold d in Hd.
  pose proof (frame_address_aligned ft) as Ht. fold t0 in Ht.
  pose proof (bring_up_inv s fd ft kp pp sz Hoff Hft Hd0 Hlow Hne) as Hinv.
  fold d t0 in Hinv.
  split; [|split; [exact Hinv|split]].
  - eexists. split.
    { unbind. step_by ltac:(apply init_paging_state).
      apply (PageTable_new_built _ fd ft kp); [exact Hoff|reflexivity|exact Hft]. }
    fold d t0. fields.
    destruct (built_memory (phys s) d t0 Hd Ht Hne) as (_ & _ & M2 & _).
    exact M2.
  - intros r s' Hs' Hpool'.
    destruct (handle_fault_inv r d t0 s' Hs' Hpool') as [Hi Hp].
    split; [apply (inv_recursive d t0 _ Hi)|]. split; [exact Hi|exact Hp].
  - intros Hfresh l.
    pose proof (bring_up_pool s fd ft kp pp sz Hoff Hft Hd0 Hfresh) as Hpool.
    destruct (faults_inv l d t0 _ Hinv Hpool) as [Hl _].
    apply (inv_recursive d t0 _ Hl).
Qed.

(** Three faults on the sample machine, the last one inside the window
    itself: the slot still reads [0x1000 | 3]. *)
Lemma recursive_slot_stable_witness :
  read_phys (phys (faults [(tt, 0x00801234); (tt, 0x00802000); (tt, 0xFFC05000)]
                     sample_boot)) (4096 + 4 * 1023) = 4099.
Proof.
  destruct (@recursive_slot_stable unit (reset ∅) 1 2 [3; 4] [1024; 1025] 0)
    as (_ & _ & _ & Hall).
  - reflexivity.
  - vm_compute. discriminate.
  - vm_compute. discriminate.
  - vm_compute. reflexivity.
  - vm_compute. discriminate.
  - assert (Forall (fresh (frame_address 1) (frame_address 2)) [3; 4]) as Hfresh.
    { constructor; [right; split; by vm_compute|].
      constructor; [right; split; by vm_compute|]. constructor. }
    exact (Hall Hfresh [(tt, 0x00801234); (tt, 0x00802000); (tt, 0xFFC05000)]).
Defined.

(** C3 in the words of the specification does not hold for every pool. A
    kernel pool that answers 1, 2, 2, 3 hands out frame 2, the first table,
    a second time: the fault at 0x00801234 makes it the table of directory
    slot 2 and zeroes it, and with it the identity mapping; the fault at
    0xFFC05000 then reads the directory through what is left of that
    mapping, takes slot 1023 for absent and zeroes the directory through
    its own window. Slot 1023 held [0x1000 | 3] after the boot sequence and
    holds 0 after the two faults. *)
Lemma recursive_slot_overwritten :
  read_phys (phys (final (bring_up [1; 2; 2; 3] [1024; 1025] 0 (reset ∅))))
    (4096 + 4 * 1023) = 4099
  ∧ read_phys
      (phys (faults [(tt, 0x00801234); (tt, 0xFFC05000)]
               (final (bring_up [1; 2; 2; 3] [1024; 1025] 0 (reset ∅)))))
      (4096 + 4 * 1023) = 0.
Proof. split; vm_compute; reflexivity. Qed.

(** C4. The handler takes the faulting address from [cr2] and not from
    its argument: its outcome is the same for every argument; it reports
    [cr2], bits 22-31 of it as the directory index and bits 12-21 as the
    table index, and then the directory entry at that directory index. *)
Theorem fault_address_decoding {REGS : Type} (r r' : REGS) (s : machine)
    (cpt : PageTable) :
  current_page_table s = Some cpt →
  handle_fault r s = handle_fault r' s
  ∧ (∃ os, console (final (handle_fault r s))
           = (console s ++
              [Puts "Page fault at address: "; Putui (cr2 s);
               Puts "PDE: "; Putui (dir_index (cr2 s));
               Puts "PTE: "; Putui (tbl_index (cr2 s)); Puts "\n"] ++ os)%list)
  ∧ (∀ p0, translate s (index (page_directory cpt) (dir_index (cr2 s))) = Some p0 →
       ∃ os, console (final (handle_fault r s))
             = (console s ++ fault_header (cr2 s) ++
                [Puts "Page directory entry for fault: ";
                 Putui (read_phys (phys s) p0); Puts "\n"] ++ os)%list)
  ∧ (translate s (index (page_directory cpt) (dir_index (cr2 s))) = None →
       handle_fault r s
       = PageFault (index (page_directory cpt) (dir_index (cr2 s)))
           (with_outputs (fault_header (cr2 s)) s))
  ∧ (∀ i, 0 ≤ i →
       Z.testbit (dir_index (cr2 s)) i = (i <? 10) && Z.testbit (cr2 s) (i + 22))
  ∧ (∀ i, 0 ≤ i →
       Z.testbit (tbl_index (cr2 s)) i = (i <? 10) && Z.testbit (cr2 s) (i + 12)).
Proof.
  intros Hcur. split; [reflexivity|]. split; [|split; [|split; [|split]]].
  - apply (handle_fault_console r s cpt Hcur).
  - intros p0 Hdir.
    destruct (handle_fault_report r s cpt p0 Hcur Hdir) as (rest & Hrest & ->).
    destruct (Hrest (with_outputs
                (fault_header (cr2 s) ++
                 [Puts "Page directory entry for fault: ";
                  Putui (read_phys (phys s) p0); Puts "\n"]) s))
      as [(os & accs & Hc & _) _].
    rewrite Hc. cbn [console with_outputs]. exists os. by rewrite <- !app_assoc.
  - apply (handle_fault_directory_fault r s cpt Hcur).
  - intros i Hi. unfold dir_index.
    rewrite Z.land_spec, Z.shiftr_spec by done.
    change 0x3FF with (Z.ones 10). rewrite Z.testbit_ones_nonneg by lia.
    apply andb_comm.
  - intros i Hi. unfold tbl_index.
    rewrite Z.land_spec, Z.shiftr_spec by done.
    change 0x3FF with (Z.ones 10). rewrite Z.testbit_ones_nonneg by lia.
    apply andb_comm.
Qed.

(** On the sample fault the indices are 2 and 1, whatever the argument. *)
Lemma fault_address_decoding_witness :
  handle_fault (0 : Z) sample_fault = handle_fault (1 : Z) sample_fault
  ∧ dir_index (cr2 sample_fault) = 2 ∧ tbl_index (cr2 sample_fault) = 1.
Proof.
  destruct (fault_address_decoding (0 : Z) (1 : Z) sample_fault
              {| page_directory := 4096 |}) as (Hsame & _).
  - reflexivity.
  - split; [exact Hsame|]. split; reflexivity.
Defined.

(** C5, as the code has it. With no active table the handler prints its
    diagnostic and returns to its caller at once: nothing is read,
    allocated or stored, and the run is a normal return. *)
Theorem no_active_table_returns {REGS : Type} (r : REGS) (s : machine) :
  current_page_table s = None →
  handle_fault r s
  = Ret tt (with_outputs [Puts "Error: No current page table loaded\n"] s)
  ∧ returns (handle_fault r s).
Proof.
  intros Hcur. rewrite (handle_fault_no_table r s Hcur). by split.
Qed.

(** At reset no table is active and the handler prints one line. *)
Lemma no_active_table_returns_witness :
  current_page_table (reset ∅) = None
  ∧ console (final (handle_fault tt (reset ∅)))
    = [Puts "Error: No current page table loaded\n"].
Proof.
  split; [reflexivity|].
  destruct (no_active_table_returns tt (reset ∅) eq_refl) as [-> _].
  reflexivity.
Defined.

(** C5 in the words of the specification does not hold: a fault with no
    active table does not end in a halt or an abort, the handler returns
    normally. *)
Lemma no_active_table_does_not_halt :
  ¬ (∀ s : machine, current_page_table s = None →
       ¬ returns (handle_fault tt s)).
Proof. intros H. apply (H (reset ∅)); [reflexivity|exact I]. Qed.

(** C6, the code at the failing input. When the first allocation of the
    constructor fails, nothing checks it: the constructor takes address 0
    for the directory, builds all of it there and reports success. *)
Theorem null_directory_built (s : machine) (fd ft : Z) (kp : ContFramePool) :
  paging_on s = false →
  kernel_mem_pool s = Some (fd :: ft :: kp) →
  wrap32 fd = 0 → wrap32 ft ≠ 0 →
  ∃ s1, PageTable_new s = Ret {| page_directory := 0 |} s1
    ∧ console s1
      = (console s ++ [Puts "Page directory with 4MB direct-mapped allocated\n"])%list
    ∧ stores s1 = (stores s ++ built 0 (frame_address ft))%list
    ∧ length (built 0 (frame_address ft)) = 3073%nat.
Proof.
  intros Hoff Hk Hfd Hft.
  assert (frame_address fd = 0) as Hd by (unfold frame_address; by rewrite Hfd).
  eexists. split.
  { rewrite <- Hd. by apply PageTable_new_built. }
  rewrite Hd. by fields.
Qed.

(** A kernel pool that answers 0 and then 5. *)
Lemma null_directory_built_witness :
  ∃ s1, PageTable_new (final (init_paging [0; 5] [] 0 (reset ∅)))
        = Ret {| page_directory := 0 |} s1
    ∧ console s1
      = [Puts "Initialized Paging System\n";
         Puts "Page directory with 4MB direct-mapped allocated\n"].
Proof.
  destruct (null_directory_built (final (init_paging [0; 5] [] 0 (reset ∅)))
              0 5 []) as (s1 & Hrun & Hc & _).
  - reflexivity.
  - reflexivity.
  - reflexivity.
  - vm_compute. discriminate.
  - exists s1. split; [exact Hrun|exact Hc].
Defined.

(** C7. On a directory miss, when the kernel pool answers 0 the handler
    returns without a store: memory, the registers, the active table and
    the process pool are as before. *)
Theorem kernel_pool_exhausted {REGS : Type} (r : REGS) (s : machine)
    (cpt : PageTable) (p0 : Z) (kp kp' : ContFramePool) :
  current_page_table s = Some cpt →
  translate s (index (page_directory cpt) (dir_index (cr2 s))) = Some p0 →
  present (read_phys (phys s) p0) = false →
  kernel_mem_pool s = Some kp → get_frames kp 1 = (0, kp') →
  ∃ s', handle_fault r s = Ret tt s'
    ∧ phys s' = phys s ∧ stores s' = stores s
    ∧ cr0 s' = cr0 s ∧ cr3 s' = cr3 s
    ∧ current_page_table s' = current_page_table s
    ∧ process_mem_pool s' = process_mem_pool s
    ∧ (∀ va, translate s' va = translate s va)
    ∧ last (console s') = Some (Puts "Failed to allocate new page table\n").
Proof.
  intros Hcur Hdir He Hk Hget. eexists. split.
  { apply (handle_fault_no_table_frame r s cpt Hcur p0 Hdir kp kp' He Hk Hget). }
  fields. repeat split; try done.
  by rewrite last_app.
Qed.

(** The sample fault with an exhausted kernel pool. *)
Lemma kernel_pool_exhausted_witness :
  ∃ s', handle_fault tt (with_kernel_pool (Some []) sample_fault) = Ret tt s'
    ∧ phys s' = phys (with_kernel_pool (Some []) sample_fault)
    ∧ stores s' = stores (with_kernel_pool (Some []) sample_fault).
Proof.
  destruct (kernel_pool_exhausted tt (with_kernel_pool (Some []) sample_fault)
              {| page_directory := 4096 |} 4104 [] [])
    as (s' & Hrun & Hm & Hs & _).
  - reflexivity.
  - vm_compute. reflexivity.
  - vm_compute. reflexivity.
  - reflexivity.
  - reflexivity.
  - exists s'. split; [exact Hrun|]. split; [exact Hm|exact Hs].
Defined.

(** C8, the code at the failing input. A directory miss resolved with a
    kernel frame [n] that lies in a region the directory does not map: the
    first run succeeds through the recursive window, reports the fault
    handled and leaves the directory entry and the table entry present,
    the faulting address translating into the new frame. The second run on
    the same address reads the directory entry and then dereferences the
    table's physical address, which is not mapped: it does not return, it
    page-faults at the address of the table entry. *)
Theorem second_run_faults {REGS : Type} (r r' : REGS) (s : machine)
    (d fk : Z) (kp pp : ContFramePool) (fp : Z) (pp' : ContFramePool) :
  active d s →
  let a := cr2 s in
  let pd := dir_index a in
  let pt := tbl_index a in
  let n := frame_address fk in
  let f := wrap32 (PAGE_SIZE * fp) in
  present (read_phys (phys s) (d + 4 * pd)) = false →
  kernel_mem_pool s = Some (fk :: kp) → wrap32 fk ≠ 0 →
  (∀ i, 0 ≤ i < 1024 → present (read_phys (phys s) (d + 4 * i)) = true →
        entry_frame_address (read_phys (phys s) (d + 4 * i)) ≠ n) →
  process_mem_pool s = Some pp → get_frames pp 1 = (fp, pp') →
  dir_index n ≠ pd →
  present (read_phys (phys s) (d + 4 * dir_index n)) = false →
  ∃ s1 s2,
    handle_fault r s = Ret tt s1 ∧ handled s1
    ∧ cr2 s1 = a
    ∧ translate s1 a = Some (f + page_offset a)
    ∧ read_phys (phys s1) (d + 4 * pd) = Z.lor n 3
    ∧ read_phys (phys s1) (n + 4 * pt) = Z.lor f 3
    ∧ handle_fault r' s1 = PageFault (n + 4 * pt) s2
    ∧ ¬ returns (handle_fault r' s1)
    ∧ phys s2 = phys s1 ∧ stores s2 = stores s1
    ∧ kernel_mem_pool s2 = kernel_mem_pool s1
    ∧ process_mem_pool s2 = process_mem_pool s1.
Proof.
  intros Hact a pd pt n f He Hk Hfk Hfree Hp Hget Hreg Habs.
  pose proof (dir_index_range a) as Hpd. fold pd in Hpd.
  pose proof (tbl_index_range a) as Hpt. fold pt in Hpt.
  pose proof (dir_index_range n) as Hnr.
  pose proof (act_aligned _ _ Hact) as Hd.
  pose proof (frame_address_aligned fk) as Hn. fold n in Hn.
  pose proof (act_paging _ _ Hact) as Hon. unfold paging_on in Hon.
  assert (aligned f) as Hf by (unfold f; rewrite Z.mul_comm; apply aligned_frame).
  assert (n ≠ d) as Hnd.
  { intros Hnd. apply (Hfree 1023); [lia| |].
    - rewrite (act_recursive _ _ Hact). apply present_lor3, Hd.
    - by rewrite (act_recursive _ _ Hact), efa_lor3. }
  pose proof (handle_fault_directory_miss r s d fk kp pp fp pp' Hact He Hk Hfk Hnd Hp Hget)
    as Hrun.
  cbv zeta in Hrun. fold a pd pt n f in Hrun.
  match type of Hrun with _ = Ret tt ?S => set (s1 := S) in * end.
  set (m' := write_all (miss_stores d pd pt n f) (phys s)).
  assert (phys s1 = m') as Hm by reflexivity.
  assert (read_phys m' (d + 4 * pd) = Z.lor n 3) as Edir
    by (apply read_miss_stores_dir; assumption).
  assert (read_phys m' (n + 4 * pt) = Z.lor f 3) as Etbl
    by (apply read_miss_stores_table; assumption).
  assert (∀ va, translate s1 va = walk m' d va) as Hwalk.
  { intros va. unfold translate, paging_on.
    change (cr0 s1) with (cr0 s). change (cr3 s1) with (cr3 s).
    by rewrite Hon, (act_cr3 _ _ Hact), Hm. }
  assert (translate s1 (d + 4 * pd) = Some (d + 4 * pd)) as Hdir1.
  { rewrite Hwalk.
    apply (miss_keeps_walks (phys s) d pd pt n f _ _ Hd Hn Hnd Hpd Hpt He Hfree).
    pose proof (act_identity _ _ Hact pd Hpd) as Hid.
    unfold translate, paging_on in Hid.
    by rewrite Hon, (act_cr3 _ _ Hact) in Hid. }
  assert (translate s1 (n + 4 * pt) = None) as Hnone1.
  { rewrite Hwalk. apply walk_absent. rewrite efa_aligned by exact Hd.
    replace (dir_index (n + 4 * pt)) with (dir_index n).
    - unfold m'.
      rewrite (read_miss_stores_other (phys s) d pd pt n f (d + 4 * dir_index n) Hpd Hpt).
      + exact Habs.
      + lia.
      + apply (aligned_pages_disjoint d n);
          [exact Hd|exact Hn|intros E; apply Hnd; symmetry; exact E|].
        unfold in_page. lia.
    - destruct (index_fields n pt Hn Hpt) as (Hi & _).
      rewrite index_aligned in Hi by assumption.
      rewrite Hi. f_equal. }
  pose proof (handle_fault_table_unmapped r' s1 d n) as Hrun2.
  change (cr2 s1) with a in Hrun2. fold pd pt in Hrun2.
  specialize (Hrun2 (act_current _ _ Hact) Hd Hn Hdir1).
  rewrite Hm in Hrun2. specialize (Hrun2 Edir Hnone1).
  exists s1. eexists.
  split; [exact Hrun|].
  split; [left; unfold s1; cbn [console with_outputs]; rewrite last_app; reflexivity|].
  split; [reflexivity|].
  split.
  { rewrite Hwalk, (walk_present m' d a (Z.lor n 3) (Z.lor f 3)).
    - rewrite present_lor3 by apply Hf. by rewrite efa_lor3.
    - by rewrite efa_aligned.
    - apply present_lor3, Hn.
    - by rewrite efa_lor3. }
  split; [rewrite Hm; exact Edir|]. split; [rewrite Hm; exact Etbl|].
  split; [exact Hrun2|].
  split; [rewrite Hrun2; intros []|].
  split; [reflexivity|]. split; [reflexivity|]. split; reflexivity.
Qed.

(** The kernel pool 1, 2, 2000: the first run at 0x00801234 resolves the
    address into frame 1024 through the window, the second run faults at
    0x7D0004, the word of the table entry in frame 2000. *)
Lemma second_run_faults_witness :
  ∃ s1 s2,
    handle_fault tt sample_high = Ret tt s1
    ∧ handled s1
    ∧ translate s1 0x00801234 = Some 0x400234
    ∧ handle_fault tt s1 = PageFault 0x7D0004 s2.
Proof.
  destruct sample_high_unused as (kp0 & pp0 & Hk0 & _ & _ & Hfree0).
  assert (kp0 = [2000]) as ->.
  { assert (kernel_mem_pool sample_high = Some [2000]) as E
      by (vm_compute; reflexivity).
    rewrite E in Hk0. by injection Hk0 as <-. }
  change (pool_addresses [2000]) with [frame_address 2000] in Hfree0.
  inversion Hfree0 as [|? ? [Hfree _] _]; subst.
  destruct (second_run_faults tt tt sample_high 4096 2000 [] [1024; 1025]
              1024 [1025])
    as (s1 & s2 & Hrun & Hdone & _ & Htr & _ & _ & Hrun2 & _).
  - apply (inv_active 4096 8192), sample_high_inv.
  - vm_compute. reflexivity.
  - vm_compute. reflexivity.
  - vm_compute. discriminate.
  - exact Hfree.
  - vm_compute. reflexivity.
  - vm_compute. reflexivity.
  - vm_compute. discriminate.
  - vm_compute. reflexivity.
  - exists s1, s2. split; [exact Hrun|]. split; [exact Hdone|].
    unfold sample_high in Htr, Hrun2. cbn [cr2 with_cr2] in Htr, Hrun2.
    change (wrap32 (PAGE_SIZE * 1024) + page_offset 8393268) with 4194868 in Htr.
    change (frame_address 2000 + 4 * tbl_index 8393268) with 8192004 in Hrun2.
    split; [exact Htr|exact Hrun2].
Defined.


(** C9. Every word stored by the constructor or by the handler, from any
    state and on any path, has the user bit clear and, if its present bit
    is set, its writable bit set; activation and initialisation store
    nothing. *)
Theorem entry_convention_kept {REGS : Type} (r : REGS) (s : machine)
    (pt : PageTable) (kp pp : ContFramePool) (sz : Z) :
  (∃ accs, stores (final (PageTable_new s)) = (stores s ++ accs)%list
           ∧ Forall (fun a => entry_convention (acc_val a)) accs)
  ∧ (∃ accs, stores (final (handle_fault r s)) = (stores s ++ accs)%list
             ∧ Forall (fun a => entry_convention (acc_val a)) accs)
  ∧ stores (final (load pt s)) = stores s
  ∧ stores (final (enable_paging s)) = stores s
  ∧ stores (final (init_paging kp pp sz s)) = stores s.
Proof.
  split; [|split; [|split; [|split]]].
  - destruct (PageTable_new_orderly s) as [(os & accs & _ & Hs & Hok) _]. eauto.
  - destruct (handle_fault_orderly r s) as [(os & accs & _ & Hs & Hok) _]. eauto.
  - unfold load. by destruct (page_directory pt =? 0).
  - reflexivity.
  - reflexivity.
Qed.

(** C10. On a directory miss, when the process pool answers 0 the handler
    stores [0 | 3 = 3] into the new table's entry at the table index, a
    present and writable entry for physical address 0, and reports the
    fault handled. *)
Theorem process_pool_unchecked {REGS : Type} (r : REGS) (s : machine)
    (d fk : Z) (kp pp pp' : ContFramePool) :
  active d s →
  let pd := dir_index (cr2 s) in
  let pt := tbl_index (cr2 s) in
  let n := frame_address fk in
  present (read_phys (phys s) (d + 4 * pd)) = false →
  kernel_mem_pool s = Some (fk :: kp) → wrap32 fk ≠ 0 → n ≠ d →
  process_mem_pool s = Some pp → get_frames pp 1 = (0, pp') →
  ∃ s', handle_fault r s = Ret tt s'
    ∧ last (stores s') = Some (Access (index (window pd) pt) (n + 4 * pt) 3)
    ∧ read_phys (phys s') (n + 4 * pt) = 3
    ∧ read_phys (phys s') (d + 4 * pd) = Z.lor n 3
    ∧ translate s' (cr2 s) = Some (page_offset (cr2 s))
    ∧ (present 3 = true ∧ writable 3 = true ∧ entry_frame_address 3 = 0)
    ∧ last (console s') = Some (Puts "Page fault handled\n ").
Proof.
  intros Hact pd pt n He Hk Hfk Hnd Hp Hget.
  pose proof (dir_index_range (cr2 s)) as Hpd. fold pd in Hpd.
  pose proof (tbl_index_range (cr2 s)) as Hpt. fold pt in Hpt.
  pose proof (act_aligned _ _ Hact) as Hd.
  pose proof (frame_address_aligned fk) as Hn. fold n in Hn.
  eexists. split.
  { apply (handle_fault_directory_miss r s d fk kp pp 0 pp' Hact He Hk Hfk Hnd Hp Hget). }
  fold pd pt n. change (Z.lor (wrap32 (PAGE_SIZE * 0)) 3) with 3.
  change (wrap32 (PAGE_SIZE * 0)) with 0.
  assert (read_phys (write_all (miss_stores d pd pt n 0) (phys s)) (n + 4 * pt) = 3)
    as Htbl by (by apply read_miss_stores_table).
  assert (read_phys (write_all (miss_stores d pd pt n 0) (phys s)) (d + 4 * pd)
          = Z.lor n 3) as Hdir by (by apply read_miss_stores_dir).
  unfold translate, paging_on. fields.
  split; [|split; [exact Htbl|split; [exact Hdir|split; [|split]]]].
  - unfold miss_stores. rewrite !app_assoc. cbn [page_stores]. apply last_snoc.
  - pose proof (act_paging _ _ Hact) as Hon. unfold paging_on in Hon.
    rewrite Hon, (act_cr3 _ _ Hact). unfold walk.
    fold pd pt. rewrite efa_aligned, Hdir by exact Hd.
    rewrite present_lor3 by apply Hn. rewrite efa_lor3 by exact Hn.
    rewrite Htbl. reflexivity.
  - repeat split; reflexivity.
  - rewrite last_app. reflexivity.
Qed.

(** The sample fault with an exhausted process pool: the faulting address
    ends up mapped onto frame 0. *)
Lemma process_pool_unchecked_witness :
  ∃ s', handle_fault tt (with_process_pool (Some []) sample_fault) = Ret tt s'
    ∧ read_phys (phys s') (12288 + 4 * 1) = 3
    ∧ translate s' 0x00801234 = Some 0x234.
Proof.
  destruct (process_pool_unchecked tt (with_process_pool (Some []) sample_fault)
              4096 3 [4] [] [])
    as (s' & Hrun & _ & Htbl & _ & Htr & _).
  - apply (inv_active 4096 8192).
    apply inv_with_process_pool, sample_fault_inv.
  - vm_compute. reflexivity.
  - vm_compute. reflexivity.
  - vm_compute. discriminate.
  - vm_compute. discriminate.
  - reflexivity.
  - reflexivity.
  - exists s'. split; [exact Hrun|].
    split; [vm_compute in Htbl |- *; exact Htbl|].
    unfold sample_fault in Htr. cbn [cr2 with_process_pool with_cr2] in Htr.
    change (page_offset 8393268) with 564 in Htr. exact Htr.
Defined.


(** * Further properties *)

(** X1. From any state and on any path, also one cut short by a nested
    fault, a run of the handler leaves the control registers, the active
    table and the other static members as they were and takes at most one
    frame from each pool. *)
Theorem handle_fault_budget {REGS : Type} (r : REGS) (s : machine) :
  takes 1 1 s (final (handle_fault r s)).
Proof. apply handle_fault_takes. Qed.

(** X2. The constructor takes at most two frames from the kernel pool and
    none from the process pool, and it does not activate what it builds:
    [cr0], [cr3] and the active table are as before. *)
Theorem PageTable_new_budget (s : machine) :
  takes 2 0 s (final (PageTable_new s)).
Proof. apply PageTable_new_takes. Qed.

(** X3. No function of the file reads [shared_size]: the constructor,
    [load], [enable_paging] and the handler run the same whatever it
    holds, and a boot sequence given another shared size ends in the same
    machine but for that member. *)
Theorem shared_size_ignored {REGS : Type} (r : REGS) (s : machine)
    (pt : PageTable) (kp pp : ContFramePool) (sz sz' : Z) :
  PageTable_new (with_shared_size sz s)
  = outcome_map (with_shared_size sz) (PageTable_new s)
  ∧ load pt (with_shared_size sz s) = outcome_map (with_shared_size sz) (load pt s)
  ∧ enable_paging (with_shared_size sz s)
    = outcome_map (with_shared_size sz) (enable_paging s)
  ∧ handle_fault r (with_shared_size sz s)
    = outcome_map (with_shared_size sz) (handle_fault r s)
  ∧ bring_up kp pp sz' s = outcome_map (with_shared_size sz') (bring_up kp pp sz s).
Proof.
  split; [apply PageTable_new_ignores|].
  split; [apply load_ignores|].
  split; [apply enable_paging_ignores|].
  split; [apply handle_fault_ignores|].
  unfold bring_up. unbind.
  rewrite (run_bind _ _ s _ _ (init_paging_state kp pp sz' s)).
  rewrite (run_bind _ _ s _ _ (init_paging_state kp pp sz s)).
  match goal with |- ?c ?S' = outcome_map _ (?c ?S) =>
    change S' with (with_shared_size sz' S);
    refine ((_ : ignores (with_shared_size sz') c) S) end.
  apply ignores_bind; [apply PageTable_new_ignores|]. intros pt'.
  apply ignores_bind; [apply load_ignores|]. intros _.
  apply ignores_bind; [apply enable_paging_ignores|]. intros _.
  by intros ?.
Qed.

(** X4. [enable_paging] sets bit 31 of [cr0] and keeps every other bit;
    it does not look at [cr3] or at the active table, it touches neither
    them nor memory, and a second call changes [cr0] no more. *)
Theorem enable_paging_sets_bit (s : machine) :
  ∃ s', enable_paging s = Ret tt s'
    ∧ paging_on s' = true
    ∧ (∀ i, 0 ≤ i → i ≠ 31 → Z.testbit (cr0 s') i = Z.testbit (cr0 s) i)
    ∧ paging_enabled s' = 1
    ∧ cr3 s' = cr3 s ∧ current_page_table s' = current_page_table s
    ∧ phys s' = phys s
    ∧ cr0 (final (enable_paging s')) = cr0 s'.
Proof.
  eexists. split; [apply enable_paging_state|].
  rewrite enable_paging_state. unfold paging_on. cbn [final]. fields.
  split; [apply paging_bit|]. split; [|repeat split].
  - intros i Hi Hne. rewrite Z.lor_spec.
    change 0x80000000 with (2 ^ 31). rewrite Z.pow2_bits_false by lia.
    apply orb_false_r.
  - by rewrite <- Z.lor_assoc, Z.lor_diag.
Qed.

(** X5. When the first allocation of the constructor answers 0, whatever
    the pool answers next, the object has a null directory; [load] refuses
    it and changes neither [cr3] nor the active table, and [enable_paging]
    turns paging on all the same. If no table was active before, none is
    after, and every later fault is answered by the diagnostic alone:
    nothing but [cr2] and the console changes, however many faults
    follow. *)
Theorem null_directory_refused {REGS : Type} (s : machine)
    (kp kp1 pp : ContFramePool) (sz : Z) :
  paging_on s = false → get_frames kp 1 = (0, kp1) →
  ∃ s3, bring_up kp pp sz s = Ret {| page_directory := 0 |} s3
    ∧ (∃ os, console s3
             = (console s ++ os ++
                [Puts "Error: Page directory not set\n"; Puts "Enabled paging\n"])%list)
    ∧ cr3 s3 = cr3 s ∧ current_page_table s3 = current_page_table s
    ∧ paging_on s3 = true
    ∧ (current_page_table s = None →
       ∀ l : list (REGS * Z),
         console (faults l s3)
         = (console s3 ++
            replicate (length l) (Puts "Error: No current page table loaded\n"))%list
         ∧ phys (faults l s3) = phys s3 ∧ stores (faults l s3) = stores s3
         ∧ cr0 (faults l s3) = cr0 s3 ∧ cr3 (faults l s3) = cr3 s3
         ∧ current_page_table (faults l s3) = None
         ∧ kernel_mem_pool (faults l s3) = kernel_mem_pool s3
         ∧ process_mem_pool (faults l s3) = process_mem_pool s3).
Proof.
  intros Hoff Hget.
  destruct (PageTable_new_null
              (with_outputs [Puts "Initialized Paging System\n"]
                 (with_shared_size sz
                    (with_process_pool (Some pp) (with_kernel_pool (Some kp) s))))
              kp kp1 Hoff eq_refl Hget)
    as (s1 & Hnew & H0 & H3 & Hc & os & Hos).
  eassert (bring_up kp pp sz s = Ret _ _) as Hrun.
  { unfold bring_up. unbind.
    step_by ltac:(apply init_paging_state).
    step_by ltac:(exact Hnew).
    step_by ltac:(apply load_refused; reflexivity).
    step_by ltac:(apply enable_paging_state).
    unfold ret. reflexivity. }
  eexists. split; [exact Hrun|].
  match goal with |- context [faults _ ?S] => set (s3 := S) end.
  split.
  { exists ([Puts "Initialized Paging System\n"] ++ os)%list.
    unfold s3. fields. rewrite Hos. fields. by rewrite <- !app_assoc. }
  split; [exact H3|]. split; [exact Hc|].
  split; [unfold paging_on, s3; fields; apply paging_bit|].
  intros Hnone l. apply (faults_no_table l s3).
  unfold s3. fields. rewrite Hc. exact Hnone.
Qed.

(** A kernel pool with nothing to give, and three faults after the boot
    sequence. *)
Lemma null_directory_refused_witness :
  ∃ s3, bring_up [] [] 0 (reset ∅) = Ret {| page_directory := 0 |} s3
    ∧ current_page_table s3 = None ∧ paging_on s3 = true
    ∧ stores (faults [(tt, 0x00801234); (tt, 0x1000); (tt, 0xFFC05000)] s3)
      = stores s3.
Proof.
  destruct (@null_directory_refused unit (reset ∅) [] [] [] 0)
    as (s3 & Hrun & _ & _ & Hcur & Hon & Hall).
  - reflexivity.
  - reflexivity.
  - exists s3. split; [exact Hrun|]. split; [exact Hcur|]. split; [exact Hon|].
    destruct (Hall eq_refl [(tt, 0x00801234); (tt, 0x1000); (tt, 0xFFC05000)])
      as (_ & _ & Hs & _).
    exact Hs.
Defined.

(** X6. When the second allocation of the constructor fails, the object
    it returns has a directory of 1024 zero words and nothing else; [load]
    accepts it, and once paging is enabled no address translates, so the
    handler itself faults on its first read of the directory. *)
Theorem first_table_allocation_failure {REGS : Type} (r : REGS) (s : machine)
    (fd : Z) (kp kp' pp : ContFramePool) (sz a : Z) :
  paging_on s = false →
  let d := frame_address fd in
  d ≠ 0 → get_frames kp 1 = (0, kp') →
  ∃ s3, bring_up (fd :: kp) pp sz s = Ret {| page_directory := d |} s3
    ∧ console s3
      = (console s ++
         [Puts "Initialized Paging System\n";
          Puts "Failed to allocate first page table\n";
          Puts "Loaded page table\n"; Puts "Enabled paging\n"])%list
    ∧ current_page_table s3 = Some {| page_directory := d |}
    ∧ cr3 s3 = d ∧ paging_on s3 = true
    ∧ (∀ i, 0 ≤ i < 1024 → read_phys (phys s3) (d + 4 * i) = 0)
    ∧ (∀ va, translate s3 va = None)
    ∧ handle_fault r (with_cr2 a s3)
      = PageFault (index d (dir_index a))
          (with_outputs (fault_header a) (with_cr2 a s3)).
Proof.
  intros Hoff d Hd0 Hget.
  pose proof (frame_address_aligned fd) as Hd. fold d in Hd.
  eassert (bring_up (fd :: kp) pp sz s = Ret _ _) as Hrun.
  { unfold bring_up. unbind.
    step_by ltac:(apply init_paging_state).
    step_by ltac:(apply (PageTable_new_no_table _ fd kp kp');
                  [exact Hoff|reflexivity|exact Hget]).
    fold d.
    step_by ltac:(apply load_state; exact Hd0).
    step_by ltac:(apply enable_paging_state).
    unfold ret. reflexivity. }
  eexists. split; [exact Hrun|].
  match goal with |- context [with_cr2 a ?S] => set (s3 := S) end.
  assert (∀ i, 0 ≤ i < 1024 → read_phys (phys s3) (d + 4 * i) = 0) as Hzero.
  { intros i Hi. unfold s3. fields.
    by rewrite (read_page_stores 1024 0 d d (fun _ => 0)) by lia. }
  assert (∀ va, translate s3 va = None) as Hnone.
  { intros va. unfold translate, paging_on. unfold s3 at 1 2. fields.
    rewrite paging_bit. apply walk_absent.
    rewrite efa_aligned by exact Hd.
    by rewrite Hzero by apply dir_index_range. }
  split; [unfold s3; fields; by rewrite <- !app_assoc|].
  split; [done|]. split; [done|].
  split; [unfold paging_on, s3; fields; apply paging_bit|].
  split; [exact Hzero|]. split; [exact Hnone|].
  apply (handle_fault_directory_fault r (with_cr2 a s3) {| page_directory := d |});
    [reflexivity|].
  rewrite (translate_ext s3) by reflexivity. apply Hnone.
Qed.

(** A kernel pool with one frame to give: the directory at 0x1000 is
    loaded empty and a fault at 0x1234 makes the handler fault at the
    directory's first word. *)
Lemma first_table_allocation_failure_witness :
  ∃ s3, bring_up [1] [1024] 0 (reset ∅) = Ret {| page_directory := 4096 |} s3
    ∧ translate s3 0x1234 = None
    ∧ handle_fault tt (with_cr2 0x1234 s3)
      = PageFault 4096 (with_outputs (fault_header 0x1234) (with_cr2 0x1234 s3)).
Proof.
  destruct (first_table_allocation_failure tt (reset ∅) 1 [] [] [1024] 0 0x1234)
    as (s3 & Hrun & _ & _ & _ & _ & _ & Hnone & Hfault).
  - reflexivity.
  - vm_compute. discriminate.
  - reflexivity.
  - exists s3. split; [exact Hrun|]. split; [apply Hnone|exact Hfault].
Defined.

(** X7. The address space a successful boot sequence leaves: the first
    4 MiB onto themselves, the first table at 0xFFC00000 and the directory
    at 0xFFFFF000 through the recursive slot, and nothing else. *)
Theorem boot_address_space (s : machine) (fd ft : Z) (kp pp : ContFramePool)
    (sz : Z) :
  paging_on s = false →
  let d := frame_address fd in
  let t0 := frame_address ft in
  wrap32 ft ≠ 0 → d ≠ 0 → t0 ≠ d →
  ∃ s3, bring_up (fd :: ft :: kp) pp sz s = Ret {| page_directory := d |} s3
    ∧ (∀ va, 0 ≤ va < 0x400000 → translate s3 va = Some va)
    ∧ (∀ va, 0x400000 ≤ va < 0xFFC00000 → translate s3 va = None)
    ∧ (∀ x, 0 ≤ x < 4096 → translate s3 (0xFFC00000 + x) = Some (t0 + x))
    ∧ (∀ va, 0xFFC01000 ≤ va < 0xFFFFF000 → translate s3 va = None)
    ∧ (∀ x, 0 ≤ x < 4096 → translate s3 (0xFFFFF000 + x) = Some (d + x)).
Proof.
  intros Hoff d t0 Hft Hd0 Hne.
  pose proof (frame_address_aligned fd) as Hd. fold d in Hd.
  pose proof (frame_address_aligned ft) as Ht. fold t0 in Ht.
  destruct (built_memory (phys s) d t0 Hd Ht Hne) as (M0 & M1 & M2 & M3 & _).
  eexists. split; [by apply bring_up_state|]. fold d t0.
  unfold translate, paging_on. fields. rewrite paging_bit.
  set (m := write_all (built d t0) (phys s)) in *.
  assert (present 2 = false) as Habs by reflexivity.
  assert (∀ va e, read_phys m (d + 4 * dir_index va) = e →
            read_phys m (entry_frame_address d + 4 * dir_index va) = e) as Hroot.
  { intros va e. by rewrite efa_aligned. }
  split; [|split; [|split; [|split]]].
  - intros va Hva. by apply (identity_walk m d t0).
  - intros va Hva. apply walk_absent. rewrite efa_aligned by done.
    rewrite M1; [done|]. rewrite dir_index_spec. zdiv.
  - intros x Hx.
    assert (dir_index (4290772992 + x) = 1023) as Hpd by (rewrite dir_index_spec; zdiv).
    assert (tbl_index (4290772992 + x) = 0) as Hpt by (rewrite tbl_index_spec; zdiv).
    assert (page_offset (4290772992 + x) = x) as Hoffs by (rewrite page_offset_spec; zdiv).
    rewrite (walk_present m d _ (Z.lor d 3) (Z.lor t0 3)).
    + rewrite present_lor3 by apply Ht. by rewrite efa_lor3, Hoffs.
    + apply Hroot. by rewrite Hpd.
    + apply present_lor3, Hd.
    + rewrite efa_lor3, Hpt by done. by replace (d + 4 * 0) with d by lia.
  - intros va Hva.
    assert (dir_index va = 1023) as Hpd by (rewrite dir_index_spec; zdiv).
    assert (1 ≤ tbl_index va < 1023) as Hpt by (rewrite tbl_index_spec; zdiv).
    rewrite (walk_present m d _ (Z.lor d 3) 2).
    + by rewrite Habs.
    + apply Hroot. by rewrite Hpd.
    + apply present_lor3, Hd.
    + rewrite efa_lor3 by done. by apply M1.
  - intros x Hx.
    assert (dir_index (4294963200 + x) = 1023) as Hpd by (rewrite dir_index_spec; zdiv).
    assert (tbl_index (4294963200 + x) = 1023) as Hpt by (rewrite tbl_index_spec; zdiv).
    assert (page_offset (4294963200 + x) = x) as Hoffs by (rewrite page_offset_spec; zdiv).
    rewrite (walk_present m d _ (Z.lor d 3) (Z.lor d 3)).
    + rewrite present_lor3 by apply Hd. by rewrite efa_lor3, Hoffs.
    + apply Hroot. by rewrite Hpd.
    + apply present_lor3, Hd.
    + by rewrite efa_lor3, Hpt by done.
Qed.

(** On the sample machine 0x00801234 is not mapped, and the directory's
    slot 2 is read at 0xFFFFF008. *)
Lemma boot_address_space_witness :
  translate sample_boot 0x00801234 = None
  ∧ translate sample_boot 0xFFFFF008 = Some 0x1008.
Proof.
  destruct (boot_address_space (reset ∅) 1 2 [3; 4] [1024; 1025] 0)
    as (s3 & Hrun & _ & Hnone & _ & _ & Hdir).
  - reflexivity.
  - vm_compute. discriminate.
  - vm_compute. discriminate.
  - vm_compute. discriminate.
  - assert (s3 = sample_boot) as ->.
    { unfold sample_boot. by rewrite Hrun. }
    split; [apply Hnone; lia|].
    apply (Hdir 8). lia.
Defined.

(** X8. The constructor writes to the frame it was given at the frame's
    physical address: with paging on and that address not mapped, its first
    store faults, the frame already taken from the pool and nothing
    built. *)
Theorem PageTable_new_unmapped_frame (s : machine) (fd : Z) (kp : ContFramePool) :
  kernel_mem_pool s = Some (fd :: kp) →
  translate s (frame_address fd) = None →
  PageTable_new s = PageFault (frame_address fd) (with_kernel_pool (Some kp) s)
  ∧ stores (final (PageTable_new s)) = stores s
  ∧ kernel_mem_pool (final (PageTable_new s)) = Some kp.
Proof.
  intros Hk Hnone.
  pose proof (frame_address_aligned fd) as Hd.
  assert (PageTable_new s = PageFault (frame_address fd) (with_kernel_pool (Some kp) s))
    as Hrun.
  { unfold PageTable_new. unbind. step_pool.
    change (wrap32 (wrap32 fd * PAGE_SIZE)) with (frame_address fd).
    change (Z.to_nat ENTRIES_PER_PAGE) with (S 1023).
    rewrite for_loop_S.
    apply run_bind_fault, run_bind_fault. unfold store_word.
    rewrite (translate_ext s) by reflexivity.
    replace (index (frame_address fd) 0) with (frame_address fd)
      by (rewrite index_aligned by (done || lia); lia).
    by rewrite Hnone. }
  rewrite Hrun. by split.
Qed.

(** After boot on the sample machine, a kernel pool whose next frame is
    frame 2000, outside the 4 MiB that are mapped. *)
Lemma PageTable_new_unmapped_frame_witness :
  PageTable_new (with_kernel_pool (Some [2000]) sample_boot)
  = PageFault 8192000
      (with_kernel_pool (Some []) (with_kernel_pool (Some [2000]) sample_boot)).
Proof.
  destruct (PageTable_new_unmapped_frame
              (with_kernel_pool (Some [2000]) sample_boot) 2000 [])
    as (Hrun & _).
  - reflexivity.
  - vm_compute. reflexivity.
  - exact Hrun.
Defined.

(** X9. On a table miss (the directory entry present, the table readable
    at its physical address, its entry for the page absent) with a process
    frame [f] to take, the handler does one store, [f | 3] into that entry,
    and leaves the kernel pool alone; the faulting address then translates
    into frame [f], and every address that translated before translates as
    before. *)
Theorem table_miss_resolved {REGS : Type} (r : REGS) (s : machine)
    (d : Z) (pp : ContFramePool) (fp : Z) (pp' : ContFramePool) :
  active d s →
  let a := cr2 s in
  let e := read_phys (phys s) (d + 4 * dir_index a) in
  let p := entry_frame_address e + 4 * tbl_index a in
  let f := wrap32 (fp * PAGE_SIZE) in
  present e = true →
  translate s p = Some p →
  present (read_phys (phys s) p) = false →
  process_mem_pool s = Some pp → get_frames pp 1 = (fp, pp') → fp ≠ 0 →
  ∃ s', handle_fault r s = Ret tt s'
    ∧ stores s' = (stores s ++ [Access p p (Z.lor f 3)])%list
    ∧ phys s' = <[p := Z.lor f 3]> (phys s)
    ∧ kernel_mem_pool s' = kernel_mem_pool s
    ∧ process_mem_pool s' = Some pp'
    ∧ translate s' a = Some (f + page_offset a)
    ∧ (∀ va pa, translate s va = Some pa → translate s' va = Some pa)
    ∧ last (console s') = Some (Puts "Page fault handled successfully\n").
Proof.
  intros Hact a e p f He Htbl Hpte Hp Hget Hfp.
  pose proof (act_aligned _ _ Hact) as Hd.
  pose proof (aligned_frame fp) as Hf. fold f in Hf.
  eexists. split.
  { apply (handle_fault_table_miss_active r s d pp fp pp' Hact He Htbl Hpte Hp Hget Hfp). }
  fold a e p f. fields. cbn [write_all fold_left acc_pa acc_val].
  split; [done|]. split; [done|]. split; [done|]. split; [done|].
  split; [|split].
  - unfold translate, paging_on. fields. cbn [write_all fold_left acc_pa acc_val].
    pose proof (act_paging _ _ Hact) as Hon. unfold paging_on in Hon.
    rewrite Hon, (act_cr3 _ _ Hact).
    rewrite (walk_present _ d a e (Z.lor f 3)).
    + rewrite present_lor3 by apply Hf. by rewrite efa_lor3.
    + rewrite efa_aligned by done. by apply absent_kept_insert.
    + exact He.
    + apply read_insert_eq.
  - intros va pa Hva.
    eapply (translate_store_absent s); [reflexivity..|exact Hpte|exact Hva].
  - by rewrite last_app.
Qed.

(** After the first fault on the sample machine has made frame 3 the table
    of directory slot 2, a fault on the next page of the same region. *)
Lemma table_miss_resolved_witness :
  ∃ s', handle_fault tt (with_cr2 0x00802000 (final (handle_fault tt sample_fault)))
        = Ret tt s'
    ∧ translate s' 0x00802000 = Some 0x401000
    ∧ process_mem_pool s' = Some [].
Proof.
  destruct (handle_fault_inv tt 4096 8192 sample_fault sample_fault_inv) as [Hinv _].
  { apply (pool_contract_same 4096 8192 sample_boot);
      [vm_compute; reflexivity|exact sample_boot_pool]. }
  destruct (table_miss_resolved tt
              (with_cr2 0x00802000 (final (handle_fault tt sample_fault)))
              4096 [1025] 1025 [])
    as (s' & Hrun & _ & _ & _ & Hp & Htr & _).
  - apply (inv_active 4096 8192), inv_with_cr2, Hinv.
  - vm_compute. reflexivity.
  - vm_compute. reflexivity.
  - vm_compute. reflexivity.
  - vm_compute. reflexivity.
  - reflexivity.
  - discriminate.
  - exists s'. split; [exact Hrun|]. split; [|exact Hp].
    cbn [cr2 with_cr2] in Htr.
    change (wrap32 (1025 * PAGE_SIZE) + page_offset 8396800) with 4198400 in Htr.
    exact Htr.
Defined.

(** X10. A fault at an address inside the recursive window whose
    directory slot [pt] is absent takes the hit path with the directory
    itself as the table: the handler stores a process frame [f | 3] into
    directory slot [pt] and does not clear the frame, so that the 4 MiB of
    slot [pt] are then mapped by what frame [f] happened to hold. *)
Theorem window_fault_installs_process_frame {REGS : Type} (r : REGS)
    (s : machine) (d : Z) (pp : ContFramePool) (fp : Z) (pp' : ContFramePool) :
  active d s →
  let pt := tbl_index (cr2 s) in
  let f := wrap32 (fp * PAGE_SIZE) in
  dir_index (cr2 s) = 1023 →
  present (read_phys (phys s) (d + 4 * pt)) = false →
  process_mem_pool s = Some pp → get_frames pp 1 = (fp, pp') → fp ≠ 0 →
  ∃ s', handle_fault r s = Ret tt s'
    ∧ stores s' = (stores s ++ [Access (d + 4 * pt) (d + 4 * pt) (Z.lor f 3)])%list
    ∧ kernel_mem_pool s' = kernel_mem_pool s
    ∧ read_phys (phys s') (d + 4 * pt) = Z.lor f 3
    ∧ (∀ x, x ≠ d + 4 * pt → read_phys (phys s') x = read_phys (phys s) x)
    ∧ (f ≠ d → ∀ va, dir_index va = pt →
         translate s' va
         = let pte := read_phys (phys s) (f + 4 * tbl_index va) in
           if present pte then Some (entry_frame_address pte + page_offset va)
           else None).
Proof.
  intros Hact pt f Hpd Habs Hp Hget Hfp.
  pose proof (act_aligned _ _ Hact) as Hd.
  pose proof (aligned_frame fp) as Hf. fold f in Hf.
  pose proof (tbl_index_range (cr2 s)) as Hpt. fold pt in Hpt.
  pose proof (act_recursive _ _ Hact) as Hrec.
  pose proof (handle_fault_table_miss_active r s d pp fp pp' Hact) as Hrun.
  cbv zeta in Hrun. rewrite Hpd, Hrec, efa_lor3 in Hrun by done. fold pt f in Hrun.
  eexists. split.
  { apply Hrun; try done.
    - apply present_lor3, Hd.
    - by apply (act_identity _ _ Hact). }
  fields. cbn [write_all fold_left acc_pa acc_val].
  split; [done|]. split; [done|]. split; [apply read_insert_eq|].
  split; [intros x Hx; by apply read_insert_ne|].
  intros Hfd va Hva. unfold translate, paging_on. fields.
  cbn [write_all fold_left acc_pa acc_val].
  pose proof (act_paging _ _ Hact) as Hon. unfold paging_on in Hon.
  rewrite Hon, (act_cr3 _ _ Hact).
  apply (walk_present _ d va (Z.lor f 3)).
  - rewrite efa_aligned, Hva by done. apply read_insert_eq.
  - apply present_lor3, Hf.
  - rewrite efa_lor3 by done. apply read_insert_ne.
    pose proof (tbl_index_range va) as Hi.
    assert (in_page f (f + 4 * tbl_index va)) as Hin by (unfold in_page; lia).
    pose proof (aligned_pages_disjoint f d _ Hf Hd Hfd Hin) as Hout.
    unfold in_page in Hout. lia.
Qed.

(** A fault at 0xFFC05000 on the sample machine: directory slot 5 becomes
    [0x400000 | 3], process frame 1024 taken as a page table. *)
Lemma window_fault_installs_process_frame_witness :
  ∃ s', handle_fault tt (with_cr2 0xFFC05000 sample_boot) = Ret tt s'
    ∧ read_phys (phys s') (4096 + 4 * 5) = 4194307
    ∧ kernel_mem_pool s' = Some [3; 4].
Proof.
  destruct (window_fault_installs_process_frame tt (with_cr2 0xFFC05000 sample_boot)
              4096 [1024; 1025] 1024 [1025])
    as (s' & Hrun & _ & Hk & Hslot & _).
  - apply (inv_active 4096 8192), inv_with_cr2, sample_boot_inv.
  - vm_compute. reflexivity.
  - vm_compute. reflexivity.
  - reflexivity.
  - reflexivity.
  - discriminate.
  - exists s'. split; [exact Hrun|]. split; [|rewrite Hk; vm_compute; reflexivity].
    cbn [cr2 with_cr2] in Hslot.
    change (tbl_index 4290793472) with 5 in Hslot.
    change (Z.lor (wrap32 (1024 * PAGE_SIZE)) 3) with 4194307 in Hslot.
    exact Hslot.
Defined.

(** X11. A fault on a page whose directory entry and table entry are
    both present (a protection fault, say) is reported handled and nothing
    is done: memory, both pools and every translation are as before, so
    the access that faulted will fault again. *)
Theorem present_page_unchanged {REGS : Type} (r : REGS) (s : machine)
    (cpt : PageTable) (p0 p : Z) :
  current_page_table s = Some cpt →
  translate s (index (page_directory cpt) (dir_index (cr2 s))) = Some p0 →
  let e := read_phys (phys s) p0 in
  present e = true →
  translate s (index (entry_frame_address e) (tbl_index (cr2 s))) = Some p →
  present (read_phys (phys s) p) = true →
  ∃ s', handle_fault r s = Ret tt s'
    ∧ phys s' = phys s ∧ stores s' = stores s
    ∧ kernel_mem_pool s' = kernel_mem_pool s
    ∧ process_mem_pool s' = process_mem_pool s
    ∧ (∀ va, translate s' va = translate s va)
    ∧ last (console s') = Some (Puts "Page fault handled successfully\n").
Proof.
  intros Hcur Hdir e He Htbl Hpte. eexists. split.
  { apply (handle_fault_already_present r s cpt Hcur p0 Hdir p Htbl He Hpte). }
  fields. repeat split; try done. by rewrite last_app.
Qed.

(** A fault at 0x5000, a page of the identity-mapped region. *)
Lemma present_page_unchanged_witness :
  ∃ s', handle_fault tt (with_cr2 0x5000 sample_boot) = Ret tt s'
    ∧ phys s' = phys (with_cr2 0x5000 sample_boot)
    ∧ last (console s') = Some (Puts "Page fault handled successfully\n").
Proof.
  destruct (present_page_unchanged tt (with_cr2 0x5000 sample_boot)
              {| page_directory := 4096 |} 4096 8212)
    as (s' & Hrun & Hm & _ & _ & _ & _ & Hc).
  - reflexivity.
  - vm_compute. reflexivity.
  - vm_compute. reflexivity.
  - vm_compute. reflexivity.
  - vm_compute. reflexivity.
  - exists s'. split; [exact Hrun|]. split; [exact Hm|exact Hc].
Defined.

(** X12. On the hit path the allocation is checked: when the table entry
    is absent and the process pool answers 0, the handler says so and
    returns without a store and without reporting the fault handled. *)
Theorem process_pool_exhausted_on_hit {REGS : Type} (r : REGS) (s : machine)
    (cpt : PageTable) (p0 p : Z) (pp pp' : ContFramePool) :
  current_page_table s = Some cpt →
  translate s (index (page_directory cpt) (dir_index (cr2 s))) = Some p0 →
  let e := read_phys (phys s) p0 in
  present e = true →
  translate s (index (entry_frame_address e) (tbl_index (cr2 s))) = Some p →
  present (read_phys (phys s) p) = false →
  process_mem_pool s = Some pp → get_frames pp 1 = (0, pp') →
  ∃ s', handle_fault r s = Ret tt s'
    ∧ phys s' = phys s ∧ stores s' = stores s
    ∧ kernel_mem_pool s' = kernel_mem_pool s
    ∧ process_mem_pool s' = Some pp'
    ∧ (∀ va, translate s' va = translate s va)
    ∧ last (console s') = Some (Puts "Failed to allocate new frame\n")
    ∧ ¬ handled s'.
Proof.
  intros Hcur Hdir e He Htbl Hpte Hp Hget. eexists. split.
  { apply (handle_fault_no_page_frame r s cpt Hcur p0 Hdir p Htbl pp pp' He Hpte Hp Hget). }
  assert (∀ os, last (os ++ [Puts "Failed to allocate new frame\n"])
                = Some (Puts "Failed to allocate new frame\n")) as Hlast
    by (intros os; apply last_snoc).
  fields. split; [done|]. split; [done|]. split; [done|]. split; [done|].
  split; [done|]. split.
  - by rewrite last_app.
  - eapply not_handled;
      [| |cbn [console with_outputs with_process_pool]; rewrite last_app;
          reflexivity]; done.
Qed.

(** The second page of a region whose table exists, with a process pool
    that has nothing left. *)
Lemma process_pool_exhausted_on_hit_witness :
  ∃ s', handle_fault tt
          (with_process_pool (Some [])
             (with_cr2 0x00802000 (final (handle_fault tt sample_fault))))
        = Ret tt s'
    ∧ last (console s') = Some (Puts "Failed to allocate new frame\n").
Proof.
  destruct (process_pool_exhausted_on_hit tt
              (with_process_pool (Some [])
                 (with_cr2 0x00802000 (final (handle_fault tt sample_fault))))
              {| page_directory := 4096 |} 4104 12296 [] [])
    as (s' & Hrun & _ & _ & _ & _ & _ & Hc & _).
  - vm_compute. reflexivity.
  - vm_compute. reflexivity.
  - vm_compute. reflexivity.
  - vm_compute. reflexivity.
  - vm_compute. reflexivity.
  - reflexivity.
  - reflexivity.
  - exists s'. split; [exact Hrun|exact Hc].
Defined.

(** X13. On the hit path the handler reads the table at the physical
    address the directory entry names: when that address is not mapped the
    handler itself faults there, before it has allocated or stored
    anything. *)
Theorem table_unreachable_faults {REGS : Type} (r : REGS) (s : machine)
    (cpt : PageTable) (p0 : Z) :
  current_page_table s = Some cpt →
  translate s (index (page_directory cpt) (dir_index (cr2 s))) = Some p0 →
  let e := read_phys (phys s) p0 in
  let va := index (entry_frame_address e) (tbl_index (cr2 s)) in
  present e = true →
  translate s va = None →
  ∃ s', handle_fault r s = PageFault va s'
    ∧ phys s' = phys s ∧ stores s' = stores s
    ∧ kernel_mem_pool s' = kernel_mem_pool s
    ∧ process_mem_pool s' = process_mem_pool s.
Proof.
  intros Hcur Hdir e va He Hnone. eexists. split.
  { apply (handle_fault_table_fault r s cpt Hcur p0 Hdir He Hnone). }
  by fields.
Qed.

(** A kernel pool whose third frame, 2000, lies above the 4 MiB that are
    mapped: the first fault of a region makes it a table through the
    window, the next fault of the region cannot read it. *)
Lemma table_unreachable_faults_witness :
  ∃ s', handle_fault tt
          (with_cr2 0x00802000
             (final (handle_fault tt
                (with_cr2 0x00801234
                   (final (bring_up [1; 2; 2000] [1024; 1025] 0 (reset ∅)))))))
        = PageFault 0x7D0008 s'.
Proof.
  destruct (table_unreachable_faults tt
              (with_cr2 0x00802000
                 (final (handle_fault tt
                    (with_cr2 0x00801234
                       (final (bring_up [1; 2; 2000] [1024; 1025] 0 (reset ∅)))))))
              {| page_directory := 4096 |} 4104)
    as (s' & Hrun & _).
  - vm_compute. reflexivity.
  - vm_compute. reflexivity.
  - vm_compute. reflexivity.
  - vm_compute. reflexivity.
  - exists s'.
    match type of Hrun with _ = PageFault ?v _ =>
      assert (v = 0x7D0008) as Hv by (vm_compute; reflexivity) end.
    rewrite Hv in Hrun. exact Hrun.
Defined.

(** X14. On a directory miss resolved with kernel frame [n] and process
    frame [f], when [n] is not the table of any present directory entry:
    the faulting address then translates into frame [f], the other pages
    of its 4 MiB region are not mapped, and every address that translated
    before translates as before. *)
Theorem directory_miss_maps_page {REGS : Type} (r : REGS) (s : machine)
    (d fk : Z) (kp pp : ContFramePool) (fp : Z) (pp' : ContFramePool) :
  active d s →
  let a := cr2 s in
  let pd := dir_index a in
  let pt := tbl_index a in
  let n := frame_address fk in
  let f := wrap32 (PAGE_SIZE * fp) in
  present (read_phys (phys s) (d + 4 * pd)) = false →
  kernel_mem_pool s = Some (fk :: kp) → wrap32 fk ≠ 0 →
  (∀ i, 0 ≤ i < 1024 → present (read_phys (phys s) (d + 4 * i)) = true →
        entry_frame_address (read_phys (phys s) (d + 4 * i)) ≠ n) →
  process_mem_pool s = Some pp → get_frames pp 1 = (fp, pp') →
  ∃ s', handle_fault r s = Ret tt s'
    ∧ translate s' a = Some (f + page_offset a)
    ∧ (∀ va, dir_index va = pd → tbl_index va ≠ pt → translate s' va = None)
    ∧ (∀ va pa, translate s va = Some pa → translate s' va = Some pa).
Proof.
  intros Hact a pd pt n f He Hk Hfk Hfree Hp Hget.
  pose proof (dir_index_range a) as Hpd. fold pd in Hpd.
  pose proof (tbl_index_range a) as Hpt. fold pt in Hpt.
  pose proof (act_aligned _ _ Hact) as Hd.
  pose proof (frame_address_aligned fk) as Hn. fold n in Hn.
  pose proof (act_paging _ _ Hact) as Hon. unfold paging_on in Hon.
  assert (aligned f) as Hf by (unfold f; rewrite Z.mul_comm; apply aligned_frame).
  assert (n ≠ d) as Hnd.
  { intros Hnd. apply (Hfree 1023); [lia| |].
    - rewrite (act_recursive _ _ Hact). apply present_lor3, Hd.
    - by rewrite (act_recursive _ _ Hact), efa_lor3. }
  eexists. split.
  { apply (handle_fault_directory_miss r s d fk kp pp fp pp' Hact He Hk Hfk Hnd Hp Hget). }
  fold a pd pt n f. unfold translate, paging_on. fields. rewrite Hon, (act_cr3 _ _ Hact).
  set (m' := write_all (miss_stores d pd pt n f) (phys s)).
  assert (read_phys m' (d + 4 * pd) = Z.lor n 3) as Hdir
    by (by apply read_miss_stores_dir).
  split; [|split].
  - rewrite (walk_present m' d a (Z.lor n 3) (Z.lor f 3)).
    + rewrite present_lor3 by apply Hf. by rewrite efa_lor3.
    + by rewrite efa_aligned.
    + apply present_lor3, Hn.
    + rewrite efa_lor3 by done. by apply read_miss_stores_table.
  - intros va Hva Hne.
    rewrite (walk_present m' d va (Z.lor n 3) 0); [done| | |].
    + by rewrite efa_aligned, Hva.
    + apply present_lor3, Hn.
    + rewrite efa_lor3 by done. apply read_miss_stores_zero; [apply tbl_index_range|done].
  - intros va pa. unfold walk. rewrite efa_aligned by done.
    pose proof (dir_index_range va) as Hi. pose proof (tbl_index_range va) as Hj.
    set (e1 := read_phys (phys s) (d + 4 * dir_index va)).
    destruct (present e1) eqn:H1; [|done].
    set (a2 := entry_frame_address e1 + 4 * tbl_index va).
    destruct (present (read_phys (phys s) a2)) eqn:H2; [|done].
    intros Hpa.
    assert (read_phys m' (d + 4 * dir_index va) = e1) as E1.
    { apply read_miss_stores_other; [done..| |].
      - intros Heq. fold e1 in H1. unfold e1 in H1. rewrite Heq in H1. congruence.
      - apply (aligned_pages_disjoint d n); [done..|]. unfold in_page. lia. }
    rewrite E1, H1. fold a2.
    assert (read_phys m' a2 = read_phys (phys s) a2) as E2.
    { apply read_miss_stores_other; [done..| |].
      - intros Heq. rewrite Heq in H2. congruence.
      - apply (aligned_pages_disjoint (entry_frame_address e1) n);
          [apply efa_is_aligned|done|by apply Hfree|].
        unfold in_page, a2. lia. }
    by rewrite E2, H2.
Qed.

(** The sample fault: 0x00801234 goes to frame 1024, the rest of its
    region stays unmapped and the first 4 MiB stay where they were. *)
Lemma directory_miss_maps_page_witness :
  ∃ s', handle_fault tt sample_fault = Ret tt s'
    ∧ translate s' 0x00801234 = Some 0x400234
    ∧ translate s' 0x00802000 = None
    ∧ translate s' 0x5000 = Some 0x5000.
Proof.
  destruct (directory_miss_maps_page tt sample_fault 4096 3 [4] [1024; 1025]
              1024 [1025])
    as (s' & Hrun & Htr & Hnone & Hkeep).
  - apply (inv_active 4096 8192), sample_fault_inv.
  - vm_compute. reflexivity.
  - vm_compute. reflexivity.
  - vm_compute. discriminate.
  - intros i Hi Hpres.
    destruct (built_memory ∅ 4096 8192) as (M0 & M1 & M2 & _).
    { change 4096 with (frame_address 1). apply frame_address_aligned. }
    { change 8192 with (frame_address 2). apply frame_address_aligned. }
    { discriminate. }
    cbv zeta in M0, M1, M2.
    unfold sample_fault in Hpres |- *.
    rewrite phys_with_cr2, sample_boot_phys in Hpres |- *.
    change (frame_address 3) with 12288.
    destruct (decide (i = 0)) as [->|H0].
    { replace (4096 + 4 * 0) with 4096 by lia. rewrite M0. vm_compute. discriminate. }
    destruct (decide (i = 1023)) as [->|H1].
    { rewrite M2. vm_compute. discriminate. }
    rewrite M1 in Hpres by lia. exfalso. revert Hpres. clear.
    vm_compute. intros H. inversion H.
  - vm_compute. reflexivity.
  - vm_compute. reflexivity.
  - exists s'. split; [exact Hrun|].
    unfold sample_fault in Htr. cbn [cr2 with_cr2] in Htr.
    change (wrap32 (PAGE_SIZE * 1024) + page_offset 8393268) with 4194868 in Htr.
    split; [exact Htr|]. split.
    + apply Hnone; [vm_compute; reflexivity|vm_compute; discriminate].
    + apply Hkeep.
      apply (inv_low_identity 4096 8192 sample_fault _ sample_fault_inv). lia.
Defined.

(** X15. With a table active, the constructor run on two kernel frames of
    the identity-mapped 4 MiB that the active table does not occupy builds
    a second table as it built the first, and leaves the active table in
    place; [load] then makes the second table the active one, with the
    first 4 MiB onto themselves and nothing between 4 MiB and the window
    mapped. *)
Theorem second_table_constructed (s : machine) (d t0 fd ft : Z)
    (kp : ContFramePool) :
  paging_inv d t0 s →
  kernel_mem_pool s = Some (fd :: ft :: kp) →
  wrap32 ft ≠ 0 →
  let d' := frame_address fd in
  let t' := frame_address ft in
  d' ≠ 0 → d' < 2 ^ 22 → t' < 2 ^ 22 →
  d' ≠ d → d' ≠ t0 → t' ≠ d → t' ≠ t0 → t' ≠ d' →
  ∃ s1, PageTable_new s = Ret {| page_directory := d' |} s1
    ∧ stores s1 = (stores s ++ built d' t')%list
    ∧ kernel_mem_pool s1 = Some kp
    ∧ paging_inv d t0 s1
    ∧ ∃ s2, load {| page_directory := d' |} s1 = Ret tt s2
        ∧ paging_inv d' t' s2
        ∧ (∀ va, 0 ≤ va < 0x400000 → translate s2 va = Some va)
        ∧ (∀ va, 0x400000 ≤ va < 0xFFC00000 → translate s2 va = None).
Proof.
  intros H Hk Hft d' t' Hd0 Hdl Htl Hdd Hdt Htd Htt Hne.
  pose proof (inv_dir _ _ _ H) as Hd. pose proof (inv_table _ _ _ H) as Ht.
  pose proof (frame_address_aligned fd) as Hd'. fold d' in Hd'.
  pose proof (frame_address_aligned ft) as Ht'. fold t' in Ht'.
  destruct (built_memory (phys s) d' t' Hd' Ht' Hne) as (M0 & M1 & M2 & M3 & M4).
  destruct (inv_process _ _ _ H) as (pp & Hp).
  eexists. split.
  { apply (PageTable_new_second s d t0 fd ft kp H Hk Hft Hdl Htl Hdd Hdt Htd Htt). }
  fold d' t'. fields.
  split; [done|]. split; [done|]. split.
  { apply (inv_frame d t0 s);
      [exact H|reflexivity|reflexivity|reflexivity|
      |exists kp; reflexivity|exists pp; exact Hp].
    intros x _ Hx. fields. apply M4.
    - destruct Hx; [apply (aligned_pages_disjoint d d')
                   |apply (aligned_pages_disjoint t0 d')]; done.
    - destruct Hx; [apply (aligned_pages_disjoint d t')
                   |apply (aligned_pages_disjoint t0 t')]; done. }
  eexists. split; [apply load_state; exact Hd0|].
  match goal with |- paging_inv d' t' ?S ∧ _ => assert (paging_inv d' t' S) as H' end.
  { split; unfold paging_on; fields.
    - apply H.
    - reflexivity.
    - reflexivity.
    - exact Hd'.
    - exact Hdl.
    - exact Ht'.
    - exact Hne.
    - exact M0.
    - exact M3.
    - exact M2.
    - exists kp. reflexivity.
    - exists pp. exact Hp. }
  split; [exact H'|]. split.
  - intros va Hva. by apply (inv_low_identity d' t').
  - intros va Hva. unfold translate, paging_on. fields.
    pose proof (inv_paging _ _ _ H) as Hon. unfold paging_on in Hon. rewrite Hon.
    apply walk_absent. rewrite efa_aligned by done.
    rewrite M1; [done|]. rewrite dir_index_spec. zdiv.
Qed.

(** A second table on the sample machine: directory at 0x3000, first
    table at 0x4000. *)
Lemma second_table_constructed_witness :
  ∃ s1, PageTable_new sample_boot = Ret {| page_directory := 12288 |} s1
    ∧ kernel_mem_pool s1 = Some []
    ∧ paging_inv 4096 8192 s1.
Proof.
  destruct (second_table_constructed sample_boot 4096 8192 3 4 [])
    as (s1 & Hrun & _ & Hk & Hinv & _).
  - exact sample_boot_inv.
  - vm_compute. reflexivity.
  - vm_compute. discriminate.
  - vm_compute. discriminate.
  - vm_compute. reflexivity.
  - vm_compute. reflexivity.
  - vm_compute. discriminate.
  - vm_compute. discriminate.
  - vm_compute. discriminate.
  - vm_compute. discriminate.
  - vm_compute. discriminate.
  - exists s1. split; [exact Hrun|]. split; [exact Hk|exact Hinv].
Defined.

(** X16. [cr3] and the active table stay in step: from a state in which
    [cr3] names the directory of the active table, and that directory is
    not null, every function of the file ends in such a state, however it
    ends. *)
Theorem activation_coherent {REGS : Type} (r : REGS) (s : machine)
    (pt : PageTable) (kp pp : ContFramePool) (sz : Z) :
  coherent s →
  coherent (final (init_paging kp pp sz s))
  ∧ coherent (final (PageTable_new s))
  ∧ coherent (final (load pt s))
  ∧ coherent (final (enable_paging s))
  ∧ coherent (final (handle_fault r s)).
Proof.
  intros H. split; [|split; [|split; [|split]]].
  - by apply (coherent_same s).
  - destruct (takes_control _ _ _ _ (PageTable_new_takes s)) as (_ & H3 & Hc).
    by apply (coherent_same s).
  - destruct (decide (page_directory pt = 0)) as [Hz|Hnz].
    + rewrite load_refused by done. by apply (coherent_same s).
    + rewrite load_state by done. intros cpt. cbn [final]. fields.
      by intros [= <-].
  - by apply (coherent_same s).
  - destruct (takes_control _ _ _ _ (handle_fault_takes r s)) as (_ & H3 & Hc).
    by apply (coherent_same s).
Qed.

(** The sample machine, and a fault on it. *)
Lemma activation_coherent_witness :
  coherent sample_boot ∧ coherent (final (handle_fault tt sample_boot)).
Proof.
  assert (coherent sample_boot) as H.
  { intros cpt Hcpt.
    rewrite (inv_current _ _ _ sample_boot_inv) in Hcpt. injection Hcpt as <-.
    split; [apply (inv_cr3 _ _ _ sample_boot_inv)|discriminate]. }
  split; [exact H|].
  destruct (activation_coherent tt sample_boot {| page_directory := 0 |} [] [] 0 H)
    as (_ & _ & _ & _ & Hf).
  exact Hf.
Defined.

(** X17. Through any sequence of faults [cr0], [cr3] and the active table
    stay as they are, and each pool has given at most one frame per
    fault. *)
Theorem faults_keep_activation {REGS : Type} (l : list (REGS * Z)) (s : machine) :
  cr0 (faults l s) = cr0 s ∧ cr3 (faults l s) = cr3 s
  ∧ current_page_table (faults l s) = current_page_table s
  ∧ (∃ k, (k ≤ length l)%nat
          ∧ kernel_mem_pool (faults l s) = drop k <$> kernel_mem_pool s)
  ∧ (∃ k, (k ≤ length l)%nat
          ∧ process_mem_pool (faults l s) = drop k <$> process_mem_pool s).
Proof.
  revert s. induction l as [|[r a] l IH]; intros s; cbn [faults length].
  - repeat split; try done; exists 0%nat; (split; [lia|by rewrite drop_pool_0]).
  - destruct (IH (final (handle_fault r (with_cr2 a s))))
      as (H0 & H3 & Hc & (k & Hk & Hkp) & (p & Hp & Hpp)).
    pose proof (handle_fault_takes r (with_cr2 a s)) as Ht.
    destruct (takes_control _ _ _ _ Ht) as (T0 & T3 & Tc).
    destruct Ht as (_ & (k' & Hk' & Hkp') & (p' & Hp' & Hpp')).
    split; [by rewrite H0, T0|]. split; [by rewrite H3, T3|].
    split; [by rewrite Hc, Tc|]. split.
    + exists (k' + k)%nat. split; [lia|].
      rewrite Hkp, Hkp'. cbn [kernel_mem_pool with_cr2]. apply drop_pool_add.
    + exists (p' + p)%nat. split; [lia|].
      rewrite Hpp, Hpp'. cbn [process_mem_pool with_cr2]. apply drop_pool_add.
Qed.


(** X18. No mapping is ever changed by a later fault: from a state with
    the table at [d] active and a kernel pool that hands out no frame twice
    and only frames that are neither a table in use nor a frame of the
    process pool, after any sequence of faults the table is still active,
    the pools are still so, and every address that translated before
    translates to the same place. *)
Theorem mappings_stable {REGS : Type} (l : list (REGS * Z)) (d : Z) (s : machine) :
  active d s → unused_frames d s →
  active d (faults l s)
  ∧ unused_frames d (faults l s)
  ∧ ∀ va pa, translate s va = Some pa → translate (faults l s) va = Some pa.
Proof. intros Hact Hun. by apply faults_stable. Qed.

(** On the sample machine, the page mapped by the first fault is where it
    was after two more faults, one of them in the same region. *)
Lemma mappings_stable_witness :
  translate (faults [(tt, 0x00802000); (tt, 0x00C00000)]
               (faults [(tt, 0x00801234)] sample_boot)) 0x00801234
  = Some 0x400234.
Proof.
  pose proof (inv_active 4096 8192 sample_boot sample_boot_inv) as Hact.
  destruct (faults_stable [(tt, 0x00801234)] 4096 sample_boot Hact sample_boot_unused)
    as (Hact1 & Hun1 & _).
  destruct (mappings_stable [(tt, 0x00802000); (tt, 0x00C00000)] 4096
              (faults [(tt, 0x00801234)] sample_boot) Hact1 Hun1)
    as (_ & _ & Hkeep).
  apply Hkeep. vm_compute. reflexivity.
Defined.


(** X19. When the frame the kernel pool hands out next lies in the
    identity-mapped first 4 MiB, fault resolution is idempotent: after a
    run of the handler that reported the fault handled, a second run on
    the same address finds the directory entry and the table entry present
    and changes nothing but the console: no frame leaves a pool, no word is
    stored. *)
Theorem fault_resolution_idempotent {REGS : Type} (r r' : REGS) (d t0 : Z)
    (s s1 : machine) :
  paging_inv d t0 s → pool_contract d t0 s →
  (∀ f kp, kernel_mem_pool s = Some (f :: kp) → wrap32 f ≠ 0 →
           frame_address f < 2 ^ 22) →
  handle_fault r s = Ret tt s1 → handled s1 →
  ∃ e pte s2,
    present e = true ∧ present pte = true
    ∧ handle_fault r' s1 = Ret tt s2
    ∧ console s2
      = (console s1 ++ fault_header (cr2 s) ++
         [Puts "Page directory entry for fault: "; Putui e; Puts "\n";
          Puts "Page table entry for fault: "; Putui pte; Puts "\n";
          Puts "Page fault handled successfully\n"])%list
    ∧ phys s2 = phys s1 ∧ stores s2 = stores s1
    ∧ kernel_mem_pool s2 = kernel_mem_pool s1
    ∧ process_mem_pool s2 = process_mem_pool s1.
Proof.
  intros H Hpool Hlow Hrun Hdone.
  destruct (second_fault r r' d t0 s s1 H Hpool Hlow Hrun Hdone)
    as (e & pte & He & Hpte & Hrun2).
  exists e, pte. eexists. split; [exact He|]. split; [exact Hpte|].
  split; [exact Hrun2|]. by fields.
Qed.

(** The sample fault, handled twice. *)
Lemma fault_resolution_idempotent_witness :
  ∃ s2, handle_fault tt (final (handle_fault tt sample_fault)) = Ret tt s2
    ∧ phys s2 = phys (final (handle_fault tt sample_fault))
    ∧ stores s2 = stores (final (handle_fault tt sample_fault))
    ∧ kernel_mem_pool s2 = Some [4] ∧ process_mem_pool s2 = Some [1025].
Proof.
  destruct (fault_resolution_idempotent tt tt 4096 8192 sample_fault
              (final (handle_fault tt sample_fault)))
    as (e & pte & s2 & _ & _ & Hrun & _ & Hm & Hs & Hk & Hp).
  - exact sample_fault_inv.
  - apply (pool_contract_same 4096 8192 sample_boot);
      [vm_compute; reflexivity|exact sample_boot_pool].
  - intros f kp Hk Hf. vm_compute in Hk. injection Hk as <- _.
    vm_compute. reflexivity.
  - vm_compute. reflexivity.
  - left. vm_compute. reflexivity.
  - exists s2. split; [exact Hrun|]. split; [exact Hm|]. split; [exact Hs|].
    split; [rewrite Hk|rewrite Hp]; vm_compute; reflexivity.
Defined.
